(** * A shallow embedding of the Brackets [FileSystem] core
    (src/filesystem/FileSystem.js)

    The development follows the source file top to bottom:

    - [Path]: the string helpers the source takes from JavaScript
      ([indexOf], [split], [join], [splice], the duplicated-slash regular
      expression) and [isAbsolutePath], [_appendTrailingSlash],
      [_normalizePath];
    - [FS]: the state of a [FileSystem] object, the continuations it hands
      to the backend, and its methods as computations in a small
      state-and-exception monad.  [resolve] is embedded up to its [stat]
      call, with the two callbacks it passes there.  The open and save
      dialogs, which only forward their arguments to the backend, and
      renaming ([_fireRenameEvent], [_handleRename]), whose effect lies in
      [FileIndex.entryRenamed], are not part of the embedding.

    JavaScript strings are modelled as [string], a sequence of code units of
    which only the slash, the dot and the colon are ever inspected. *)

From Equations Require Import Equations.
From stdpp Require Import base option list gmap strings fin_maps.
From Stdlib Require Import Ascii String ZArith Lia.

Local Open Scope string_scope.

(** ** Results of computations that may throw *)

(** The two [Error]s thrown by [_normalizePath], and an exception escaping
    from a client callback. *)
Inductive Error : Type :=
| AbsolutePathRequired (path : string) (* "Paths must be absolute: '" + path + "'" *)
| InvalidPath (path : string)          (* "Invalid absolute path: '" + path + "'" *)
| CallbackError (tag : nat).           (* whatever a client callback throws *)

Inductive Result (A : Type) : Type :=
| Ok (a : A)
| Throw (e : Error).
Arguments Ok {A} a.
Arguments Throw {A} e.

Module Path.

(** *** JavaScript string and array primitives *)

(** [s[i]]: [None] stands for [undefined]. *)
Definition charAt (s : string) (i : nat) : option ascii := String.get i s.

(** [s[s.length - 1]]; [undefined] on the empty string. *)
Fixpoint lastChar (s : string) : option ascii :=
  match s with
  | EmptyString => None
  | String c EmptyString => Some c
  | String _ rest => lastChar rest
  end.

Definition isChar (c : ascii) (o : option ascii) : bool :=
  match o with
  | Some d => Ascii.eqb d c
  | None => false
  end.

(** [s.indexOf(needle)]; [None] stands for [-1]. *)
Fixpoint indexOf (s needle : string) : option nat :=
  if String.prefix needle s then Some 0
  else match s with
       | EmptyString => None
       | String _ rest => S <$> indexOf rest needle
       end.

(** [s.indexOf(needle) === 0] *)
Definition startsWith (s needle : string) : bool :=
  match indexOf s needle with
  | Some 0 => true
  | _ => false
  end.

(** [s.split("/")] *)
Fixpoint split (s : string) : list string :=
  match s with
  | EmptyString => [EmptyString]
  | String c rest =>
      if Ascii.eqb c "/" then EmptyString :: split rest
      else match split rest with
           | seg :: segs => String c seg :: segs
           | [] => [String c EmptyString]
           end
  end.

(** [segments.join("/")] *)
Fixpoint join (segments : list string) : string :=
  match segments with
  | [] => EmptyString
  | [seg] => seg
  | seg :: rest => seg ++ "/" ++ join rest
  end.

(** [segments.splice(start, 2)], for the array that is left. *)
Definition splice2 (start : nat) (segments : list string) : list string :=
  take start segments ++ drop (start + 2) segments.

(** *** The path helpers of the source *)

(** [FileSystem.isAbsolutePath]:
    [fullPath[0] === "/" || fullPath[1] === ":"]. *)
Definition isAbsolutePath (fullPath : string) : bool :=
  isChar "/" (charAt fullPath 0) || isChar ":" (charAt fullPath 1).

(** [_appendTrailingSlash] *)
Definition _appendTrailingSlash (path : string) : string :=
  if negb (isChar "/" (lastChar path)) then path ++ "/" else path.

(** [path.search(_DUPLICATED_SLASH_RE) === 0], with
    [_DUPLICATED_SLASH_RE = /\/{2,}/g]: the leftmost run of two or more
    slashes starts the string. *)
Definition searchDuplicatedSlash0 (path : string) : bool :=
  String.prefix "//" path.

(** [path.replace(_DUPLICATED_SLASH_RE, "/")]: every maximal run of two or
    more slashes becomes one slash; a slash followed by a slash is dropped. *)
Fixpoint replaceDuplicatedSlash (path : string) : string :=
  match path with
  | EmptyString => EmptyString
  | String c rest =>
      if Ascii.eqb c "/" && isChar "/" (charAt rest 0)
      then replaceDuplicatedSlash rest
      else String c (replaceDuplicatedSlash rest)
  end.

(** Case analysis that keeps the equation, for the termination proof below. *)
Definition inspect {A : Type} (x : A) : { y : A | x = y } := exist _ x eq_refl.

(** The [for] loop of [_normalizePath] at index [i], run to its end:
<<
    for (i = 1; i < segments.length; i++) {
        if (segments[i] === "..") {
            if (i < 2) { throw new Error("Invalid absolute path: ..."); }
            segments.splice(i - 1, 2);
            i -= 2;
        }
    }
>>
    [path] is only the text of the error message. *)
Equations? removeDotDot (path : string) (i : nat) (segments : list string)
  : Result (list string) by wf (2 * List.length segments - i) lt :=
  removeDotDot path i segments with inspect (segments !! i) => {
    | exist _ (Some seg) Hseg with inspect (String.eqb seg "..") => {
        | exist _ true _ with inspect (i <? 2)%nat => {
            | exist _ true _ := Throw (InvalidPath path);
            | exist _ false Hi :=
                removeDotDot path (i - 2 + 1) (splice2 (i - 1) segments) };
        | exist _ false _ := removeDotDot path (i + 1) segments };
    | exist _ None _ := Ok segments }.
Proof.
  - apply lookup_lt_Some in Hseg. apply Nat.ltb_ge in Hi.
    unfold splice2. rewrite length_app, length_take, length_drop. lia.
  - apply lookup_lt_Some in Hseg. lia.
Qed.

(** Whether the backend asks for UNC paths to be kept
    ([this._impl.normalizeUNCPaths]) is the only thing [_normalizePath]
    reads from the object. *)
Definition _normalizePath (normalizeUNCPaths : bool) (path : string)
    (isDirectory : bool) : Result string :=
  if negb (isAbsolutePath path) then Throw (AbsolutePathRequired path)
  else
    let isUNCPath := normalizeUNCPaths && searchDuplicatedSlash0 path in
    (* Remove duplicated "/"es *)
    let path := replaceDuplicatedSlash path in
    (* Remove ".." segments *)
    let dotdot :=
      match indexOf path ".." with
      | Some _ =>
          match removeDotDot path 1 (split path) with
          | Ok segments => Ok (join segments)
          | Throw e => Throw e
          end
      | None => Ok path
      end in
    match dotdot with
    | Throw e => Throw e
    | Ok path =>
        let path := if isDirectory then _appendTrailingSlash path else path in
        let path := if isUNCPath then "/" ++ path else path in
        Ok path
    end.

End Path.


(** ** Modelled collaborators: entries, stats and the file index

    [File], [Directory] and [FileIndex] are modules of the repository that
    [FileSystem.js] requires; what follows is the part of their interface
    that [FileSystem.js] uses. *)

(** Modelled from the spec: the stat snapshot of the backend
    ([FileSystemStats], not in the sources at hand); freshness is compared by
    [mtime.getTime()], in milliseconds. *)
Record Stats : Type := { isFile_stat : bool; mtime : Z }.

(** Modelled from the spec: a [File] or [Directory] object (their modules are
    not in the sources at hand).  [eid] is the identity of the object: [===]
    on entries is equality of [eid].  The path fields are fixed at
    construction (renaming, [FileIndex.entryRenamed], is not part of this
    model); the cached [_stat] and [_contents] are mutable and live in the
    heap of the file system, see [cached] below. *)
Record Entry : Type := {
  eid : nat;
  fullPath : string;
  isDirectory : bool;
  name : string;
  parentPath : string
}.

Definition isFile (e : Entry) : bool := negb (isDirectory e).

(** [a === b] on entries *)
Definition sameEntry (a b : Entry) : bool := Nat.eqb (eid a) (eid b).

(** Modelled from the spec: [name] is the last path segment, [parentPath] the
    canonical path of the parent directory, empty for the filesystem root. *)
Definition pathName (path : string) (isDirectory : bool) : string :=
  let parts := Path.split path in
  let parts := if isDirectory then removelast parts else parts in
  List.last parts EmptyString.

Definition pathParent (path : string) (isDirectory : bool) : string :=
  let parts := Path.split path in
  let parts := if isDirectory then removelast parts else parts in
  match removelast parts with
  | [] => EmptyString
  | parents => Path.join parents ++ "/"
  end.

(** Modelled from the spec: [new File(path, fileSystem)] and
    [new Directory(path, fileSystem)]; [id] is the fresh identity. *)
Definition newEntry (id : nat) (path : string) (isDirectory : bool) : Entry :=
  {| eid := id; fullPath := path; isDirectory := isDirectory;
     name := pathName path isDirectory;
     parentPath := pathParent path isDirectory |}.

(** The mutable part of an entry: [entry._stat] and, for a directory,
    [entry._contents]; [None] stands for [undefined]. *)
Record Cached : Type := {
  _stat : option Stats;
  _contents : option (list Entry)
}.

Definition noCache : Cached := {| _stat := None; _contents := None |}.

(** Modelled from the spec: [FileIndex], the intern table from canonical
    path to entry (its module is not in the sources at hand): exact lookup,
    insertion at the entry's path, deletion by entry, clearing. *)
Module FileIndex.

Definition getEntry (path : string) (index : gmap string Entry) : option Entry :=
  index !! path.

Definition addEntry (entry : Entry) (index : gmap string Entry) : gmap string Entry :=
  <[fullPath entry := entry]> index.

Definition removeEntry (entry : Entry) (index : gmap string Entry) : gmap string Entry :=
  delete (fullPath entry) index.

Definition clear (index : gmap string Entry) : gmap string Entry := ∅.

(** The entries [visitAll] presents to its visitor, in an unspecified order. *)
Definition entries (index : gmap string Entry) : list Entry :=
  (map_to_list index).*2.

(** [get(e.fullPath) === e] for every entry of the index. *)
Definition wf (index : gmap string Entry) : Prop :=
  ∀ path e, index !! path = Some e → fullPath e = path.

End FileIndex.

Module FS.

(** ** The state of a [FileSystem] object *)

(** [this._impl]: the two capabilities the core reads from the backend. *)
Record Impl : Type := { recursiveWatch : bool; normalizeUNCPaths : bool }.

(** A watch filter, [filter(name, parentPath)]. *)
Definition Filter : Type := string → string → bool.

(** A watched-root object [{entry, filter, active}].  [rootId] is the
    identity of the object; the mutable [active] flag lives in the heap of
    the file system ([activeRoots] below), because the object is reachable
    both from [_watchedRoots] and from the closures of [watch]. *)
Record WatchedRoot : Type := {
  rootId : nat;
  root_entry : Entry;
  root_filter : Filter
}.

(** A callback supplied by a client of [watch] or [unwatch].  The model
    records each call in the trace; [cbThrows] tells on which argument the
    callback throws.  Client callbacks do not call back into the file system. *)
Record ClientCallback : Type := {
  cbTag : nat;
  cbThrows : option string → bool
}.

(** The closures the core passes as [callback] to [_watchOrUnwatchEntry]. *)
Inductive Callback : Type :=
| WatchCb (fullPath : string) (entry : Entry) (watchedRoot : WatchedRoot)
          (callback : option ClientCallback)            (* in [watch] *)
| UnwatchEntryCb (entry : Entry) (callback : Callback)  (* in [_unwatchEntry] *)
| UnwatchCb (fullPath : string) (entry : Entry)
            (callback : option ClientCallback)          (* in [unwatch] *)
| UnwatchAllCb (watchedRoot : WatchedRoot)              (* in [_unwatchAll] *)
| DirectoryCountdownCb (counter : nat) (directory : Entry) (stat : option Stats)
            (addedEntries removedEntries : list Entry). (* in [_handleDirectoryChange] *)

(** The two request functions built by [_watchOrUnwatchEntry]. *)
Inductive RequestFn : Type :=
| ImplFn (shouldWatch : bool) (entry : Entry)
| VisitFn (shouldWatch : bool) (entry : Entry) (watchedRoot : WatchedRoot).

(** An element [{fn, cb}] of [_watchRequests]; [rid] is its identity. *)
Record WatchRequest : Type := {
  rid : nat;
  fn : RequestFn;
  cb : Callback
}.

(** An element [{path, stat}] of [_externalChanges]. *)
Record ExternalChange : Type := {
  change_path : option string;
  change_stat : option Stats
}.

(** The continuations the core hands to its collaborators, to be called
    back later. *)
Inductive Continuation : Type :=
| RequestCb (request : WatchRequest)
    (* the function given to [request.fn] in [_dequeueWatchRequest] *)
| VisitCb (shouldWatch : bool) (watchedRoot : WatchedRoot) (request : WatchRequest)
    (* the completion callback of [entry.visit] *)
| CountdownCb (count : nat) (request : WatchRequest)
    (* [watchOrUnwatchCallback] of [_watchOrUnwatchEntry]; [count] is the
       cell holding the shared counter *)
| ContentsCb (directory : Entry) (oldContents : list Entry) (stat : option Stats).
    (* the callback of [directory.getContents] in [_handleDirectoryChange] *)

(** What the outside world sees the core do. *)
Inductive Event : Type :=
| Change (entry : option Entry) (added removed : option (list Entry))
    (* [_fireChangeEvent] *)
| Called (tag : nat) (err : option string)   (* a client callback is applied *)
| WatchPath (path : string)                  (* [impl.watchPath(path, _)] *)
| UnwatchPath (path : string)                (* [impl.unwatchPath(path, _)] *)
| UnwatchAll                                 (* [impl.unwatchAll()] *)
| Visit (entry : Entry)                      (* [entry.visit(visitor, _)] *)
| GetContents (directory : Entry)            (* [directory.getContents(_)] *)
| ConsoleWarn (text : string) (path : string)
| ConsoleError (text : string)
| Enqueued (request : nat)                   (* [_watchRequests.push] *)
| Started (request : nat)                    (* [request.fn.call] *)
| Shifted (request : nat).                   (* [_watchRequests.shift] *)

Record FileSystem : Type := {
  _impl : Impl;
  _index : gmap string Entry;
  (* own properties of the object [_watchedRoots], in insertion order, which
     is the order of [Object.keys] *)
  _watchedRoots : list (string * WatchedRoot);
  _watchRequests : list WatchRequest;
  _externalChanges : list ExternalChange;
  _activeChangeCount : Z;
  (* the heap: the watched-root objects whose [active] is true, the cached
     data of the entries, the variables [count] (of [_watchOrUnwatchEntry])
     and [counter] (of [_handleDirectoryChange]) shared by countdown
     closures, and the next fresh identity *)
  activeRoots : gset nat;
  cached : gmap nat Cached;
  counters : gmap nat Z;
  directoryCounters : gmap nat Z;
  nextId : nat;
  (* the environment: continuations not yet called back, and the trace *)
  pending : list Continuation;
  trace : list Event
}.

(** [new FileSystem()] followed by [init(impl)]. *)
Definition init (impl : Impl) : FileSystem :=
  {| _impl := impl; _index := ∅; _watchedRoots := []; _watchRequests := [];
     _externalChanges := []; _activeChangeCount := 0;
     activeRoots := ∅; cached := ∅; counters := ∅; directoryCounters := ∅;
     nextId := 0;
     pending := []; trace := [] |}.

Definition set_index (v : gmap string Entry) (s : FileSystem) : FileSystem :=
  {| _impl := _impl s; _index := v; _watchedRoots := _watchedRoots s;
     _watchRequests := _watchRequests s; _externalChanges := _externalChanges s;
     _activeChangeCount := _activeChangeCount s; activeRoots := activeRoots s;
     cached := cached s; counters := counters s;
     directoryCounters := directoryCounters s; nextId := nextId s;
     pending := pending s; trace := trace s |}.

Definition set_watchedRoots (v : list (string * WatchedRoot)) (s : FileSystem) : FileSystem :=
  {| _impl := _impl s; _index := _index s; _watchedRoots := v;
     _watchRequests := _watchRequests s; _externalChanges := _externalChanges s;
     _activeChangeCount := _activeChangeCount s; activeRoots := activeRoots s;
     cached := cached s; counters := counters s;
     directoryCounters := directoryCounters s; nextId := nextId s;
     pending := pending s; trace := trace s |}.

Definition set_watchRequests (v : list WatchRequest) (s : FileSystem) : FileSystem :=
  {| _impl := _impl s; _index := _index s; _watchedRoots := _watchedRoots s;
     _watchRequests := v; _externalChanges := _externalChanges s;
     _activeChangeCount := _activeChangeCount s; activeRoots := activeRoots s;
     cached := cached s; counters := counters s;
     directoryCounters := directoryCounters s; nextId := nextId s;
     pending := pending s; trace := trace s |}.

Definition set_externalChanges (v : list ExternalChange) (s : FileSystem) : FileSystem :=
  {| _impl := _impl s; _index := _index s; _watchedRoots := _watchedRoots s;
     _watchRequests := _watchRequests s; _externalChanges := v;
     _activeChangeCount := _activeChangeCount s; activeRoots := activeRoots s;
     cached := cached s; counters := counters s;
     directoryCounters := directoryCounters s; nextId := nextId s;
     pending := pending s; trace := trace s |}.

Definition set_activeChangeCount (v : Z) (s : FileSystem) : FileSystem :=
  {| _impl := _impl s; _index := _index s; _watchedRoots := _watchedRoots s;
     _watchRequests := _watchRequests s; _externalChanges := _externalChanges s;
     _activeChangeCount := v; activeRoots := activeRoots s;
     cached := cached s; counters := counters s;
     directoryCounters := directoryCounters s; nextId := nextId s;
     pending := pending s; trace := trace s |}.

Definition set_activeRoots (v : gset nat) (s : FileSystem) : FileSystem :=
  {| _impl := _impl s; _index := _index s; _watchedRoots := _watchedRoots s;
     _watchRequests := _watchRequests s; _externalChanges := _externalChanges s;
     _activeChangeCount := _activeChangeCount s; activeRoots := v;
     cached := cached s; counters := counters s;
     directoryCounters := directoryCounters s; nextId := nextId s;
     pending := pending s; trace := trace s |}.

Definition set_cached (v : gmap nat Cached) (s : FileSystem) : FileSystem :=
  {| _impl := _impl s; _index := _index s; _watchedRoots := _watchedRoots s;
     _watchRequests := _watchRequests s; _externalChanges := _externalChanges s;
     _activeChangeCount := _activeChangeCount s; activeRoots := activeRoots s;
     cached := v; counters := counters s;
     directoryCounters := directoryCounters s; nextId := nextId s;
     pending := pending s; trace := trace s |}.

Definition set_counters (v : gmap nat Z) (s : FileSystem) : FileSystem :=
  {| _impl := _impl s; _index := _index s; _watchedRoots := _watchedRoots s;
     _watchRequests := _watchRequests s; _externalChanges := _externalChanges s;
     _activeChangeCount := _activeChangeCount s; activeRoots := activeRoots s;
     cached := cached s; counters := v;
     directoryCounters := directoryCounters s; nextId := nextId s;
     pending := pending s; trace := trace s |}.

Definition set_directoryCounters (v : gmap nat Z) (s : FileSystem) : FileSystem :=
  {| _impl := _impl s; _index := _index s; _watchedRoots := _watchedRoots s;
     _watchRequests := _watchRequests s; _externalChanges := _externalChanges s;
     _activeChangeCount := _activeChangeCount s; activeRoots := activeRoots s;
     cached := cached s; counters := counters s;
     directoryCounters := v; nextId := nextId s;
     pending := pending s; trace := trace s |}.

Definition set_nextId (v : nat) (s : FileSystem) : FileSystem :=
  {| _impl := _impl s; _index := _index s; _watchedRoots := _watchedRoots s;
     _watchRequests := _watchRequests s; _externalChanges := _externalChanges s;
     _activeChangeCount := _activeChangeCount s; activeRoots := activeRoots s;
     cached := cached s; counters := counters s;
     directoryCounters := directoryCounters s; nextId := v;
     pending := pending s; trace := trace s |}.

Definition set_pending (v : list Continuation) (s : FileSystem) : FileSystem :=
  {| _impl := _impl s; _index := _index s; _watchedRoots := _watchedRoots s;
     _watchRequests := _watchRequests s; _externalChanges := _externalChanges s;
     _activeChangeCount := _activeChangeCount s; activeRoots := activeRoots s;
     cached := cached s; counters := counters s;
     directoryCounters := directoryCounters s; nextId := nextId s;
     pending := v; trace := trace s |}.

Definition set_trace (v : list Event) (s : FileSystem) : FileSystem :=
  {| _impl := _impl s; _index := _index s; _watchedRoots := _watchedRoots s;
     _watchRequests := _watchRequests s; _externalChanges := _externalChanges s;
     _activeChangeCount := _activeChangeCount s; activeRoots := activeRoots s;
     cached := cached s; counters := counters s;
     directoryCounters := directoryCounters s; nextId := nextId s;
     pending := pending s; trace := v |}.

(** ** The monad of the methods: state, and exceptions that keep the state *)

Definition M (A : Type) : Type := FileSystem → FileSystem * Result A.

Definition ret {A} (a : A) : M A := λ s, (s, Ok a).

Definition bind {A B} (m : M A) (k : A → M B) : M B :=
  λ s, match m s with
       | (s', Ok a) => k a s'
       | (s', Throw e) => (s', Throw e)
       end.

Definition throw {A} (e : Error) : M A := λ s, (s, Throw e).

Definition gets {A} (f : FileSystem → A) : M A := λ s, (s, Ok (f s)).

Definition modify (f : FileSystem → FileSystem) : M unit := λ s, (f s, Ok tt).

(** [try { body } finally { handler }]: the handler runs whatever the body
    did; if the handler completes, the completion of the body stands. *)
Definition tryFinally {A} (body : M A) (handler : M unit) : M A :=
  λ s, match body s with
       | (s1, r) =>
           match handler s1 with
           | (s2, Ok _) => (s2, r)
           | (s2, Throw e) => (s2, Throw e)
           end
       end.

Declare Scope fs_scope.
Delimit Scope fs_scope with fs.
Notation "'let*' x ':=' m 'in' k" := (bind m (λ x, k))
  (at level 10, x name, m at level 100, k at level 200) : fs_scope.
Notation "m1 ';;' m2" := (bind m1 (λ _, m2))
  (at level 100, m2 at level 200, right associativity) : fs_scope.
Local Open Scope fs_scope.

(** [array.forEach(f)], when [f] does not change the array. *)
Fixpoint forEach {A} (l : list A) (f : A → M unit) : M unit :=
  match l with
  | [] => ret tt
  | x :: rest => f x ;; forEach rest f
  end.

Definition liftResult {A} (r : Result A) : M A := λ s, (s, r).

Definition emit (e : Event) : M unit :=
  modify (λ s, set_trace (trace s ++ [e]) s).

(** A fresh object identity. *)
Definition fresh : M nat :=
  let* n := gets nextId in
  modify (set_nextId (S n)) ;;
  ret n.

(** Hand a continuation to a collaborator. *)
Definition suspend (k : Continuation) : M unit :=
  modify (λ s, set_pending (pending s ++ [k]) s).


(** *** JavaScript truthiness and own-property access *)

(** [!path], for a path that is [null] ([None]) or a string. *)
Definition falsyPath (path : option string) : bool :=
  match path with
  | None => true
  | Some p => String.eqb p EmptyString
  end.

(** [if (err)], for an error that is [null] ([None]) or a string. *)
Definition truthyErr (err : option string) : bool :=
  match err with
  | None => false
  | Some e => negb (String.eqb e EmptyString)
  end.

(** [b.active] for a JavaScript boolean [b]: a boolean has no such property
    and the read yields [undefined] ([None]). *)
Definition booleanActive (b : bool) : option bool := None.

(** [if (x)], for a value that is [undefined] ([None]) or a boolean. *)
Definition truthyFlag (x : option bool) : bool :=
  match x with
  | Some b => b
  | None => false
  end.

(** [roots[path]] *)
Definition lookupRoot (path : string) (roots : list (string * WatchedRoot))
  : option WatchedRoot :=
  snd <$> List.find (λ kv, String.eqb kv.1 path) roots.

(** [roots[path] = root]: an existing key keeps its place, a new key is
    appended. *)
Fixpoint setRoot (path : string) (root : WatchedRoot)
    (roots : list (string * WatchedRoot)) : list (string * WatchedRoot) :=
  match roots with
  | [] => [(path, root)]
  | (p, r) :: rest =>
      if String.eqb p path then (p, root) :: rest
      else (p, r) :: setRoot path root rest
  end.

(** [delete roots[path]] *)
Definition deleteRoot (path : string) (roots : list (string * WatchedRoot))
  : list (string * WatchedRoot) :=
  List.filter (λ kv, negb (String.eqb kv.1 path)) roots.

(** [watchedRoot.active] and its two assignments. *)
Definition isActive (watchedRoot : WatchedRoot) : M bool :=
  gets (λ s, bool_decide (rootId watchedRoot ∈ activeRoots s)).

Definition setActive (watchedRoot : WatchedRoot) (active : bool) : M unit :=
  modify (λ s, set_activeRoots
                 (if active then {[rootId watchedRoot]} ∪ activeRoots s
                  else activeRoots s ∖ {[rootId watchedRoot]}) s).

(** *** Entries and the index *)

Definition getCached (entry : Entry) : M Cached :=
  gets (λ s, default noCache (cached s !! eid entry)).

(** Modelled from the spec: [entry._clearCachedData()] clears the cached
    stat and the cached contents. *)
Definition _clearCachedData (entry : Entry) : M unit :=
  modify (λ s, set_cached (delete (eid entry) (cached s)) s).

(** [entry._stat = stat] *)
Definition setStat (entry : Entry) (stat : option Stats) : M unit :=
  let* c := getCached entry in
  modify (λ s, set_cached
                 (<[eid entry := {| _stat := stat; _contents := _contents c |}]> (cached s)) s).

(** Modelled from the spec: [directory.getContents] caches the listing it
    delivers. *)
Definition setContents (entry : Entry) (contents : list Entry) : M unit :=
  let* c := getCached entry in
  modify (λ s, set_cached
                 (<[eid entry := {| _stat := _stat c; _contents := Some contents |}]> (cached s)) s).

(** [this._index.visitAll(visitor)] *)
Definition visitAll (visitor : Entry → M unit) : M unit :=
  let* index := gets _index in
  forEach (FileIndex.entries index) visitor.

(** *** Events and client callbacks *)

Definition _fireChangeEvent (entry : option Entry)
    (added removed : option (list Entry)) : M unit :=
  emit (Change entry added removed).

(** [callback(err)], after [callback = callback || function () {}]. *)
Definition callClient (callback : option ClientCallback) (err : option string) : M unit :=
  match callback with
  | None => ret tt
  | Some c =>
      emit (Called (cbTag c) err) ;;
      if cbThrows c err then throw (CallbackError (cbTag c)) else ret tt
  end.

(** [--count] and [var count = n], for the variable [count] of
    [_watchOrUnwatchEntry], held in a cell. *)
Definition predecrement (cell : nat) : M Z :=
  let* n := gets (λ s, default 0%Z (counters s !! cell)) in
  modify (λ s, set_counters (<[cell := (n - 1)%Z]> (counters s)) s) ;;
  ret (n - 1)%Z.

Definition newCounter (n : nat) : M nat :=
  let* cell := fresh in
  modify (λ s, set_counters (<[cell := Z.of_nat n]> (counters s)) s) ;;
  ret cell.

(** The same for the variable [counter] of [_handleDirectoryChange]. *)
Definition predecrementDirectory (cell : nat) : M Z :=
  let* n := gets (λ s, default 0%Z (directoryCounters s !! cell)) in
  modify (λ s, set_directoryCounters (<[cell := (n - 1)%Z]> (directoryCounters s)) s) ;;
  ret (n - 1)%Z.

Definition newDirectoryCounter (n : nat) : M nat :=
  let* cell := fresh in
  modify (λ s, set_directoryCounters (<[cell := Z.of_nat n]> (directoryCounters s)) s) ;;
  ret cell.

(** *** The callbacks passed to [_watchOrUnwatchEntry] *)

Fixpoint applyCallback (callback : Callback) (err : option string) : M unit :=
  match callback with
  | WatchCb rootPath entry watchedRoot callback =>
      if truthyErr err then
        emit (ConsoleWarn "Failed to watch root: " (fullPath entry)) ;;
        modify (λ s, set_watchedRoots (deleteRoot rootPath (_watchedRoots s)) s) ;;
        callClient callback err
      else
        setActive watchedRoot true ;;
        callClient callback None
  | UnwatchEntryCb entry callback =>
      (* Make sure to clear cached data for all unwatched entries *)
      visitAll (λ child,
        if Path.startsWith (fullPath child) (fullPath entry)
        then _clearCachedData child else ret tt) ;;
      applyCallback callback err
  | UnwatchCb rootPath entry callback =>
      modify (λ s, set_watchedRoots (deleteRoot rootPath (_watchedRoots s)) s) ;;
      visitAll (λ child,
        if Path.startsWith (fullPath child) (fullPath entry)
        then modify (λ s, set_index (FileIndex.removeEntry child (_index s)) s)
        else ret tt) ;;
      if truthyErr err then
        emit (ConsoleWarn "Failed to unwatch root: " (fullPath entry)) ;;
        callClient callback err
      else callClient callback None
  | UnwatchAllCb watchedRoot =>
      emit (ConsoleWarn "Watching disabled for"
              (fullPath (root_entry watchedRoot)))
  | DirectoryCountdownCb counter directory stat addedEntries removedEntries =>
      let* n := predecrementDirectory counter in
      if (n =? 0)%Z then
        setStat directory stat ;;
        _fireChangeEvent (Some directory) (Some addedEntries) (Some removedEntries)
      else ret tt
  end.

(** *** The watch-request queue *)

Definition implCommand (shouldWatch : bool) (path : string) : Event :=
  if shouldWatch then WatchPath path else UnwatchPath path.

(** [request.fn.call(null, requestCb)]: both request functions end by
    handing a continuation to a collaborator. *)
Definition callFn (request : WatchRequest) : M unit :=
  emit (Started (rid request)) ;;
  match fn request with
  | ImplFn shouldWatch entry =>
      emit (implCommand shouldWatch (fullPath entry)) ;;
      suspend (RequestCb request)
  | VisitFn shouldWatch entry watchedRoot =>
      emit (Visit entry) ;;
      suspend (VisitCb shouldWatch watchedRoot request)
  end.

Definition _dequeueWatchRequest : M unit :=
  let* requests := gets _watchRequests in
  match requests with
  | request :: _ => callFn request
  | [] => ret tt
  end.

(** [this._watchRequests.shift()] *)
Definition shiftWatchRequests : M unit :=
  let* requests := gets _watchRequests in
  match requests with
  | request :: rest =>
      modify (set_watchRequests rest) ;;
      emit (Shifted (rid request))
  | [] => ret tt
  end.

(** The function that [_dequeueWatchRequest] gives to [request.fn]:
<<
    try { request.cb.apply(null, callbackArgs); }
    finally { this._watchRequests.shift(); this._dequeueWatchRequest(); }
>> *)
Definition requestCb (request : WatchRequest) (err : option string) : M unit :=
  tryFinally (applyCallback (cb request) err)
             (shiftWatchRequests ;; _dequeueWatchRequest).

Definition _enqueueWatchRequest (fn : RequestFn) (cb : Callback) : M unit :=
  let* id := fresh in
  modify (λ s, set_watchRequests
                 (_watchRequests s ++ [{| rid := id; fn := fn; cb := cb |}]) s) ;;
  emit (Enqueued id) ;;
  let* requests := gets _watchRequests in
  if (List.length requests =? 1)%nat then _dequeueWatchRequest else ret tt.

(** *** Watched roots *)

Definition _findWatchedRootForPath (path : string) : M (option WatchedRoot) :=
  gets (λ s, snd <$> List.find (λ kv, Path.startsWith path kv.1) (_watchedRoots s)).

Definition _watchOrUnwatchEntry (entry : Entry) (watchedRoot : WatchedRoot)
    (callback : Callback) (shouldWatch : bool) : M unit :=
  let* impl := gets _impl in
  if recursiveWatch impl then
    if negb (sameEntry entry (root_entry watchedRoot)) then
      (* Watch and unwatch calls to children of the watched root are no-ops *)
      applyCallback callback None
    else _enqueueWatchRequest (ImplFn shouldWatch entry) callback
  else _enqueueWatchRequest (VisitFn shouldWatch entry watchedRoot) callback.

Definition _watchEntry (entry : Entry) (watchedRoot : WatchedRoot)
    (callback : Callback) : M unit :=
  _watchOrUnwatchEntry entry watchedRoot callback true.

Definition _unwatchEntry (entry : Entry) (watchedRoot : WatchedRoot)
    (callback : Callback) : M unit :=
  _watchOrUnwatchEntry entry watchedRoot (UnwatchEntryCb entry callback) false.

Definition close : M unit :=
  emit UnwatchAll ;;
  modify (λ s, set_index (FileIndex.clear (_index s)) s).

Definition _indexFilter (path name : string) : M bool :=
  let* parentRoot := _findWatchedRootForPath path in
  match parentRoot with
  | Some root => ret (root_filter root name path)
  | None => ret true
  end.

(** *** Entries for paths *)

Inductive EntryConstructor : Type := File | Directory.

Definition _getEntryForPath (constructor : EntryConstructor) (path : string) : M Entry :=
  let isDirectory := match constructor with Directory => true | File => false end in
  let* impl := gets _impl in
  let* path := liftResult (Path._normalizePath (normalizeUNCPaths impl) path isDirectory) in
  let* entry := gets (λ s, FileIndex.getEntry path (_index s)) in
  match entry with
  | Some entry => ret entry
  | None =>
      let* id := fresh in
      let entry := newEntry id path isDirectory in
      modify (λ s, set_index (FileIndex.addEntry entry (_index s)) s) ;;
      ret entry
  end.

Definition getFileForPath (path : string) : M Entry := _getEntryForPath File path.

Definition getDirectoryForPath (path : string) : M Entry := _getEntryForPath Directory path.

(** *** resolve *)

(** The two calls in which [resolve] ends; each is given a callback that
    the collaborator applies later to an error or to a stat. *)
Inductive StatCall : Type :=
| ItemStat (item : Entry)     (* [item.stat(function (err, stat) {...})] *)
| ImplStat (path : string).   (* [this._impl.stat(path, function (err, stat) {...})] *)

(** What the callback of [resolve] is applied to: [callback(err)] or
    [callback(null, item, stat)]. *)
Inductive Resolved : Type :=
| ResolveError (err : option string)
| ResolvedAs (item : Entry) (stat : option Stats).

(** [resolve], up to the call of [item.stat] or of [impl.stat]. *)
Definition resolve (path : string) : M StatCall :=
  let* impl := gets _impl in
  let* normalizedPath :=
    liftResult (Path._normalizePath (normalizeUNCPaths impl) path false) in
  let* item := gets (λ s, FileIndex.getEntry normalizedPath (_index s)) in
  let* item :=
    match item with
    | Some item => ret (Some item)
    | None =>
        let normalizedPath := Path._appendTrailingSlash normalizedPath in
        gets (λ s, FileIndex.getEntry normalizedPath (_index s))
    end in
  match item with
  | Some item => ret (ItemStat item)
  | None => ret (ImplStat path)
  end.

(** The callback that [resolve] gives to [item.stat]. *)
Definition itemStatCb (item : Entry) (err : option string) (stat : option Stats)
  : M Resolved :=
  if truthyErr err then ret (ResolveError err) else ret (ResolvedAs item stat).

(** The callback that [resolve] gives to [impl.stat].  [stat] is what the
    backend passes as the stat; it is read only when [err] is falsy.
    [isWatched] is what [item._isWatched()] returns, a method of the entry
    that is not in the sources at hand. *)
Definition implStatCb (path : string) (isWatched : Entry → bool)
    (err : option string) (stat : Stats) : M Resolved :=
  if truthyErr err then ret (ResolveError err)
  else
    let* item :=
      if isFile_stat stat then getFileForPath path else getDirectoryForPath path in
    (if isWatched item then setStat item (Some stat) else ret tt) ;;
    ret (ResolvedAs item (Some stat)).

(** *** External changes *)

(** The part of [_handleDirectoryChange] that runs before
    [directory.getContents] calls back; the callback passed in by
    [_handleExternalChange] is determined by [stat]. *)
Definition _handleDirectoryChange (directory : Entry) (stat : option Stats) : M unit :=
  let* c := getCached directory in
  let oldContents := default [] (_contents c) in
  _clearCachedData directory ;;
  emit (GetContents directory) ;;
  suspend (ContentsCb directory oldContents stat).

(** [stat && entry._stat &&
     stat.mtime.getTime() === entry._stat.mtime.getTime()] *)
Definition sameMtime (stat entryStat : option Stats) : bool :=
  match stat, entryStat with
  | Some st, Some est => (mtime st =? mtime est)%Z
  | _, _ => false
  end.

Definition _handleExternalChange (path : option string) (stat : option Stats) : M unit :=
  if falsyPath path then
    (* This is a "wholesale" change event *)
    visitAll _clearCachedData ;;
    _fireChangeEvent None None None
  else
    let* impl := gets _impl in
    let* path := liftResult
        (Path._normalizePath (normalizeUNCPaths impl) (default EmptyString path) false) in
    let* entry := gets (λ s, FileIndex.getEntry path (_index s)) in
    match entry with
    | Some entry =>
        if isFile entry then
          (* Update stat and clear contents, but only if out of date *)
          let* c := getCached entry in
          if negb (sameMtime stat (_stat c)) then
            _clearCachedData entry ;;
            setStat entry stat ;;
            _fireChangeEvent (Some entry) None None
          else ret tt
        else _handleDirectoryChange entry stat
    | None => ret tt
    end.

Definition _triggerExternalChangesNow : M unit :=
  let* changes := gets _externalChanges in
  forEach changes (λ info,
    _handleExternalChange (change_path info) (change_stat info)) ;;
  modify (set_externalChanges []).

Definition _enqueueExternalChange (path : option string) (stat : option Stats) : M unit :=
  modify (λ s, set_externalChanges
     (_externalChanges s ++ [{| change_path := path; change_stat := stat |}]) s) ;;
  let* n := gets _activeChangeCount in
  if (n =? 0)%Z then _triggerExternalChangesNow else ret tt.

Definition _beginChange : M unit :=
  modify (λ s, set_activeChangeCount (_activeChangeCount s + 1)%Z s).

Definition _endChange : M unit :=
  modify (λ s, set_activeChangeCount (_activeChangeCount s - 1)%Z s) ;;
  let* n := gets _activeChangeCount in
  (if (n <? 0)%Z
   then emit (ConsoleError "FileSystem _activeChangeCount has fallen below zero!")
   else ret tt) ;;
  if (n =? 0)%Z then _triggerExternalChangesNow else ret tt.

(** *** watch, unwatch and _unwatchAll *)

Definition watch (entry : Entry) (filter : Filter)
    (callback : option ClientCallback) : M unit :=
  let rootPath := fullPath entry in
  let* id := fresh in
  let watchedRoot := {| rootId := id; root_entry := entry; root_filter := filter |} in
  let* watchingParentRoot := _findWatchedRootForPath rootPath in
  let* parentActive :=
    match watchingParentRoot with
    | Some root => isActive root
    | None => ret false
    end in
  if parentActive then
    callClient callback (Some "A parent of this root is already watched")
  else
    let* roots := gets _watchedRoots in
    let watchingChildRoot :=
      existsb (λ kv, Path.startsWith (fullPath (root_entry kv.2)) rootPath) roots in
    if watchingChildRoot && truthyFlag (booleanActive watchingChildRoot) then
      callClient callback (Some "A child of this root is already watched")
    else
      modify (λ s, set_watchedRoots (setRoot rootPath watchedRoot (_watchedRoots s)) s) ;;
      _watchEntry entry watchedRoot (WatchCb rootPath entry watchedRoot callback).

Definition unwatch (entry : Entry) (callback : option ClientCallback) : M unit :=
  let rootPath := fullPath entry in
  let* roots := gets _watchedRoots in
  match lookupRoot rootPath roots with
  | None => callClient callback (Some "Root is not watched.")
  | Some watchedRoot =>
      setActive watchedRoot false ;;
      _unwatchEntry entry watchedRoot (UnwatchCb rootPath entry callback)
  end.

Definition _unwatchAll : M unit :=
  emit (ConsoleWarn "File watchers went offline!" EmptyString) ;;
  let* roots := gets _watchedRoots in
  forEach roots (λ kv,
    let watchedRoot := kv.2 in
    setActive watchedRoot false ;;
    modify (λ s, set_watchedRoots (deleteRoot kv.1 (_watchedRoots s)) s) ;;
    _unwatchEntry (root_entry watchedRoot) watchedRoot (UnwatchAllCb watchedRoot)) ;;
  (* Fire a wholesale change event *)
  _handleExternalChange None None.


(** *** The collaborators call back *)

(** What a collaborator passes to a continuation: an error, and for
    [entry.visit] and [directory.getContents] the entries it presents. *)
Record Reply : Type := {
  reply_err : option string;
  reply_entries : list Entry
}.

(** The completion callback of [entry.visit(visitor, _)] in the
    non-recursive branch of [_watchOrUnwatchEntry].  [visited] are the
    entries that the traversal presented to [visitor]. *)
Definition visitCb (shouldWatch : bool) (watchedRoot : WatchedRoot)
    (request : WatchRequest) (err : option string) (visited : list Entry) : M unit :=
  let entriesToWatchOrUnwatch :=
    List.filter (λ child,
      root_filter watchedRoot (name child) (parentPath child)
      && (isDirectory child || sameEntry child (root_entry watchedRoot))) visited in
  if truthyErr err then requestCb request err
  else
    let count := List.length entriesToWatchOrUnwatch in
    if (count =? 0)%nat then requestCb request None
    else
      let* cell := newCounter count in
      forEach entriesToWatchOrUnwatch (λ entry,
        emit (implCommand shouldWatch (fullPath entry)) ;;
        suspend (CountdownCb cell request)).

(** [watchOrUnwatchCallback] of [_watchOrUnwatchEntry] *)
Definition countdownCb (count : nat) (request : WatchRequest) : M unit :=
  let* n := predecrement count in
  if (n =? 0)%Z then requestCb request None else ret tt.

(** The callback of [directory.getContents] in [_handleDirectoryChange],
    followed by the callback that [_handleExternalChange] passed in. *)
Definition contentsCb (directory : Entry) (oldContents : list Entry)
    (stat : option Stats) (contents : list Entry) : M unit :=
  setContents directory contents ;;
  let addedEntries :=
    List.filter (λ entry, negb (existsb (sameEntry entry) oldContents)) contents in
  let removedEntries :=
    List.filter (λ entry, negb (existsb (sameEntry entry) contents)) oldContents in
  let callback :=
    setStat directory stat ;;
    _fireChangeEvent (Some directory) (Some addedEntries) (Some removedEntries) in
  let* watchedRoot := _findWatchedRootForPath (fullPath directory) in
  let watched :=
    match watchedRoot with
    | Some root =>
        if root_filter root (name directory) (parentPath directory)
        then Some root else None
    | None => None
    end in
  match watched with
  | None =>
      forEach removedEntries (λ removed,
        visitAll (λ entry,
          if Path.startsWith (fullPath entry) (fullPath removed)
          then _clearCachedData entry else ret tt)) ;;
      callback
  | Some watchedRoot =>
      let counter := (List.length addedEntries + List.length removedEntries)%nat in
      if (counter =? 0)%nat then callback
      else
        let* cell := newDirectoryCounter counter in
        let watchOrUnwatchCallback :=
          DirectoryCountdownCb cell directory stat addedEntries removedEntries in
        forEach addedEntries (λ entry,
          _watchEntry entry watchedRoot watchOrUnwatchCallback) ;;
        forEach removedEntries (λ entry,
          _unwatchEntry entry watchedRoot watchOrUnwatchCallback)
  end.

Definition resume (k : Continuation) (reply : Reply) : M unit :=
  match k with
  | RequestCb request => requestCb request (reply_err reply)
  | VisitCb shouldWatch watchedRoot request =>
      visitCb shouldWatch watchedRoot request (reply_err reply) (reply_entries reply)
  | CountdownCb count request => countdownCb count request
  | ContentsCb directory oldContents stat =>
      contentsCb directory oldContents stat (reply_entries reply)
  end.

(** A collaborator calls the [i]-th continuation it holds, once. *)
Definition callBack (i : nat) (reply : Reply) : M unit :=
  let* ks := gets pending in
  match ks !! i with
  | Some k =>
      modify (set_pending (delete i ks)) ;;
      resume k reply
  | None => ret tt
  end.

(** ** Runs of the file system *)

(** What clients and the backend may do to the file system, one call at a
    time: the exported methods, the begin/end bracket used by entry
    operations, the two sinks registered by [init], and call-backs. *)
Inductive Action : Type :=
| DoGetFileForPath (path : string)
| DoGetDirectoryForPath (path : string)
| DoWatch (entry : Entry) (filter : Filter) (callback : option ClientCallback)
| DoUnwatch (entry : Entry) (callback : option ClientCallback)
| DoClose
| DoBeginChange
| DoEndChange
| DoExternalChange (path : option string) (stat : option Stats)
| DoOffline
| DoCallBack (i : nat) (reply : Reply).

Definition perform (a : Action) : M unit :=
  match a with
  | DoGetFileForPath path => getFileForPath path ;; ret tt
  | DoGetDirectoryForPath path => getDirectoryForPath path ;; ret tt
  | DoWatch entry filter callback => watch entry filter callback
  | DoUnwatch entry callback => unwatch entry callback
  | DoClose => close
  | DoBeginChange => _beginChange
  | DoEndChange => _endChange
  | DoExternalChange path stat => _enqueueExternalChange path stat
  | DoOffline => _unwatchAll
  | DoCallBack i reply => callBack i reply
  end.

(** The state after a call; an exception goes to the caller, the state stays. *)
Definition exec {A} (m : M A) (s : FileSystem) : FileSystem := (m s).1.

Definition run (actions : list Action) (s : FileSystem) : FileSystem :=
  foldl (λ s a, exec (perform a) s) s actions.

Definition reachable (s : FileSystem) : Prop :=
  ∃ impl actions, s = run actions (init impl).

End FS.

Import FS.
Local Open Scope list_scope.
Local Open Scope fs_scope.

(** * Vocabulary of the statements *)

Definition constructsDirectory (constructor : EntryConstructor) : bool :=
  match constructor with Directory => true | File => false end.

(** The state after [_getEntryForPath] created an entry for [path]. *)
Definition withNewEntry (path : string) (isDirectory : bool) (s : FileSystem) : FileSystem :=
  set_index (FileIndex.addEntry (newEntry (nextId s) path isDirectory) (_index s))
            (set_nextId (S (nextId s)) s).

(** Any number of [getFileForPath] and [getDirectoryForPath] calls, failed
    ones included. *)
Definition getMany (calls : list (EntryConstructor * string)) (s : FileSystem) : FileSystem :=
  foldl (λ s call, exec (_getEntryForPath call.1 call.2) s) s calls.

(** Steps 4 and 5 of normalization: the trailing slash of a directory and
    the slash restored in front of a UNC path; [original] is the path as
    given. *)
Definition finishPath (normalizeUNCPaths isDirectory : bool)
    (original path : string) : string :=
  let path := if isDirectory then Path._appendTrailingSlash path else path in
  if normalizeUNCPaths && Path.searchDuplicatedSlash0 original
  then ("/" ++ path)%string else path.

(** The events a call adds to the trace. *)
Definition newEvents {A} (m : M A) (s : FileSystem) : list Event :=
  drop (List.length (trace s)) (trace (exec m s)).

Definition ParentAlreadyWatched : string := "A parent of this root is already watched".

Definition ChildAlreadyWatched : string := "A child of this root is already watched".

(** [prefix] is a prefix of [path] and differs from it. *)
Definition strictPrefix (prefix path : string) : Prop :=
  Path.startsWith path prefix = true ∧ prefix ≠ path.

(** A watched root registered at [path] whose [active] flag is set. *)
Definition activeRootAt (s : FileSystem) (path : string) : Prop :=
  ∃ root, (path, root) ∈ _watchedRoots s ∧ rootId root ∈ activeRoots s.

(** A watched root registered at [path] whose [active] flag is not set. *)
Definition inactiveRootAt (s : FileSystem) (path : string) : Prop :=
  ∃ root, (path, root) ∈ _watchedRoots s ∧ rootId root ∉ activeRoots s.

(** [watch] calls the client back with the error [message]. *)
Definition watchFailsWith (message : string) (s : FileSystem) (entry : Entry)
    (filter : Filter) (c : ClientCallback) : Prop :=
  Called (cbTag c) (Some message) ∈ newEvents (watch entry filter (Some c)) s.

(** The request function that [_watchOrUnwatchEntry] builds for the root
    entry of [watchedRoot]. *)
Definition rootRequestFn (impl : Impl) (shouldWatch : bool) (watchedRoot : WatchedRoot)
  : RequestFn :=
  if recursiveWatch impl then ImplFn shouldWatch (root_entry watchedRoot)
  else VisitFn shouldWatch (root_entry watchedRoot) watchedRoot.

(** The backends, filters, callbacks and replies of the scenarios. *)
Definition recursiveImpl : Impl := {| recursiveWatch := true; normalizeUNCPaths := false |}.

Definition nonRecursiveImpl : Impl := {| recursiveWatch := false; normalizeUNCPaths := false |}.

Definition acceptAll : Filter := λ _ _, true.

Definition quiet (tag : nat) : ClientCallback := {| cbTag := tag; cbThrows := λ _, false |}.

Definition throwing (tag : nat) : ClientCallback := {| cbTag := tag; cbThrows := λ _, true |}.

Definition success : Reply := {| reply_err := None; reply_entries := [] |}.

Definition failure (err : string) : Reply := {| reply_err := Some err; reply_entries := [] |}.

Definition presenting (entries : list Entry) : Reply :=
  {| reply_err := None; reply_entries := entries |}.

(** The directory entry that [getDirectoryForPath "/proj"] creates first. *)
Definition projEntry : Entry := newEntry 0 "/proj/" true.

(** [watch("/proj")] on a fresh file system with a recursive-watch backend,
    and the backend reporting success. *)
Definition projWatched : FileSystem :=
  exec (let* e := getDirectoryForPath "/proj" in
        watch e acceptAll (Some (quiet 1)) ;;
        callBack 0 success) (init recursiveImpl).

(** The watched root that [_findWatchedRootForPath] returns. *)
Definition watchingParentRoot (s : FileSystem) (path : string) : option WatchedRoot :=
  snd <$> List.find (λ kv, Path.startsWith path kv.1) (_watchedRoots s).

(** The state after [_watchRequests.push(request)]. *)
Definition enqueued (request : WatchRequest) (s : FileSystem) : FileSystem :=
  set_trace (trace s ++ [Enqueued (rid request)])
    (set_watchRequests (_watchRequests s ++ [request])
       (set_nextId (S (nextId s)) s)).

(** What [request.fn] asks of its collaborator, and the continuation it
    leaves there. *)
Definition fnEvent (request : WatchRequest) : Event :=
  match fn request with
  | ImplFn shouldWatch entry => implCommand shouldWatch (fullPath entry)
  | VisitFn _ entry _ => Visit entry
  end.

Definition fnContinuation (request : WatchRequest) : Continuation :=
  match fn request with
  | ImplFn _ _ => RequestCb request
  | VisitFn shouldWatch _ watchedRoot => VisitCb shouldWatch watchedRoot request
  end.

(** The state after [request.fn] was called. *)
Definition started (request : WatchRequest) (s : FileSystem) : FileSystem :=
  set_pending (pending s ++ [fnContinuation request])
    (set_trace (trace s ++ [Started (rid request); fnEvent request]) s).

(** C6 as the specification states it: [watch] fails with
    [ParentAlreadyWatched] exactly when an active watched root has a path
    that is a strict prefix of the path of the entry. *)
Definition parentAlreadyWatched_iff_strict_prefix (s : FileSystem) (entry : Entry)
    (filter : Filter) (c : ClientCallback) : Prop :=
  watchFailsWith ParentAlreadyWatched s entry filter c
  ↔ ∃ path, activeRootAt s path ∧ strictPrefix path (fullPath entry).

(** The callback with which [unwatch] completes: the one of
    [_unwatchEntry] around the one of [unwatch]. *)
Definition unwatchDone (entry : Entry) (callback : option ClientCallback) : Callback :=
  UnwatchEntryCb entry (UnwatchCb (fullPath entry) entry callback).

(** The index after the visitor of [unwatch] has removed the entries below
    [prefix], and the cached data after the visitor of [_unwatchEntry] has
    cleared them. *)
Definition pruneIndex (prefix : string) (index : gmap string Entry) : gmap string Entry :=
  foldl (λ idx child,
           if Path.startsWith (fullPath child) prefix
           then FileIndex.removeEntry child idx else idx)
        index (FileIndex.entries index).

Definition clearCachedBelow (prefix : string) (index : gmap string Entry)
    (cache : gmap nat Cached) : gmap nat Cached :=
  foldl (λ cache child,
           if Path.startsWith (fullPath child) prefix
           then delete (eid child) cache else cache)
        cache (FileIndex.entries index).

(** [err] as the callback of [unwatch] passes it on: [err] if it is truthy,
    [null] otherwise. *)
Definition surfaced (err : option string) : option string :=
  if truthyErr err then err else None.

(** [watch("/proj")] on a fresh file system whose backend has no recursive
    watch: the traversal presents the root, and the backend reports success
    for the one [watchPath]. *)
Definition projWatchedNonRecursive : FileSystem :=
  exec (let* e := getDirectoryForPath "/proj" in
        watch e acceptAll (Some (quiet 1)) ;;
        callBack 0 (presenting [e]) ;;
        callBack 0 success) (init nonRecursiveImpl).

(** Then [unwatch("/proj")]: the traversal presents the root, and the
    backend answers the one [unwatchPath] with [reply]. *)
Definition projUnwatchedNonRecursive (reply : Reply) : FileSystem :=
  exec (unwatch projEntry (Some (quiet 2)) ;;
        callBack 0 (presenting [projEntry]) ;;
        callBack 0 reply) projWatchedNonRecursive.

(** C7 as the specification states it, in this scenario: when the backend
    fails to unwatch with [err], the callback of [unwatch] receives [err]. *)
Definition backendErrorPassedToCallback (err : string) : Prop :=
  Called 2 (Some err) ∈ trace (projUnwatchedNonRecursive (failure err)).

(** A computation relates every state to the state it leaves, normally or
    by an exception; and a computation that never throws. *)
Definition preserves {A} (R : FileSystem → FileSystem → Prop) (m : M A) : Prop :=
  ∀ s, R s (m s).1.

Definition neverThrows {A} (m : M A) : Prop :=
  ∀ s, ∃ a, (m s).2 = Ok a.

(** The queued external changes handled one after the other, in order. *)
Definition handleInOrder (changes : list ExternalChange) (s : FileSystem) : FileSystem :=
  foldl (λ s info,
           exec (_handleExternalChange (change_path info) (change_stat info)) s)
        s changes.

(** A change whose path is null or empty, or an absolute path in which
    every [".."] can be resolved. *)
Definition validChange (impl : Impl) (info : ExternalChange) : Prop :=
  falsyPath (change_path info) = true
  ∨ ∃ q, Path._normalizePath (normalizeUNCPaths impl)
           (default EmptyString (change_path info)) false = Ok q.

(** What external-change handling leaves alone. *)
Definition sameCoordinator (s s' : FileSystem) : Prop :=
  _impl s' = _impl s
  ∧ _externalChanges s' = _externalChanges s
  ∧ _activeChangeCount s' = _activeChangeCount s.

(** The scenario of C2 as the specification states it: between
    [beginChange] and [endChange] an external change for the indexed file
    fires nothing, and [endChange] fires exactly one change event. *)
Definition deferredChangeFiresOnce (s : FileSystem) (path : string)
    (stat : option Stats) (entry : Entry) : Prop :=
  let deferred := _beginChange ;; _enqueueExternalChange (Some path) stat in
  newEvents deferred s = []
  ∧ newEvents _endChange (exec deferred s) = [Change (Some entry) None None].

(** A file system that knows the file ["/p/f.txt"] and has seen one change
    of it, with modification time 5. *)
Definition fileEntry : Entry := newEntry 0 "/p/f.txt" false.

Definition statAt (t : Z) : Stats := {| isFile_stat := true; mtime := t |}.

Definition fileKnown : FileSystem :=
  exec (getFileForPath "/p/f.txt" ;;
        _enqueueExternalChange (Some "/p/f.txt") (Some (statAt 5)))
       (init recursiveImpl).

(** The cached stat of an entry, and the state after a change of a file
    entry was handled and found out of date: stat adopted, contents
    cleared, change event fired. *)
Definition cachedStat (s : FileSystem) (entry : Entry) : option Stats :=
  _stat (default noCache (cached s !! eid entry)).

Definition fileChanged (entry : Entry) (stat : option Stats) (s : FileSystem) : FileSystem :=
  set_trace (trace s ++ [Change (Some entry) None None])
    (set_cached (<[eid entry := {| _stat := stat; _contents := None |}]>
                   (delete (eid entry) (cached s))) s).

(** The request a continuation belongs to, if it belongs to one. *)
Definition contRequest (k : Continuation) : option WatchRequest :=
  match k with
  | RequestCb request => Some request
  | VisitCb _ _ request => Some request
  | CountdownCb _ request => Some request
  | ContentsCb _ _ _ => None
  end.

Definition isRequestCont (k : Continuation) : bool :=
  match contRequest k with Some _ => true | None => false end.

(** The continuations of watch requests that the collaborators hold. *)
Definition requestConts (s : FileSystem) : list Continuation :=
  List.filter isRequestCont (pending s).

(** The requests pushed, started and shifted so far, in order. *)
Definition enqueuedIds (events : list Event) : list nat :=
  omap (λ e, match e with Enqueued r => Some r | _ => None end) events.

Definition startedIds (events : list Event) : list nat :=
  omap (λ e, match e with Started r => Some r | _ => None end) events.

Definition shiftedIds (events : list Event) : list nat :=
  omap (λ e, match e with Shifted r => Some r | _ => None end) events.

(** A step that leaves the queue, the continuations of its requests, their
    counters and its history alone. *)
Definition sameQueue (s s' : FileSystem) : Prop :=
  _watchRequests s' = _watchRequests s
  ∧ requestConts s' = requestConts s
  ∧ counters s' = counters s
  ∧ enqueuedIds (trace s') = enqueuedIds (trace s)
  ∧ startedIds (trace s') = startedIds (trace s)
  ∧ shiftedIds (trace s') = shiftedIds (trace s).

(** Requests are shifted in the order they were pushed, the queue holds the
    rest, and the requests started are the shifted ones and the head. *)
Definition inOrder (s : FileSystem) : Prop :=
  enqueuedIds (trace s) = shiftedIds (trace s) ++ map rid (_watchRequests s)
  ∧ startedIds (trace s) = shiftedIds (trace s) ++ map rid (take 1 (_watchRequests s)).

(** How the collaborators hold the request in flight: by the one
    continuation given to [impl.watchPath] or to [entry.visit], or by as
    many countdown continuations as the shared counter says. *)
Definition heldAs (request : WatchRequest) (ks : list Continuation)
    (cells : gmap nat Z) : Prop :=
  ks = [RequestCb request]
  ∨ (∃ shouldWatch watchedRoot, ks = [VisitCb shouldWatch watchedRoot request])
  ∨ (∃ cell, ks ≠ []
        ∧ Forall (λ k, k = CountdownCb cell request) ks
        ∧ cells !! cell = Some (Z.of_nat (List.length ks))).

Definition queueInvariant (s : FileSystem) : Prop :=
  inOrder s
  ∧ match _watchRequests s with
    | [] => requestConts s = []
    | request :: _ => heldAs request (requestConts s) (counters s)
    end.

(** The head has been called back and is about to be shifted. *)
Definition calledBack (request : WatchRequest) (s : FileSystem) : Prop :=
  inOrder s
  ∧ head (_watchRequests s) = Some request
  ∧ requestConts s = [].

Definition invariantStep (s s' : FileSystem) : Prop :=
  queueInvariant s → queueInvariant s'.

(** The watch requests run one at a time, in the order of submission: a
    continuation held by a collaborator belongs to the head of the queue,
    the head of a non-empty queue is in flight, and the history of pushes,
    starts and shifts is that of a serial queue. *)
Definition serial (s : FileSystem) : Prop :=
  (∀ k request, k ∈ pending s → contRequest k = Some request →
                head (_watchRequests s) = Some request)
  ∧ (∀ request, head (_watchRequests s) = Some request →
                ∃ k, k ∈ pending s ∧ contRequest k = Some request)
  ∧ inOrder s.

(** Two roots submitted for watching and the first watch completed, with a
    client callback that throws. *)
Definition dirA : Entry := newEntry 0 "/a/" true.

Definition dirB : Entry := newEntry 1 "/b/" true.

Definition throwingRun : list Action :=
  [DoWatch dirA acceptAll (Some (throwing 1));
   DoWatch dirB acceptAll (Some (quiet 2));
   DoCallBack 0 success].

(** ** Normal forms of paths *)

(** The scan for [".."] with the segments already passed kept apart from
    the segments still to come. *)
Fixpoint scanFrom (path : string) (passed rest : list string) : Result (list string) :=
  match rest with
  | [] => Ok passed
  | seg :: rest' =>
      if String.eqb seg ".." then
        if (List.length passed <? 2)%nat then Throw (InvalidPath path)
        else scanFrom path (take (List.length passed - 1) passed) rest'
      else scanFrom path (passed ++ [seg]) rest'
  end.

(** A string without a slash, without two slashes in a row. *)
Fixpoint noSlash (s : string) : bool :=
  match s with
  | EmptyString => true
  | String c rest => negb (Ascii.eqb c "/") && noSlash rest
  end.

Fixpoint noDoubleSlash (s : string) : bool :=
  match s with
  | EmptyString => true
  | String c rest =>
      negb (Ascii.eqb c "/" && Path.isChar "/" (Path.charAt rest 0)) && noDoubleSlash rest
  end.

(** No segment strictly between the first and the last is empty. *)
Definition interiorNonEmpty (segments : list string) : Prop :=
  ∀ before seg after, segments = before ++ seg :: after →
    before ≠ [] → after ≠ [] → seg ≠ EmptyString.

(** The shape of a normalized path: no doubled slash, absolute, no [".."]
    after the first segment, and a final slash when it names a directory. *)
Definition canonical (isDirectory : bool) (path : string) : Prop :=
  noDoubleSlash path = true
  ∧ Path.isAbsolutePath path = true
  ∧ Forall (λ seg, seg ≠ "..") (tail (Path.split path))
  ∧ (isDirectory = true → Path.isChar "/" (Path.lastChar path) = true).

(** ** Invariants of the index *)

(** The index loses entries at most, and identities are not given twice. *)
Definition indexShrinks (s s' : FileSystem) : Prop :=
  (nextId s ≤ nextId s')%nat
  ∧ ∀ path e, _index s' !! path = Some e → _index s !! path = Some e.

(** Every entry of the index is kept under its own path and was created by
    this file system, and no object is kept under two paths. *)
Definition internInvariant (s : FileSystem) : Prop :=
  FileIndex.wf (_index s)
  ∧ (∀ path e, _index s !! path = Some e → (eid e < nextId s)%nat)
  ∧ (∀ p1 p2 e1 e2, _index s !! p1 = Some e1 → _index s !! p2 = Some e2 →
       eid e1 = eid e2 → p1 = p2).

(** ** External changes at the edges *)

(** The cached data of [visited] cleared, as the visitor of a wholesale
    change does. *)
Definition clearAll (visited : list Entry) (cache : gmap nat Cached) : gmap nat Cached :=
  foldl (λ cache entry, delete (eid entry) cache) cache visited.

(** A surplus [_endChange], a change arriving after it, and the
    [_beginChange] of the next operation. *)
Definition surplusEndChange (path : option string) (stat : option Stats) : M unit :=
  _endChange ;; _enqueueExternalChange path stat ;; _beginChange.

(** ** The life of a watched root *)

Definition RootNotWatched : string := "Root is not watched.".

(** The watched-root object that [watch] creates in state [s]. *)
Definition newRoot (s : FileSystem) (entry : Entry) (filter : Filter) : WatchedRoot :=
  {| rootId := nextId s; root_entry := entry; root_filter := filter |}.

(** No active watched root is found for [path], so that [watch] goes on. *)
Definition noActiveParent (s : FileSystem) (path : string) : Prop :=
  match watchingParentRoot s path with
  | Some root => rootId root ∉ activeRoots s
  | None => True
  end.

(** [watch], and the backend answering the one [watchPath] with [err]. *)
Definition watchAnswered (s : FileSystem) (entry : Entry) (filter : Filter)
    (c : ClientCallback) (err : option string) : M unit :=
  watch entry filter (Some c) ;;
  callBack (List.length (pending s)) {| reply_err := err; reply_entries := [] |}.
(** What [_unwatchAll] does for one watched root, and the registry and the
    active flags after it has done so for [roots]. *)
Definition unwatchAllStep (kv : string * WatchedRoot) : M unit :=
  let watchedRoot := kv.2 in
  setActive watchedRoot false ;;
  modify (λ s, set_watchedRoots (deleteRoot kv.1 (_watchedRoots s)) s) ;;
  _unwatchEntry (root_entry watchedRoot) watchedRoot (UnwatchAllCb watchedRoot).

Definition deleteRoots (roots from : list (string * WatchedRoot))
  : list (string * WatchedRoot) :=
  foldl (λ acc kv, deleteRoot kv.1 acc) from roots.

Definition deactivated (roots : list (string * WatchedRoot)) (active : gset nat) : gset nat :=
  foldl (λ acc kv, acc ∖ {[rootId kv.2]}) active roots.

(** ** Watching without recursive watch *)

(** The entries that the visitor of [_watchOrUnwatchEntry] collects: those
    that the filter of the root accepts and that are directories or the
    root entry itself. *)
Definition entriesToWatchOrUnwatch (watchedRoot : WatchedRoot) (visited : list Entry)
  : list Entry :=
  List.filter (λ child,
    root_filter watchedRoot (name child) (parentPath child)
    && (isDirectory child || sameEntry child (root_entry watchedRoot))) visited.

(** [watch], and the traversal of the root completing with [err] after it
    presented [visited] to the visitor. *)
Definition watchVisited (s : FileSystem) (entry : Entry) (filter : Filter)
    (c : ClientCallback) (err : option string) (visited : list Entry) : M unit :=
  watch entry filter (Some c) ;;
  callBack (List.length (pending s)) {| reply_err := err; reply_entries := visited |}.

(** The backend answering, one after the other, the calls whose
    continuations it holds from position [i] on. *)
Definition answerAll (i : nat) (replies : list Reply) : M unit :=
  forEach replies (callBack i).

(** The calls of [impl.watchPath] for [entries], in order. *)
Definition watchPaths (entries : list Entry) : list Event :=
  map (λ entry, WatchPath (fullPath entry)) entries.
(** The request that [watch] enqueues in state [s] under a backend without
    recursive watch, and the state in which the backend holds the calls of
    [impl.watchPath] for [todo]. *)
Definition visitRequest (s : FileSystem) (entry : Entry) (filter : Filter)
    (c : ClientCallback) : WatchRequest :=
  {| rid := S (nextId s);
     fn := VisitFn true entry (newRoot s entry filter);
     cb := WatchCb (fullPath entry) entry (newRoot s entry filter) (Some c) |}.

Definition watchPending (s : FileSystem) (entry : Entry) (filter : Filter)
    (c : ClientCallback) (todo : list Entry) : FileSystem :=
  let request := visitRequest s entry filter c in
  let cell := S (S (nextId s)) in
  set_pending (pending s ++ replicate (List.length todo) (CountdownCb cell request))
    (set_trace (trace s ++ [Enqueued (rid request); Started (rid request); Visit entry]
                        ++ watchPaths todo)
       (set_counters (<[cell := Z.of_nat (List.length todo)]> (counters s))
          (set_nextId (S (S (S (nextId s))))
             (set_watchRequests [request]
                (set_watchedRoots
                   (setRoot (fullPath entry) (newRoot s entry filter) (_watchedRoots s))
                   s))))).

(** ** Changes of directories *)

(** The two differences that [_handleDirectoryChange] computes, by the
    identity of the entries. *)
Definition addedEntries (oldContents contents : list Entry) : list Entry :=
  List.filter (λ entry, negb (existsb (sameEntry entry) oldContents)) contents.

Definition removedEntries (oldContents contents : list Entry) : list Entry :=
  List.filter (λ entry, negb (existsb (sameEntry entry) contents)) oldContents.

(** The watched root under which [_handleDirectoryChange] finds the
    directory: the root found for its path, if the filter of that root
    accepts the directory. *)
Definition watchedBy (s : FileSystem) (directory : Entry) : option WatchedRoot :=
  match watchingParentRoot s (fullPath directory) with
  | Some root =>
      if root_filter root (name directory) (parentPath directory) then Some root else None
  | None => None
  end.

(** The change event of a directory with its differences. *)
Definition directoryChanged (directory : Entry) (oldContents contents : list Entry) : Event :=
  Change (Some directory) (Some (addedEntries oldContents contents))
         (Some (removedEntries oldContents contents)).

(** Everything but the cached data of the entries, the counters of
    directory changes, the supply of identities and the trace is as it
    was: in particular the index, the registry and the queue of watch
    requests. *)
Definition sameButCaches (s s' : FileSystem) : Prop :=
  _impl s' = _impl s
  ∧ _index s' = _index s
  ∧ _watchedRoots s' = _watchedRoots s
  ∧ _watchRequests s' = _watchRequests s
  ∧ _externalChanges s' = _externalChanges s
  ∧ _activeChangeCount s' = _activeChangeCount s
  ∧ activeRoots s' = activeRoots s
  ∧ counters s' = counters s
  ∧ pending s' = pending s.

(** The cached data after the entries below each of [removed] were
    visited. *)
Definition clearedBelow (removed : list Entry) (index : gmap string Entry)
    (cache : gmap nat Cached) : gmap nat Cached :=
  foldl (λ cache entry, clearCachedBelow (fullPath entry) index cache) cache removed.

(** The cached data of [entry] with [stat] as its stat. *)
Definition withStat (entry : Entry) (stat : option Stats) (cache : gmap nat Cached)
  : gmap nat Cached :=
  <[eid entry := {| _stat := stat;
                    _contents := _contents (default noCache (cache !! eid entry)) |}]> cache.

Definition withContents (entry : Entry) (contents : list Entry) (cache : gmap nat Cached)
  : gmap nat Cached :=
  <[eid entry := {| _stat := _stat (default noCache (cache !! eid entry));
                    _contents := Some contents |}]> cache.
(** The listing that [_handleDirectoryChange] compares the new one with:
    [directory._contents || []]. *)
Definition cachedContents (s : FileSystem) (directory : Entry) : list Entry :=
  default [] (_contents (default noCache (cached s !! eid directory))).

(** A change of the path [p] is reported, and the directory delivers its
    listing. *)
Definition changeListed (s : FileSystem) (p : string) (stat : option Stats)
    (contents : list Entry) : M unit :=
  _handleExternalChange (Some p) stat ;;
  callBack (List.length (pending s)) (presenting contents).

(** ** resolve *)

(** The entry that [resolve] finds for a path with the file normal form
    [q]: the one under [q], or else the one under [q] with a final slash. *)
Definition resolveLookup (q : string) (index : gmap string Entry) : option Entry :=
  match index !! q with
  | Some item => Some item
  | None => index !! Path._appendTrailingSlash q
  end.

(** ** Watching and unwatching again *)

(** A root is watched, the backend reports success, the root is unwatched,
    and the backend answers with [err]. *)
Definition watchThenUnwatch (s : FileSystem) (entry : Entry) (filter : Filter)
    (c1 c2 : ClientCallback) (err : option string) : list Action :=
  [DoWatch entry filter (Some c1);
   DoCallBack (List.length (pending s)) success;
   DoUnwatch entry (Some c2);
   DoCallBack (List.length (pending s)) {| reply_err := err; reply_entries := [] |}].

(** A backend that asks for UNC paths to be kept. *)
Definition uncImpl : Impl := {| recursiveWatch := true; normalizeUNCPaths := true |}.

(** The requests that [_unwatchAll] enqueues for [roots], one for each
    root: the unwatch request of [_unwatchEntry] for the root's entry,
    completed by the callback of [_unwatchAll]; the first has the identity
    [id]. *)
Fixpoint unwatchAllRequests (impl : Impl) (id : nat) (roots : list (string * WatchedRoot))
  : list WatchRequest :=
  match roots with
  | [] => []
  | kv :: rest =>
      {| rid := id; fn := rootRequestFn impl false kv.2;
         cb := UnwatchEntryCb (root_entry kv.2) (UnwatchAllCb kv.2) |}
      :: unwatchAllRequests impl (S id) rest
  end.

(** The events of enqueueing [requests] behind [queue], and the
    continuations handed out: only on an empty queue is the first request
    started. *)
Definition enqueueEvents (queue requests : list WatchRequest) : list Event :=
  match queue, requests with
  | [], first :: rest =>
      [Enqueued (rid first); Started (rid first); fnEvent first]
      ++ map (λ r, Enqueued (rid r)) rest
  | _, _ => map (λ r, Enqueued (rid r)) requests
  end.

Definition startedContinuations (queue requests : list WatchRequest) : list Continuation :=
  match queue, requests with
  | [], first :: _ => [fnContinuation first]
  | _, _ => []
  end.

(** ["/"] and ["/proj/"] watched one after the other, both with success,
    then [unwatch("/")] called and its request still with the backend, and
    a handle obtained for ["/proj/sub"]. *)
Definition rootBeingUnwatched : FileSystem :=
  exec (let* r := getDirectoryForPath "/" in
        watch r acceptAll (Some (quiet 1)) ;;
        let* e := getDirectoryForPath "/proj" in
        watch e acceptAll (Some (quiet 2)) ;;
        callBack 0 success ;;
        callBack 0 success ;;
        unwatch r (Some (quiet 3)) ;;
        let* sub := getDirectoryForPath "/proj/sub" in
        ret tt) (init recursiveImpl).

(** * Properties *)

(** ** Unfolding the monad *)

Ltac monad_unfold :=
  unfold exec, bind, ret, gets, modify, throw, liftResult, emit, fresh,
    suspend, tryFinally in *.

Lemma bind_Ok {A B} (m : M A) (k : A → M B) s s' a :
  m s = (s', Ok a) → bind m k s = k a s'.
Proof. intros H. unfold bind. by rewrite H. Qed.

Lemma bind_Throw {A B} (m : M A) (k : A → M B) s s' e :
  m s = (s', Throw e) → bind m k s = (s', Throw e).
Proof. intros H. unfold bind. by rewrite H. Qed.

(** ** Relations kept by every step of a computation *)

Section Preserves.

Context (R : FileSystem → FileSystem → Prop) `{!PreOrder R}.

Lemma preserves_ret {A} (a : A) : preserves R (ret a).
Proof. intros s. simpl. reflexivity. Qed.

Lemma preserves_gets {A} (f : FileSystem → A) : preserves R (gets f).
Proof. intros s. simpl. reflexivity. Qed.

Lemma preserves_throw {A} e : preserves R (@throw A e).
Proof. intros s. simpl. reflexivity. Qed.

Lemma preserves_liftResult {A} (r : Result A) : preserves R (liftResult r).
Proof. intros s. simpl. reflexivity. Qed.

Lemma preserves_modify f : (∀ s, R s (f s)) → preserves R (modify f).
Proof. intros H s. simpl. apply H. Qed.

Lemma preserves_bind {A B} (m : M A) (k : A → M B) :
  preserves R m → (∀ a, preserves R (k a)) → preserves R (bind m k).
Proof.
  intros Hm Hk s. unfold bind. specialize (Hm s).
  destruct (m s) as [s' [a|e]]; simpl in *; [|exact Hm].
  etransitivity; [exact Hm|apply Hk].
Qed.

Lemma preserves_tryFinally {A} (body : M A) handler :
  preserves R body → preserves R handler → preserves R (tryFinally body handler).
Proof.
  intros Hb Hh s. unfold tryFinally. specialize (Hb s).
  destruct (body s) as [s1 r]. specialize (Hh s1).
  destruct (handler s1) as [s2 [[]|e]]; simpl in *; etransitivity; eauto.
Qed.

Lemma preserves_forEach {A} (l : list A) (f : A → M unit) :
  (∀ x, preserves R (f x)) → preserves R (forEach l f).
Proof.
  intros Hf. induction l as [|x l IH]; simpl.
  - apply preserves_ret.
  - apply preserves_bind; [apply Hf|intros _; exact IH].
Qed.

End Preserves.

Section NeverThrows.

Lemma neverThrows_ret {A} (a : A) : neverThrows (ret a).
Proof. intros s. by exists a. Qed.

Lemma neverThrows_gets {A} (f : FileSystem → A) : neverThrows (gets f).
Proof. intros s. by eexists. Qed.

Lemma neverThrows_modify f : neverThrows (modify f).
Proof. intros s. by exists tt. Qed.

Lemma neverThrows_bind {A B} (m : M A) (k : A → M B) :
  neverThrows m → (∀ a, neverThrows (k a)) → neverThrows (bind m k).
Proof.
  intros Hm Hk s. unfold bind. destruct (Hm s) as [a Ha].
  destruct (m s) as [s' r]. simpl in Ha. subst r. apply Hk.
Qed.

Lemma neverThrows_forEach {A} (l : list A) (f : A → M unit) :
  (∀ x, neverThrows (f x)) → neverThrows (forEach l f).
Proof.
  intros Hf. induction l as [|x l IH]; simpl.
  - apply neverThrows_ret.
  - apply neverThrows_bind; [apply Hf|intros _; exact IH].
Qed.

Lemma neverThrows_unit (m : M unit) s : neverThrows m → m s = (exec m s, Ok tt).
Proof.
  intros H. destruct (H s) as [[] Ha]. unfold exec.
  destruct (m s) as [s' r]. simpl in *. by subst.
Qed.

End NeverThrows.

(** One step of a proof that a computation keeps a relation or never
    throws: through the monad, and by cases on what it branches on. *)
Ltac monad_step :=
  lazymatch goal with
  | |- preserves ?R (bind _ _) => apply (@preserves_bind R _); [|intros ?]
  | |- preserves ?R (ret _) => apply (@preserves_ret R _)
  | |- preserves ?R (gets _) => apply (@preserves_gets R _)
  | |- preserves ?R (throw _) => apply (@preserves_throw R _)
  | |- preserves ?R (liftResult _) => apply (@preserves_liftResult R _)
  | |- preserves ?R (forEach _ _) => apply (@preserves_forEach R _); intros ?
  | |- preserves ?R (tryFinally _ _) => apply (@preserves_tryFinally R _)
  | |- preserves _ (modify _) => apply preserves_modify; intros ?
  | |- preserves _ (if ?b then _ else _) => destruct b
  | |- preserves _ (match ?x with _ => _ end) => destruct x
  | |- neverThrows (bind _ _) => apply neverThrows_bind; [|intros ?]
  | |- neverThrows (ret _) => apply neverThrows_ret
  | |- neverThrows (gets _) => apply neverThrows_gets
  | |- neverThrows (modify _) => apply neverThrows_modify
  | |- neverThrows (forEach _ _) => apply neverThrows_forEach; intros ?
  | |- neverThrows (if ?b then _ else _) => destruct b
  | |- neverThrows (match ?x with _ => _ end) => destruct x
  end.

(** ** close *)

Section Close.

(** C10. [close()] calls the backend's [unwatchAll] and empties the index;
    the watched roots with their [active] flags, the queue of watch
    requests, the queued external changes, the change count and everything
    else in the state are as before. *)
Theorem close_only_clears_index (s : FileSystem) :
  let s' := exec close s in
  close s = (s', Ok tt)
  ∧ trace s' = trace s ++ [UnwatchAll]
  ∧ _index s' = ∅
  ∧ _watchedRoots s' = _watchedRoots s
  ∧ activeRoots s' = activeRoots s
  ∧ _watchRequests s' = _watchRequests s
  ∧ _externalChanges s' = _externalChanges s
  ∧ _activeChangeCount s' = _activeChangeCount s
  ∧ _impl s' = _impl s
  ∧ cached s' = cached s
  ∧ counters s' = counters s
  ∧ directoryCounters s' = directoryCounters s
  ∧ nextId s' = nextId s
  ∧ pending s' = pending s
  ∧ (∀ path root, lookupRoot path (_watchedRoots s) = Some root →
       lookupRoot path (_watchedRoots s') = Some root
       ∧ isActive root s' = (s', Ok (bool_decide (rootId root ∈ activeRoots s)))).
Proof.
  cbv zeta. repeat split; try reflexivity; assumption.
Qed.

(** After [watch("/proj")] has succeeded, [close()] leaves the root
    registered and active. *)
Lemma close_only_clears_index_witness :
  lookupRoot "/proj/" (_watchedRoots (exec close projWatched))
  = Some {| rootId := 1; root_entry := projEntry; root_filter := acceptAll |}
  ∧ 1 ∈ activeRoots (exec close projWatched)
  ∧ _index projWatched !! "/proj/" = Some projEntry
  ∧ _index (exec close projWatched) = ∅.
Proof.
  destruct (close_only_clears_index projWatched)
    as (_ & _ & Hi & _ & Ha & _ & _ & _ & _ & _ & _ & _ & _ & _ & Hr).
  destruct (Hr "/proj/"%string
              {| rootId := 1; root_entry := projEntry; root_filter := acceptAll |})
    as [Hl _]; [vm_compute; reflexivity|].
  split; [exact Hl|]. split; [|split; [vm_compute; reflexivity|exact Hi]].
  rewrite Ha. vm_compute. reflexivity.
Defined.

End Close.

(** ** Interning of entries *)

Section Interning.

Lemma getEntryForPath_found constructor path q e s :
  Path._normalizePath (normalizeUNCPaths (_impl s)) path
    (constructsDirectory constructor) = Ok q →
  _index s !! q = Some e →
  _getEntryForPath constructor path s = (s, Ok e).
Proof.
  intros Hn Hq. unfold _getEntryForPath. monad_unfold.
  destruct constructor; simpl in Hn |- *; rewrite Hn; simpl;
    unfold FileIndex.getEntry; rewrite Hq; reflexivity.
Qed.

Lemma getEntryForPath_new constructor path q s :
  Path._normalizePath (normalizeUNCPaths (_impl s)) path
    (constructsDirectory constructor) = Ok q →
  _index s !! q = None →
  _getEntryForPath constructor path s =
    (withNewEntry q (constructsDirectory constructor) s,
     Ok (newEntry (nextId s) q (constructsDirectory constructor))).
Proof.
  intros Hn Hq. unfold _getEntryForPath. monad_unfold.
  destruct constructor; simpl in Hn |- *; rewrite Hn; simpl;
    unfold FileIndex.getEntry; rewrite Hq; reflexivity.
Qed.

Lemma getEntryForPath_throws constructor path err s :
  Path._normalizePath (normalizeUNCPaths (_impl s)) path
    (constructsDirectory constructor) = Throw err →
  _getEntryForPath constructor path s = (s, Throw err).
Proof.
  intros Hn. unfold _getEntryForPath. monad_unfold.
  destruct constructor; simpl in Hn |- *; rewrite Hn; reflexivity.
Qed.

(** [_getEntryForPath] never changes the backend, and never removes or
    replaces an entry of the index. *)
Lemma getEntryForPath_keeps constructor path s :
  let s' := exec (_getEntryForPath constructor path) s in
  _impl s' = _impl s
  ∧ (∀ q e, _index s !! q = Some e → _index s' !! q = Some e)
  ∧ (FileIndex.wf (_index s) → FileIndex.wf (_index s')).
Proof.
  cbv zeta.
  destruct (Path._normalizePath (normalizeUNCPaths (_impl s)) path
              (constructsDirectory constructor)) as [q|err] eqn:Hn.
  - destruct (_index s !! q) as [e|] eqn:Hq.
    + unfold exec. rewrite (getEntryForPath_found _ _ _ _ _ Hn Hq). done.
    + unfold exec. rewrite (getEntryForPath_new _ _ _ _ Hn Hq). simpl.
      split; [done|]. split.
      * intros q' e' H. unfold FileIndex.addEntry. simpl.
        rewrite lookup_insert_ne; [done|]. congruence.
      * intros Hwf q' e'. unfold FileIndex.addEntry. simpl.
        destruct (decide (q = q')) as [->|Hne].
        -- rewrite lookup_insert_eq. by intros [= <-].
        -- rewrite lookup_insert_ne by done. apply Hwf.
  - unfold exec. rewrite (getEntryForPath_throws _ _ _ _ Hn). done.
Qed.

Lemma getMany_keeps calls s :
  _impl (getMany calls s) = _impl s
  ∧ (∀ q e, _index s !! q = Some e → _index (getMany calls s) !! q = Some e)
  ∧ (FileIndex.wf (_index s) → FileIndex.wf (_index (getMany calls s))).
Proof.
  revert s. induction calls as [|[c p] calls IH]; intros s; [done|].
  simpl. destruct (IH (exec (_getEntryForPath c p) s)) as (Hi & Hk & Hw).
  destruct (getEntryForPath_keeps c p s) as (Hi' & Hk' & Hw').
  unfold getMany in *. simpl in *. split; [congruence|]. split.
  - intros q e H. apply Hk, Hk', H.
  - intros H. apply Hw, Hw', H.
Qed.

(** C3. Two paths with the same normal form get the same handle from
    [getFileForPath], and likewise from [getDirectoryForPath], also when
    other entries are requested in between; the handle is interned at the
    normal form. *)
Theorem same_normal_form_same_handle (constructor : EntryConstructor)
    (between : list (EntryConstructor * string)) (p1 p2 q : string) (s : FileSystem) :
  Path._normalizePath (normalizeUNCPaths (_impl s)) p1
    (constructsDirectory constructor) = Ok q →
  Path._normalizePath (normalizeUNCPaths (_impl s)) p2
    (constructsDirectory constructor) = Ok q →
  ∃ e s1 s2,
    _getEntryForPath constructor p1 s = (s1, Ok e)
    ∧ _getEntryForPath constructor p2 (getMany between s1) = (s2, Ok e)
    ∧ _index s2 !! q = Some e
    ∧ (FileIndex.wf (_index s) → fullPath e = q).
Proof.
  intros H1 H2.
  assert (∃ e s1, _getEntryForPath constructor p1 s = (s1, Ok e)
                  ∧ _impl s1 = _impl s ∧ _index s1 !! q = Some e
                  ∧ (FileIndex.wf (_index s) → fullPath e = q))
    as (e & s1 & Hget & Himpl & Hidx & Hfull).
  { destruct (_index s !! q) as [e|] eqn:Hq.
    - exists e, s. rewrite (getEntryForPath_found _ _ _ _ _ H1 Hq).
      repeat split; try done. intros Hwf. by apply Hwf.
    - eexists _, _. rewrite (getEntryForPath_new _ _ _ _ H1 Hq).
      repeat split; try done. simpl. unfold FileIndex.addEntry. simpl.
      apply lookup_insert_eq. }
  destruct (getMany_keeps between s1) as (Hi & Hk & _).
  exists e, s1, (getMany between s1). split; [done|].
  assert (_index (getMany between s1) !! q = Some e) as Hq' by by apply Hk.
  split; [|done].
  apply getEntryForPath_found with (q := q); [|done].
  rewrite Hi, Himpl. done.
Qed.

(** The dedup scenario of the specification. *)
Lemma same_normal_form_same_handle_witness :
  ∃ e s1 s2,
    getFileForPath "/a//b/../b/c.txt"
      (init {| recursiveWatch := true; normalizeUNCPaths := false |}) = (s1, Ok e)
    ∧ getFileForPath "/a/b/c.txt" (getMany [(Directory, "/a/b")] s1) = (s2, Ok e)
    ∧ _index s2 !! "/a/b/c.txt" = Some e
    ∧ fullPath e = "/a/b/c.txt".
Proof.
  destruct (same_normal_form_same_handle File [(Directory, "/a/b")]
              "/a//b/../b/c.txt" "/a/b/c.txt" "/a/b/c.txt"
              (init {| recursiveWatch := true; normalizeUNCPaths := false |}))
    as (e & s1 & s2 & H1 & H2 & H3 & H4).
  - vm_compute. reflexivity.
  - vm_compute. reflexivity.
  - exists e, s1, s2. repeat split; try assumption.
    apply H4. intros p x Hx. simpl in Hx. rewrite lookup_empty in Hx. discriminate.
Defined.

(** C9. Both normalizations of the root path are the root path itself, so a
    file handle and a directory handle for it are one object, of the kind
    that was asked for first. *)
Theorem root_path_one_entry (s : FileSystem) :
  Path._normalizePath (normalizeUNCPaths (_impl s)) "/" false = Ok "/"
  ∧ Path._normalizePath (normalizeUNCPaths (_impl s)) "/" true = Ok "/"
  ∧ Path._appendTrailingSlash "/" = "/"
  ∧ (∃ e s1,
       getFileForPath "/" s = (s1, Ok e)
       ∧ getDirectoryForPath "/" s1 = (s1, Ok e)
       ∧ _index s1 !! "/" = Some e
       ∧ (_index s !! "/" = None → isDirectory e = false))
  ∧ (∃ e s1,
       getDirectoryForPath "/" s = (s1, Ok e)
       ∧ getFileForPath "/" s1 = (s1, Ok e)
       ∧ _index s1 !! "/" = Some e
       ∧ (_index s !! "/" = None → isDirectory e = true)).
Proof.
  assert (Hf : ∀ u, Path._normalizePath u "/" false = Ok "/")
    by (intros []; vm_compute; reflexivity).
  assert (Hd : ∀ u, Path._normalizePath u "/" true = Ok "/")
    by (intros []; vm_compute; reflexivity).
  split; [apply Hf|]. split; [apply Hd|]. split; [reflexivity|].
  unfold getFileForPath, getDirectoryForPath.
  destruct (_index s !! "/") as [e|] eqn:Hq.
  - split; exists e, s.
    + rewrite (getEntryForPath_found File "/" "/" e s (Hf _) Hq).
      rewrite (getEntryForPath_found Directory "/" "/" e s (Hd _) Hq).
      repeat split; try done.
    + rewrite (getEntryForPath_found File "/" "/" e s (Hf _) Hq).
      rewrite (getEntryForPath_found Directory "/" "/" e s (Hd _) Hq).
      repeat split; try done.
  - split.
    + eexists _, _. rewrite (getEntryForPath_new File "/" "/" s (Hf _) Hq).
      split; [reflexivity|].
      assert (_index (withNewEntry "/" false s) !! "/"
              = Some (newEntry (nextId s) "/" false)) as Hq'
        by (simpl; apply lookup_insert_eq).
      split; [|split; [exact Hq'|reflexivity]].
      apply getEntryForPath_found with (q := "/"); [apply Hd|exact Hq'].
    + eexists _, _. rewrite (getEntryForPath_new Directory "/" "/" s (Hd _) Hq).
      split; [reflexivity|].
      assert (_index (withNewEntry "/" true s) !! "/"
              = Some (newEntry (nextId s) "/" true)) as Hq'
        by (simpl; apply lookup_insert_eq).
      split; [|split; [exact Hq'|reflexivity]].
      apply getEntryForPath_found with (q := "/"); [apply Hf|exact Hq'].
Qed.

(** On a fresh file system the root entry is a file if it is first asked
    for as a file, a directory if first asked for as a directory. *)
Lemma root_path_one_entry_witness :
  (∃ e s1, getFileForPath "/" (init recursiveImpl) = (s1, Ok e)
           ∧ getDirectoryForPath "/" s1 = (s1, Ok e) ∧ isDirectory e = false)
  ∧ (∃ e s1, getDirectoryForPath "/" (init recursiveImpl) = (s1, Ok e)
             ∧ getFileForPath "/" s1 = (s1, Ok e) ∧ isDirectory e = true).
Proof.
  destruct (root_path_one_entry (init recursiveImpl))
    as (_ & _ & _ & (e & s1 & H1 & H2 & _ & H3) & (e' & s1' & H1' & H2' & _ & H3')).
  split.
  - exists e, s1. split; [exact H1|]. split; [exact H2|]. apply H3. reflexivity.
  - exists e', s1'. split; [exact H1'|]. split; [exact H2'|]. apply H3'. reflexivity.
Defined.

End Interning.

(** ** Path normalization *)

Section Normalization.

Import Path.

Lemma removeDotDot_step path i segments :
  removeDotDot path i segments =
  match segments !! i with
  | None => Ok segments
  | Some seg =>
      if String.eqb seg ".." then
        if (i <? 2)%nat then Throw (InvalidPath path)
        else removeDotDot path (i - 2 + 1) (splice2 (i - 1) segments)
      else removeDotDot path (i + 1) segments
  end.
Proof.
  funelim (removeDotDot path i segments); clear Heqcall;
    repeat match goal with
           | H : {| pr1 := _; pr2 := _ |} = _ |- _ => clear H
           | H : _ → _ |- _ => clear H
           end;
    repeat match goal with
           | E : ?x = _ |- context [?x] => rewrite E; clear E
           end; reflexivity.
Qed.

Lemma normalizePath_unfold u path d :
  isAbsolutePath path = true →
  _normalizePath u path d =
    match indexOf (replaceDuplicatedSlash path) ".." with
    | Some _ =>
        match removeDotDot (replaceDuplicatedSlash path) 1
                (split (replaceDuplicatedSlash path)) with
        | Ok segments => Ok (finishPath u d path (join segments))
        | Throw e => Throw e
        end
    | None => Ok (finishPath u d path (replaceDuplicatedSlash path))
    end.
Proof.
  intros Habs. unfold _normalizePath, finishPath. rewrite Habs. simpl.
  destruct (indexOf _ _); [|reflexivity].
  destruct (removeDotDot _ _ _); reflexivity.
Qed.

(** C5. The scan for [".."]: past the end it returns the segments; a
    segment other than [".."] is stepped over; [".."] at an index below 2
    throws; [".."] at index [i >= 2] removes segments [i-1] and [i] and
    resumes at [i-1], the index rewound by 2 and advanced by the loop.
    Normalizing an absolute path that contains [".."] is this scan from
    index 1 over the split path. *)
Theorem dotdot_scan (u d : bool) (path : string) (i : nat) (segments : list string) :
  (segments !! i = None → removeDotDot path i segments = Ok segments)
  ∧ (∀ seg, segments !! i = Some seg → seg ≠ ".." →
       removeDotDot path i segments = removeDotDot path (i + 1) segments)
  ∧ (segments !! i = Some ".." → (i < 2)%nat →
       removeDotDot path i segments = Throw (InvalidPath path))
  ∧ (segments !! i = Some ".." → (2 ≤ i)%nat →
       removeDotDot path i segments
       = removeDotDot path (i - 2 + 1) (take (i - 1) segments ++ drop (i + 1) segments))
  ∧ (isAbsolutePath path = true →
     indexOf (replaceDuplicatedSlash path) ".." ≠ None →
       _normalizePath u path d =
         match removeDotDot (replaceDuplicatedSlash path) 1
                 (split (replaceDuplicatedSlash path)) with
         | Ok segments' => Ok (finishPath u d path (join segments'))
         | Throw e => Throw e
         end
       ∧ (split (replaceDuplicatedSlash path) !! 1 = Some ".." →
          _normalizePath u path d = Throw (InvalidPath (replaceDuplicatedSlash path))))
  ∧ (∀ s, getFileForPath "/../a" s = (s, Throw (InvalidPath "/../a")))
  ∧ _normalizePath u "/a/b/../c" false = Ok "/a/c".
Proof.
  split; [|split; [|split; [|split; [|split; [|split]]]]].
  - intros H. rewrite removeDotDot_step, H. reflexivity.
  - intros seg H Hne. rewrite removeDotDot_step, H.
    destruct (String.eqb_spec seg ".."); [contradiction|reflexivity].
  - intros H Hi. rewrite removeDotDot_step, H. simpl.
    destruct (Nat.ltb_spec i 2); [reflexivity|lia].
  - intros H Hi. rewrite removeDotDot_step, H. simpl.
    destruct (Nat.ltb_spec i 2); [lia|].
    unfold splice2. replace (i - 1 + 2) with (i + 1) by lia. reflexivity.
  - intros Habs Hdd. rewrite (normalizePath_unfold _ _ _ Habs).
    destruct (indexOf (replaceDuplicatedSlash path) "..") as [n|]; [|done].
    split; [reflexivity|].
    intros H1. rewrite removeDotDot_step, H1. reflexivity.
  - intros s. unfold getFileForPath.
    apply getEntryForPath_throws. destruct (normalizeUNCPaths (_impl s)); vm_compute; reflexivity.
  - destruct u; vm_compute; reflexivity.
Qed.

Lemma dotdot_scan_witness :
  removeDotDot "/a/b/../c" 3 [""; "a"; "b"; ".."; "c"]
  = removeDotDot "/a/b/../c" 2 [""; "a"; "c"]
  ∧ removeDotDot "/a/b/../c" 2 [""; "a"; "c"] = removeDotDot "/a/b/../c" 3 [""; "a"; "c"]
  ∧ removeDotDot "/a/b/../c" 3 [""; "a"; "c"] = Ok [""; "a"; "c"]
  ∧ removeDotDot "/../a" 1 [""; ".."; "a"] = Throw (InvalidPath "/../a")
  ∧ _normalizePath false "//a/../../x" true = Throw (InvalidPath "/a/../../x").
Proof.
  split; [|split; [|split; [|split]]].
  - apply (dotdot_scan false false "/a/b/../c" 3 [""; "a"; "b"; ".."; "c"]);
      [reflexivity | lia].
  - apply (dotdot_scan false false "/a/b/../c" 2 [""; "a"; "c"]) with (seg := "c");
      [reflexivity | discriminate].
  - apply (dotdot_scan false false "/a/b/../c" 3 [""; "a"; "c"]); reflexivity.
  - apply (dotdot_scan false false "/../a" 1 [""; ".."; "a"]); [reflexivity | lia].
  - destruct (dotdot_scan false true "//a/../../x" 0 []) as (_ & _ & _ & _ & H & _).
    destruct H as [H _]; [reflexivity | discriminate |].
    rewrite H. vm_compute. reflexivity.
Defined.

(** C4, at the input where it fails: resolving [".."] up to the root
    leaves the single segment [""] and a file path normalizes to the empty
    string, which is not absolute and cannot be normalized again; asked for
    as a directory the same path normalizes to ["/"]. *)
Theorem normalize_root_dotdot_not_idempotent (u : bool) :
  Path._normalizePath u "/a/.." false = Ok ""
  ∧ Path._normalizePath u "" false = Throw (AbsolutePathRequired "")
  ∧ Path._normalizePath u "/a/.." true = Ok "/"
  ∧ Path._normalizePath u "/" true = Ok "/".
Proof. destruct u; vm_compute; repeat split; reflexivity. Qed.

End Normalization.

(** ** Normal forms are fixed points of normalization *)

Section NormalForms.

Import Path.

Lemma removeDotDot_scanFrom path passed rest :
  removeDotDot path (List.length passed) (passed ++ rest) = scanFrom path passed rest.
Proof.
  revert passed. induction rest as [|seg rest IH]; intros passed.
  - rewrite removeDotDot_step, app_nil_r.
    rewrite lookup_ge_None_2 by (simpl; lia). reflexivity.
  - rewrite removeDotDot_step. rewrite list_lookup_middle by reflexivity. simpl.
    destruct (String.eqb_spec seg "..") as [->|Hne].
    + destruct (Nat.ltb_spec (List.length passed) 2) as [|Hlen]; [reflexivity|].
      rewrite <- IH. f_equal.
      * rewrite length_take. lia.
      * unfold splice2.
        rewrite take_app_le by lia. rewrite drop_app_ge by lia.
        replace (List.length passed - 1 + 2 - List.length passed) with 1 by lia.
        reflexivity.
    + rewrite <- IH. rewrite length_app. simpl. rewrite <- app_assoc. reflexivity.
Qed.

Lemma scanFrom_spec path passed rest out :
  scanFrom path passed rest = Ok out →
  passed ≠ [] →
  Forall (λ seg, seg ≠ "..") (tail passed) →
  out `sublist_of` (passed ++ rest)
  ∧ head out = head passed
  ∧ Forall (λ seg, seg ≠ "..") (tail out)
  ∧ out ≠ [].
Proof.
  revert passed. induction rest as [|seg rest IH]; intros passed Hs Hne Hall; simpl in Hs.
  - injection Hs as <-. rewrite app_nil_r. done.
  - destruct (String.eqb_spec seg "..") as [->|Hseg].
    + destruct (Nat.ltb_spec (List.length passed) 2) as [|Hlen]; [discriminate|].
      destruct passed as [|h [|x t]]; simpl in Hlen; try lia.
      replace (take (List.length (h :: x :: t) - 1) (h :: x :: t))
        with (h :: take (List.length t) (x :: t)) in Hs
        by reflexivity.
      apply IH in Hs as (H1 & H2 & H3 & H4).
      * split; [|done].
        etransitivity; [exact H1|]. simpl. apply sublist_skip.
        change (x :: t ++ ".." :: rest) with ((x :: t) ++ ".." :: rest).
        apply sublist_app; [apply sublist_take|]. by apply sublist_cons.
      * done.
      * simpl in Hall |- *. by apply Forall_take.
    + apply IH in Hs as (H1 & H2 & H3 & H4).
      * rewrite <- app_assoc in H1. split; [exact H1|].
        split; [|done]. rewrite H2. by destruct passed.
      * by destruct passed.
      * destruct passed as [|h t]; [done|]. simpl in Hall |- *.
        apply Forall_app. split; [exact Hall|]. by apply Forall_singleton.
Qed.

Lemma scanFrom_stable path passed rest :
  Forall (λ seg, seg ≠ "..") rest → scanFrom path passed rest = Ok (passed ++ rest).
Proof.
  revert passed. induction rest as [|seg rest IH]; intros passed Hall; simpl.
  - by rewrite app_nil_r.
  - apply Forall_cons in Hall as [Hseg Hall].
    destruct (String.eqb_spec seg ".."); [contradiction|].
    rewrite IH by exact Hall. by rewrite <- app_assoc.
Qed.

(** A list of segments without [".."] after the first is left as it is. *)
Lemma removeDotDot_stable path segments :
  segments ≠ [] →
  Forall (λ seg, seg ≠ "..") (tail segments) →
  removeDotDot path 1 segments = Ok segments.
Proof.
  destruct segments as [|h t]; [done|]. intros _ Hall.
  change (removeDotDot path (List.length [h]) ([h] ++ t) = Ok ([h] ++ t)).
  rewrite removeDotDot_scanFrom. by apply scanFrom_stable.
Qed.

(** *** Strings and their segments *)

Lemma slash_eqb c : Ascii.eqb c "/" = true ↔ c = "/"%char.
Proof. apply Ascii.eqb_eq. Qed.

Lemma split_nonempty s : split s ≠ [].
Proof.
  destruct s as [|c r]; simpl; [done|].
  destruct (Ascii.eqb c "/"); [done|]. by destruct (split r).
Qed.

Lemma split_noSlash s : Forall (λ seg, noSlash seg = true) (split s).
Proof.
  induction s as [|c r IH]; simpl.
  - by apply Forall_singleton.
  - destruct (Ascii.eqb c "/") eqn:Hc.
    + by apply Forall_cons.
    + destruct (split r) as [|seg segs]; [apply Forall_singleton; simpl; by rewrite Hc|].
      apply Forall_cons in IH as [Hseg Hsegs].
      apply Forall_cons. split; [simpl; by rewrite Hc|exact Hsegs].
Qed.

Lemma join_cons seg rest :
  rest ≠ [] → join (seg :: rest) = (seg ++ "/" ++ join rest)%string.
Proof. by destruct rest. Qed.

Lemma join_split s : join (split s) = s.
Proof.
  induction s as [|c r IH]; [reflexivity|]. simpl.
  destruct (Ascii.eqb_spec c "/") as [->|Hc].
  - rewrite join_cons by apply split_nonempty. simpl. by rewrite IH.
  - destruct (split r) as [|seg [|seg' segs]] eqn:Hs.
    + by destruct (split_nonempty r).
    + simpl in *. by rewrite IH.
    + rewrite join_cons by done. rewrite join_cons in IH by done.
      change ((String c seg ++ "/" ++ join (seg' :: segs))%string)
        with (String c (seg ++ "/" ++ join (seg' :: segs))%string).
      by rewrite IH.
Qed.

Lemma split_single seg : noSlash seg = true → split seg = [seg].
Proof.
  induction seg as [|c r IH]; [reflexivity|]. simpl.
  intros [Hc Hr]%andb_true_iff. apply negb_true_iff in Hc. rewrite Hc.
  by rewrite (IH Hr).
Qed.

Lemma split_app_slash seg s :
  noSlash seg = true → split (seg ++ "/" ++ s)%string = seg :: split s.
Proof.
  induction seg as [|c r IH]; [reflexivity|]. simpl.
  intros [Hc Hr]%andb_true_iff. apply negb_true_iff in Hc. rewrite Hc.
  by rewrite (IH Hr).
Qed.

Lemma split_join segments :
  segments ≠ [] → Forall (λ seg, noSlash seg = true) segments →
  split (join segments) = segments.
Proof.
  induction segments as [|seg rest IH]; [done|]. intros _ Hall.
  apply Forall_cons in Hall as [Hseg Hall].
  destruct rest as [|seg' rest].
  - simpl. by apply split_single.
  - rewrite join_cons by done. rewrite split_app_slash by done.
    f_equal. by apply IH.
Qed.

(** Appending a slash appends an empty segment. *)
Lemma split_snoc_slash s : split (s ++ "/")%string = split s ++ [EmptyString].
Proof.
  induction s as [|c r IH]; [reflexivity|]. simpl.
  destruct (Ascii.eqb c "/"); rewrite IH; [reflexivity|].
  destruct (split r) eqn:E; [by destruct (split_nonempty r)|reflexivity].
Qed.

Lemma prefix_cons_inv a b s1 s2 :
  String.prefix (String a s1) (String b s2) = true → a = b ∧ String.prefix s1 s2 = true.
Proof.
  cbn [String.prefix]. destruct (ascii_dec a b); [done|discriminate].
Qed.

Lemma prefix_cons a s1 s2 :
  String.prefix (String a s1) (String a s2) = String.prefix s1 s2.
Proof. cbn [String.prefix]. destruct (ascii_dec a a); done. Qed.

(** The first segment is a prefix of the string. *)
Lemma split_head_prefix s seg segs : split s = seg :: segs → String.prefix seg s = true.
Proof.
  revert seg segs. induction s as [|c r IH]; intros seg segs; simpl.
  - by intros [= <- <-].
  - destruct (Ascii.eqb c "/"); [by intros [= <- <-]|].
    destruct (split r) as [|seg' segs'] eqn:E; [by destruct (split_nonempty r)|].
    intros [= <- <-]. simpl. destruct (ascii_dec c c); [|done]. by eapply IH.
Qed.

Lemma indexOf_cons c r needle :
  indexOf (String c r) needle
  = if String.prefix needle (String c r) then Some 0 else S <$> indexOf r needle.
Proof. reflexivity. Qed.

(** A segment [".."] shows in the string. *)
Lemma split_dotdot_indexOf s : ".." ∈ split s → indexOf s ".." ≠ None.
Proof.
  induction s as [|c r IH].
  - intros H. apply list_elem_of_singleton in H. discriminate H.
  - intros H. rewrite indexOf_cons.
    destruct (String.prefix ".." (String c r)) eqn:Hp; [done|].
    assert (Hrest : ".." ∈ split r → S <$> indexOf r ".." ≠ None).
    { intros Hin. apply IH in Hin. by destruct (indexOf r ".."). }
    cbn [split] in H. destruct (Ascii.eqb c "/").
    + apply elem_of_cons in H as [H|H]; [discriminate H|]. by apply Hrest.
    + destruct (split r) as [|seg segs] eqn:E; [by destruct (split_nonempty r)|].
      apply elem_of_cons in H as [H|H].
      * exfalso. injection H as Hc Hseg. subst c seg. apply split_head_prefix in E.
        destruct r as [|c' r']; [cbn [String.prefix] in E; discriminate E|].
        apply prefix_cons_inv in E as [Hc' _]. subst c'.
        rewrite !prefix_cons in Hp. destruct r'; discriminate Hp.
      * apply Hrest. by apply list_elem_of_further.
Qed.

(** *** Duplicated slashes *)

Lemma isChar_Some c o : isChar c o = true → o = Some c.
Proof.
  destruct o as [d|]; [|discriminate]. simpl. by intros ->%Ascii.eqb_eq.
Qed.

Lemma replaceDuplicatedSlash_first s :
  charAt (replaceDuplicatedSlash s) 0 = charAt s 0.
Proof.
  induction s as [|c r IH]; [reflexivity|]. cbn [replaceDuplicatedSlash].
  destruct (Ascii.eqb c "/" && isChar "/" (charAt r 0)) eqn:E; [|reflexivity].
  apply andb_true_iff in E as [Hc Hr]. apply Ascii.eqb_eq in Hc. subst c.
  rewrite IH. by apply isChar_Some.
Qed.

Lemma noDoubleSlash_replace s : noDoubleSlash (replaceDuplicatedSlash s) = true.
Proof.
  induction s as [|c r IH]; [reflexivity|]. simpl.
  destruct (Ascii.eqb c "/" && isChar "/" (charAt r 0)) eqn:E; [exact IH|].
  simpl. rewrite replaceDuplicatedSlash_first, E, IH. reflexivity.
Qed.

Lemma replace_noDoubleSlash s : noDoubleSlash s = true → replaceDuplicatedSlash s = s.
Proof.
  induction s as [|c r IH]; [reflexivity|]. simpl.
  intros [Hc Hr]%andb_true_iff. apply negb_true_iff in Hc. rewrite Hc.
  by rewrite (IH Hr).
Qed.

Lemma noDoubleSlash_prefix s : noDoubleSlash s = true → String.prefix "//" s = false.
Proof.
  destruct s as [|c [|c' r]].
  - reflexivity.
  - intros _. cbn [String.prefix]. by destruct (ascii_dec "/" c).
  - simpl noDoubleSlash.
    intros [Hc _]%andb_true_iff. apply negb_true_iff, andb_false_iff in Hc.
    cbn [String.prefix]. destruct (ascii_dec "/" c) as [<-|]; [|reflexivity].
    destruct (ascii_dec "/" c') as [<-|]; [|reflexivity].
    destruct Hc as [Hc|Hc]; discriminate Hc.
Qed.

(** The first character of a string that is not empty, with more appended. *)
Lemma noDoubleSlash_app seg s :
  noSlash seg = true →
  noDoubleSlash (seg ++ "/" ++ s)%string
  = negb (isChar "/" (charAt s 0)) && noDoubleSlash s.
Proof.
  induction seg as [|c r IH]; [reflexivity|]. simpl.
  intros [Hc Hr]%andb_true_iff. apply negb_true_iff in Hc. rewrite Hc. simpl.
  by apply IH.
Qed.

Lemma noSlash_noDoubleSlash seg : noSlash seg = true → noDoubleSlash seg = true.
Proof.
  induction seg as [|c r IH]; [reflexivity|]. simpl.
  intros [Hc Hr]%andb_true_iff. apply negb_true_iff in Hc. rewrite Hc. simpl.
  by apply IH.
Qed.

Lemma noSlash_first seg : noSlash seg = true → isChar "/" (charAt seg 0) = false.
Proof.
  destruct seg as [|c r]; [reflexivity|]. simpl.
  intros [Hc _]%andb_true_iff. by apply negb_true_iff in Hc.
Qed.

Lemma append_first (a b : string) :
  a ≠ EmptyString → charAt (a ++ b)%string 0 = charAt a 0.
Proof. by destruct a. Qed.

Lemma interiorNonEmpty_tail seg rest :
  interiorNonEmpty (seg :: rest) → interiorNonEmpty rest.
Proof.
  intros H before x after -> Hb Ha. by apply (H (seg :: before) x after).
Qed.

Lemma noDoubleSlash_join segments :
  Forall (λ seg, noSlash seg = true) segments →
  interiorNonEmpty segments →
  noDoubleSlash (join segments) = true.
Proof.
  induction segments as [|seg rest IH]; [reflexivity|]. intros Hall Hint.
  apply Forall_cons in Hall as [Hseg Hall].
  destruct rest as [|seg' rest].
  - simpl. by apply noSlash_noDoubleSlash.
  - rewrite join_cons by done. rewrite noDoubleSlash_app by done.
    rewrite IH; [|exact Hall|by eapply interiorNonEmpty_tail].
    rewrite andb_true_r. apply negb_true_iff.
    apply Forall_cons in Hall as [Hseg' Hall].
    destruct rest as [|seg'' rest].
    + simpl. by apply noSlash_first.
    + rewrite join_cons by done. rewrite append_first.
      * by apply noSlash_first.
      * by apply (Hint [seg] seg' (seg'' :: rest)).
Qed.

Lemma split_slash_first r after :
  split r = EmptyString :: after → after ≠ [] → isChar "/" (charAt r 0) = true.
Proof.
  destruct r as [|c r']; simpl.
  - by intros [= <-].
  - destruct (Ascii.eqb c "/") eqn:Hc; [done|].
    by destruct (split r').
Qed.

Lemma interiorNonEmpty_split s : noDoubleSlash s = true → interiorNonEmpty (split s).
Proof.
  induction s as [|c r IH]; simpl.
  - intros _ before seg after H Hb Ha.
    destruct before as [|x [|y before]]; try done; injection H as _ H; by destruct after.
  - intros [Hc Hr]%andb_true_iff. apply negb_true_iff in Hc. specialize (IH Hr).
    destruct (Ascii.eqb c "/") eqn:Hslash; simpl in Hc.
    + intros before seg after H Hb Ha Hseg. subst seg.
      destruct before as [|x before]; [done|]. injection H as _ H.
      destruct before as [|y before].
      * simpl in H. apply split_slash_first in H; [congruence|exact Ha].
      * by apply (IH (y :: before) EmptyString after).
    + destruct (split r) as [|seg0 segs] eqn:E; [by destruct (split_nonempty r)|].
      intros before seg after H Hb Ha.
      destruct before as [|x before]; [done|]. injection H as _ H.
      apply (IH (seg0 :: before) seg after); [by rewrite H|done|done].
Qed.

Lemma interiorNonEmpty_sublist l l' :
  l' `sublist_of` l → interiorNonEmpty l → interiorNonEmpty l'.
Proof.
  intros Hsub Hint before seg after -> Hb Ha.
  apply sublist_app_l in Hsub as (k1 & k2 & -> & Hs1 & Hs2).
  apply sublist_cons_l in Hs2 as (k3 & k4 & -> & Hs4).
  rewrite app_assoc in Hint. apply (Hint (k1 ++ k3) seg k4); [reflexivity| |].
  - intros Hnil. apply app_eq_nil in Hnil as [-> _].
    apply sublist_nil_r in Hs1. contradiction.
  - intros ->. apply sublist_nil_r in Hs4. contradiction.
Qed.

(** *** Trailing slashes and absolute paths *)

Lemma lastChar_cons c r :
  lastChar (String c r) = match r with EmptyString => Some c | _ => lastChar r end.
Proof. by destruct r. Qed.

Lemma lastChar_snoc s c : lastChar (s ++ String c EmptyString)%string = Some c.
Proof.
  induction s as [|c' r IH]; [reflexivity|].
  change ((String c' r ++ String c EmptyString)%string)
    with (String c' (r ++ String c EmptyString)%string).
  rewrite lastChar_cons, IH. by destruct r.
Qed.

Lemma appendTrailingSlash_last path :
  isChar "/" (lastChar (_appendTrailingSlash path)) = true.
Proof.
  unfold _appendTrailingSlash.
  destruct (isChar "/" (lastChar path)) eqn:E; simpl; [exact E|].
  by rewrite lastChar_snoc.
Qed.

Lemma appendTrailingSlash_stable path :
  isChar "/" (lastChar path) = true → _appendTrailingSlash path = path.
Proof. unfold _appendTrailingSlash. by intros ->. Qed.

Lemma noDoubleSlash_snoc s :
  noDoubleSlash s = true → isChar "/" (lastChar s) = false →
  noDoubleSlash (s ++ "/")%string = true.
Proof.
  induction s as [|c r IH]; [reflexivity|]. intros Hs Hl.
  change ((String c r ++ "/")%string) with (String c (r ++ "/")%string).
  simpl in Hs. apply andb_true_iff in Hs as [Hc Hr].
  rewrite lastChar_cons in Hl. simpl.
  destruct r as [|c' r'].
  - simpl in *. rewrite Hl. reflexivity.
  - rewrite IH by done. rewrite andb_true_r.
    change ((String c' r' ++ "/")%string) with (String c' (r' ++ "/")%string).
    exact Hc.
Qed.

Lemma noDoubleSlash_appendTrailingSlash path :
  noDoubleSlash path = true → noDoubleSlash (_appendTrailingSlash path) = true.
Proof.
  intros H. unfold _appendTrailingSlash.
  destruct (isChar "/" (lastChar path)) eqn:E; simpl; [exact H|].
  by apply noDoubleSlash_snoc.
Qed.

Lemma isAbsolutePath_append a b :
  isAbsolutePath a = true → isAbsolutePath (a ++ b)%string = true.
Proof.
  unfold isAbsolutePath, charAt. destruct a as [|c [|c' r]]; simpl; try done.
  rewrite !orb_false_r. by intros ->.
Qed.

Lemma isAbsolutePath_replace p :
  isAbsolutePath p = true → isAbsolutePath (replaceDuplicatedSlash p) = true.
Proof.
  unfold isAbsolutePath. intros H.
  rewrite replaceDuplicatedSlash_first.
  destruct (isChar "/" (charAt p 0)) eqn:E; [reflexivity|]. simpl in H |- *.
  destruct p as [|c r]; [discriminate H|]. unfold charAt in *. simpl in E, H.
  cbn [replaceDuplicatedSlash]. rewrite E. simpl.
  change (isChar ":" (charAt (replaceDuplicatedSlash r) 0) = true).
  rewrite replaceDuplicatedSlash_first. by destruct r.
Qed.

Lemma tail_split_snoc s :
  Forall (λ seg, seg ≠ "..") (tail (split s)) →
  Forall (λ seg, seg ≠ "..") (tail (split (s ++ "/")%string)).
Proof.
  rewrite split_snoc_slash. intros H.
  destruct (split s) as [|h t] eqn:E; [by destruct (split_nonempty s)|].
  simpl in *. apply Forall_app. split; [exact H|]. by apply Forall_singleton.
Qed.

(** The first segment of an absolute path: empty before a leading slash,
    or beginning with the drive letter and the colon. *)
Lemma split_head_absolute c h t :
  isAbsolutePath c = true → split c = h :: t →
  (h = EmptyString ∧ isChar "/" (charAt c 0) = true) ∨ isAbsolutePath h = true.
Proof.
  unfold isAbsolutePath, charAt. destruct c as [|ch r]; [discriminate|]. simpl.
  destruct (Ascii.eqb ch "/") eqn:Hch; simpl.
  - intros _ [= <- <-]. by left.
  - intros Hr. destruct r as [|ch' r']; [discriminate Hr|]. simpl in Hr |- *.
    apply Ascii.eqb_eq in Hr. subst ch'. simpl.
    destruct (split r') as [|seg segs] eqn:E; [by destruct (split_nonempty r')|].
    intros [= <- <-]. right. simpl. rewrite Hch. reflexivity.
Qed.

(** *** Normal forms *)

Lemma finishPath_canonical u d orig f :
  canonical d f →
  finishPath u d orig f = if u && String.prefix "//" orig then ("/" ++ f)%string else f.
Proof.
  intros (_ & _ & _ & Hlast). unfold finishPath, searchDuplicatedSlash0.
  destruct d; [|reflexivity]. by rewrite appendTrailingSlash_stable by auto.
Qed.

(** A path whose slashes collapse to a canonical path normalizes to it. *)
Lemma canonical_normalize u orig f d :
  isAbsolutePath orig = true →
  replaceDuplicatedSlash orig = f →
  canonical d f →
  _normalizePath u orig d
  = Ok (if u && String.prefix "//" orig then ("/" ++ f)%string else f).
Proof.
  intros Habs Hf Hcan. rewrite (normalizePath_unfold _ _ _ Habs), Hf.
  rewrite <- (finishPath_canonical u d orig f Hcan).
  destruct Hcan as (_ & _ & Hdd & _).
  destruct (indexOf f "..") as [n|]; [|reflexivity].
  rewrite removeDotDot_stable by (auto using split_nonempty).
  by rewrite join_split.
Qed.

Lemma isAbsolutePath_nonempty path : isAbsolutePath path = true → path ≠ EmptyString.
Proof. by intros H ->. Qed.

Lemma appendTrailingSlash_absolute path :
  path = EmptyString ∨ isAbsolutePath path = true →
  isAbsolutePath (_appendTrailingSlash path) = true.
Proof.
  intros [->|H]; [reflexivity|]. unfold _appendTrailingSlash.
  destruct (negb _); [by apply isAbsolutePath_append|exact H].
Qed.

Lemma appendTrailingSlash_tail path :
  Forall (λ seg, seg ≠ "..") (tail (split path)) →
  Forall (λ seg, seg ≠ "..") (tail (split (_appendTrailingSlash path))).
Proof.
  intros H. unfold _appendTrailingSlash.
  destruct (negb _); [by apply tail_split_snoc|exact H].
Qed.

Lemma appendTrailingSlash_first path :
  path = EmptyString ∨ isChar "/" (charAt path 0) = true →
  isChar "/" (charAt (_appendTrailingSlash path) 0) = true.
Proof.
  intros [->|H]; [reflexivity|]. unfold _appendTrailingSlash.
  destruct (negb _); [|exact H]. rewrite append_first; [exact H|]. by intros ->.
Qed.

(** The last step of normalization makes a canonical path of a path that is
    canonical but for its end; only the empty path of a file stays empty. *)
Lemma trailing_canonical (d : bool) x :
  noDoubleSlash x = true →
  x = EmptyString ∨ isAbsolutePath x = true →
  Forall (λ seg, seg ≠ "..") (tail (split x)) →
  ((if d then _appendTrailingSlash x else x) = EmptyString ∧ d = false)
  ∨ canonical d (if d then _appendTrailingSlash x else x).
Proof.
  intros Hnd Habs Hdd. destruct d.
  - right. split; [by apply noDoubleSlash_appendTrailingSlash|].
    split; [by apply appendTrailingSlash_absolute|].
    split; [by apply appendTrailingSlash_tail|].
    intros _. apply appendTrailingSlash_last.
  - destruct Habs as [->|Habs]; [by left|]. right. by repeat split.
Qed.

Lemma trailing_first (d : bool) x :
  x = EmptyString ∨ isChar "/" (charAt x 0) = true →
  (if d then _appendTrailingSlash x else x) = EmptyString
  ∨ isChar "/" (charAt (if d then _appendTrailingSlash x else x) 0) = true.
Proof.
  intros H. destruct d; [right; by apply appendTrailingSlash_first|exact H].
Qed.

Lemma Forall_sublist {A} (P : A → Prop) (l l' : list A) :
  l' `sublist_of` l → Forall P l → Forall P l'.
Proof.
  intros Hsub Hall. apply Forall_forall. intros x Hx.
  rewrite Forall_forall in Hall. apply Hall. by eapply elem_of_sublist.
Qed.

(** What the scan leaves of an absolute path without doubled slashes. *)
Lemma removeDotDot_canonical c out :
  noDoubleSlash c = true →
  isAbsolutePath c = true →
  removeDotDot c 1 (split c) = Ok out →
  noDoubleSlash (join out) = true
  ∧ (join out = EmptyString ∨ isAbsolutePath (join out) = true)
  ∧ Forall (λ seg, seg ≠ "..") (tail (split (join out)))
  ∧ (isChar "/" (charAt c 0) = true →
     join out = EmptyString ∨ isChar "/" (charAt (join out) 0) = true).
Proof.
  intros Hnd Habs Hscan.
  destruct (split c) as [|h t] eqn:Hsplit; [by destruct (split_nonempty c)|].
  change (removeDotDot c (List.length [h]) ([h] ++ t) = Ok out) in Hscan.
  rewrite removeDotDot_scanFrom in Hscan.
  apply scanFrom_spec in Hscan as (Hsub & Hhead & Hdd & Hne); [|done|by constructor].
  change ([h] ++ t) with (h :: t) in Hsub. rewrite <- Hsplit in Hsub.
  assert (Hns : Forall (λ seg, noSlash seg = true) out)
    by (eapply Forall_sublist; [exact Hsub|apply split_noSlash]).
  assert (Hint : interiorNonEmpty out)
    by (eapply interiorNonEmpty_sublist; [exact Hsub|by apply interiorNonEmpty_split]).
  rewrite split_join by done.
  split; [by apply noDoubleSlash_join|].
  destruct out as [|h' t']; [done|]. simpl in Hhead. injection Hhead as ->.
  destruct (split_head_absolute c h t Habs Hsplit) as [[-> Hfirst]|Hh].
  - assert (Hj : join (EmptyString :: t') = EmptyString
                 ∨ isChar "/" (charAt (join (EmptyString :: t')) 0) = true).
    { destruct t' as [|x t']; [by left|]. right. by rewrite join_cons. }
    split; [|by split].
    destruct Hj as [Hj|Hj]; [by left|]. right.
    unfold isAbsolutePath. by rewrite Hj.
  - assert (Hj : isAbsolutePath (join (h :: t')) = true).
    { destruct t' as [|x t']; [exact Hh|]. rewrite join_cons by done.
      by apply isAbsolutePath_append. }
    split; [by right|]. split; [done|].
    intros Hfirst. right.
    destruct c as [|ch r]; [discriminate Hfirst|].
    unfold charAt in Hfirst. simpl in Hfirst, Hsplit. rewrite Hfirst in Hsplit.
    injection Hsplit as <- _. discriminate Hh.
Qed.

(** The shape of every result of normalization. *)
Lemma normalizePath_shape u p d q :
  _normalizePath u p d = Ok q →
  isAbsolutePath p = true
  ∧ ∃ f, q = (if u && String.prefix "//" p then ("/" ++ f)%string else f)
    ∧ ((f = EmptyString ∧ d = false) ∨ canonical d f)
    ∧ (isChar "/" (charAt p 0) = true →
       f = EmptyString ∨ isChar "/" (charAt f 0) = true).
Proof.
  intros Hq.
  assert (Habs : isAbsolutePath p = true).
  { destruct (isAbsolutePath p) eqn:E; [reflexivity|].
    unfold _normalizePath in Hq. rewrite E in Hq. discriminate Hq. }
  split; [exact Habs|].
  rewrite (normalizePath_unfold _ _ _ Habs) in Hq.
  pose proof (noDoubleSlash_replace p) as Hnd.
  pose proof (isAbsolutePath_replace p Habs) as Habs'.
  assert (Hfirst : isChar "/" (charAt p 0) = true →
                   isChar "/" (charAt (replaceDuplicatedSlash p) 0) = true)
    by (by rewrite replaceDuplicatedSlash_first).
  destruct (indexOf (replaceDuplicatedSlash p) "..") as [n|] eqn:Hidx.
  - destruct (removeDotDot _ 1 _) as [out|e] eqn:Hscan; [|discriminate Hq].
    injection Hq as <-.
    apply removeDotDot_canonical in Hscan as (H1 & H2 & H3 & H4); [|done..].
    exists (if d then _appendTrailingSlash (join out) else join out).
    split; [reflexivity|]. split; [by apply trailing_canonical|].
    intros Hp. apply trailing_first. auto.
  - injection Hq as <-.
    exists (if d then _appendTrailingSlash (replaceDuplicatedSlash p)
            else replaceDuplicatedSlash p).
    split; [reflexivity|]. split.
    + apply trailing_canonical; [done|by right|].
      apply Forall_forall. intros seg Hseg ->.
      apply (split_dotdot_indexOf (replaceDuplicatedSlash p)); [|exact Hidx].
      destruct (split (replaceDuplicatedSlash p)); [done|]. by right.
    + intros Hp. apply trailing_first. auto.
Qed.

(** X1. Normalization leaves every normal form but the empty string as it
    is, with and without the handling of UNC paths. *)
Theorem normalize_idempotent_nonempty (u : bool) (p : string) (d : bool) (q : string) :
  _normalizePath u p d = Ok q →
  q ≠ EmptyString →
  _normalizePath u q d = Ok q.
Proof.
  intros Hq Hne.
  apply normalizePath_shape in Hq as (Habs & f & -> & Hf & Hfirst).
  destruct (u && String.prefix "//" p) eqn:Hunc.
  - apply andb_true_iff in Hunc as [-> Hpre].
    assert (Hp : isChar "/" (charAt p 0) = true).
    { destruct p as [|c r]; [discriminate Hpre|]. cbn [String.prefix] in Hpre.
      destruct (ascii_dec "/" c) as [<-|]; [reflexivity|discriminate Hpre]. }
    destruct Hf as [[-> ->]|Hcan]; [reflexivity|].
    pose proof Hcan as (Hnd & Hfabs & _).
    destruct (Hfirst Hp) as [->|Hf0]; [discriminate Hfabs|].
    destruct f as [|c r]; [discriminate Hf0|].
    unfold charAt in Hf0. simpl in Hf0. apply slash_eqb in Hf0. subst c.
    rewrite (canonical_normalize true _ (String "/" r) d);
      [by destruct r|reflexivity| |exact Hcan].
    change (replaceDuplicatedSlash (String "/" (String "/" r)) = String "/" r).
    cbn [replaceDuplicatedSlash]. simpl.
    change (replaceDuplicatedSlash (String "/" r) = String "/" r).
    by apply replace_noDoubleSlash.
  - destruct Hf as [[-> _]|Hcan]; [done|].
    pose proof Hcan as (Hnd & Hfabs & _).
    rewrite (canonical_normalize u f f d); [|done|by apply replace_noDoubleSlash|done].
    rewrite (noDoubleSlash_prefix f Hnd). by rewrite andb_false_r.
Qed.

Lemma normalize_idempotent_nonempty_witness :
  _normalizePath true "//srv//share/../x" true = Ok "//srv/x/"
  ∧ _normalizePath true "//srv/x/" true = Ok "//srv/x/".
Proof.
  split; [vm_compute; reflexivity|].
  apply (normalize_idempotent_nonempty true "//srv//share/../x" true);
    [vm_compute; reflexivity|discriminate].
Defined.

Lemma lastChar_isChar c s : isChar c (lastChar s) = true → lastChar s = Some c.
Proof. apply isChar_Some. Qed.

Lemma canonical_segments d f : canonical d f → Forall (λ seg, seg ≠ "..") (split f).
Proof.
  intros (_ & Habs & Hdd & _).
  destruct (split f) as [|h t] eqn:Hsplit; [by destruct (split_nonempty f)|].
  apply Forall_cons. split; [|exact Hdd].
  destruct (split_head_absolute f h t Habs Hsplit) as [[-> _]|Hh]; [discriminate|].
  intros ->. discriminate Hh.
Qed.

(** X2. Whatever [_normalizePath] returns is canonical: it is absolute
    unless it is empty, none of its segments is [".."], it ends with a
    slash when a directory was asked for, and it has no doubled slash other
    than the one restored in front of a UNC path; the empty string is
    returned only for a file path that is not a UNC path. *)
Theorem normalizePath_canonical (u : bool) (p : string) (d : bool) (q : string) :
  _normalizePath u p d = Ok q →
  (q = EmptyString ∨ isAbsolutePath q = true)
  ∧ Forall (λ seg, seg ≠ "..") (split q)
  ∧ (d = true → lastChar q = Some "/"%char)
  ∧ (u && searchDuplicatedSlash0 p = false → replaceDuplicatedSlash q = q)
  ∧ (u && searchDuplicatedSlash0 p = true →
       ∃ f, q = ("/" ++ f)%string ∧ replaceDuplicatedSlash f = f)
  ∧ (q = EmptyString → d = false ∧ u && searchDuplicatedSlash0 p = false).
Proof.
  intros Hq. unfold searchDuplicatedSlash0.
  apply normalizePath_shape in Hq as (Habs & f & -> & Hf & Hfirst).
  destruct (u && String.prefix "//" p) eqn:Hunc.
  - split; [by right|]. split.
    { change (split ("/" ++ f)%string) with (EmptyString :: split f).
      apply Forall_cons. split; [discriminate|].
      destruct Hf as [[-> _]|Hcan]; [by repeat constructor|].
      by eapply canonical_segments. }
    split.
    { intros ->. destruct Hf as [[_ [=]]|(_ & Habs' & _ & Hlast)].
      specialize (Hlast eq_refl). apply isChar_Some in Hlast.
      change (("/" ++ f)%string) with (String "/" f). rewrite lastChar_cons.
      destruct f; [discriminate Habs'|exact Hlast]. }
    split; [discriminate|]. split; [|discriminate].
    intros _. exists f. split; [reflexivity|].
    destruct Hf as [[-> _]|(Hnd & _)]; [reflexivity|by apply replace_noDoubleSlash].
  - destruct Hf as [[-> ->]|Hcan].
    + split; [by left|]. split; [by repeat constructor|].
      split; [discriminate|]. split; [reflexivity|]. split; [discriminate|done].
    + pose proof Hcan as (Hnd & Habs' & _ & Hlast).
      split; [by right|]. split; [by eapply canonical_segments|].
      split; [intros Hd; by apply isChar_Some, Hlast|].
      split; [intros _; by apply replace_noDoubleSlash|].
      split; [discriminate|]. intros ->. discriminate Habs'.
Qed.

Lemma normalizePath_canonical_witness :
  Forall (λ seg, seg ≠ "..") (split "/a/c/")
  ∧ lastChar "/a/c/" = Some "/"%char
  ∧ replaceDuplicatedSlash "/a/c/" = "/a/c/".
Proof.
  destruct (normalizePath_canonical false "/a//b/../c" true "/a/c/")
    as (_ & H1 & H2 & H3 & _); [vm_compute; reflexivity|].
  split; [exact H1|]. split; [by apply H2|by apply H3].
Defined.

(** X3. The paths that normalization leaves as they are, are the canonical
    ones: absolute, without a doubled slash, without a [".."] segment, and
    ending with a slash if they name a directory. *)
Theorem normal_forms_are_canonical (d : bool) (q : string) :
  (∀ u, canonical d q → _normalizePath u q d = Ok q)
  ∧ (_normalizePath false q d = Ok q → canonical d q).
Proof.
  split.
  - intros u Hcan. pose proof Hcan as (Hnd & Habs & _).
    rewrite (canonical_normalize u q q d); [|done|by apply replace_noDoubleSlash|done].
    rewrite (noDoubleSlash_prefix q Hnd). by rewrite andb_false_r.
  - intros Hq. pose proof Hq as Hq'.
    apply normalizePath_shape in Hq' as (Habs & f & Hf & [[-> _]|Hcan] & _);
      simpl in Hf; subst q; [discriminate Habs|exact Hcan].
Qed.

Lemma normal_forms_are_canonical_witness :
  _normalizePath true "c:/Users/me/" true = Ok "c:/Users/me/"
  ∧ canonical false "/a/b.txt".
Proof.
  destruct (normal_forms_are_canonical true "c:/Users/me/") as [H1 _].
  destruct (normal_forms_are_canonical false "/a/b.txt") as [_ H2].
  split.
  - apply H1. repeat split; try (vm_compute; reflexivity).
    + vm_compute. repeat constructor; discriminate.
  - apply H2. vm_compute. reflexivity.
Defined.

(** X4. [_normalizePath] throws "Paths must be absolute" exactly on the
    paths that are not absolute, and otherwise only "Invalid absolute path",
    with the path as it is after its slashes were collapsed; whether it
    throws, and what, depends neither on [isDirectory] nor on the handling
    of UNC paths. *)
Theorem normalizePath_errors (u : bool) (p : string) (d : bool) :
  (isAbsolutePath p = false ↔ _normalizePath u p d = Throw (AbsolutePathRequired p))
  ∧ (∀ e, _normalizePath u p d = Throw e →
       e = AbsolutePathRequired p ∨ e = InvalidPath (replaceDuplicatedSlash p))
  ∧ (∀ e u' d', _normalizePath u p d = Throw e → _normalizePath u' p d' = Throw e).
Proof.
  destruct (isAbsolutePath p) eqn:Habs.
  - rewrite !(normalizePath_unfold _ _ _ Habs).
    assert (Hscan : ∀ e,
      removeDotDot (replaceDuplicatedSlash p) 1 (split (replaceDuplicatedSlash p)) = Throw e →
      e = InvalidPath (replaceDuplicatedSlash p)).
    { intros e Hout.
      destruct (split (replaceDuplicatedSlash p)) as [|h t] eqn:Hsplit;
        [by destruct (split_nonempty (replaceDuplicatedSlash p))|].
      change (removeDotDot (replaceDuplicatedSlash p) (List.length [h]) ([h] ++ t) = Throw e)
        in Hout.
      rewrite removeDotDot_scanFrom in Hout.
      clear Hsplit. generalize dependent [h]. clear h.
      induction t as [|seg t IH]; intros passed Hs; simpl in Hs; [discriminate Hs|].
      destruct (String.eqb seg "..").
      - destruct (List.length passed <? 2)%nat; [by injection Hs|by eapply IH].
      - by eapply IH. }
    split; [|split].
    + split; [discriminate|].
      destruct (indexOf _ ".."); [|discriminate].
      destruct (removeDotDot _ 1 _) as [out|e]; [discriminate|].
      intros [= He]. pose proof (Hscan _ eq_refl) as He'. congruence.
    + intros e He. right.
      destruct (indexOf _ ".."); [|discriminate He].
      destruct (removeDotDot _ 1 _) as [out|e']; [discriminate He|].
      injection He as <-. by apply Hscan.
    + intros e u' d' He. rewrite (normalizePath_unfold _ _ _ Habs).
      destruct (indexOf _ ".."); [|discriminate He].
      destruct (removeDotDot _ 1 _) as [out|e']; [discriminate He|exact He].
  - assert (Hthrow : ∀ u d, _normalizePath u p d = Throw (AbsolutePathRequired p)).
    { intros u0 d0. unfold _normalizePath. by rewrite Habs. }
    split; [by split|]. split.
    + intros e. rewrite Hthrow. intros [= <-]. by left.
    + intros e u' d'. by rewrite !Hthrow.
Qed.

Lemma normalizePath_errors_witness :
  _normalizePath false "a/b" true = Throw (AbsolutePathRequired "a/b")
  ∧ _normalizePath true "//a/../../b" true = Throw (InvalidPath "/a/../../b").
Proof.
  destruct (normalizePath_errors false "a/b" true) as ([H1 _] & _ & _).
  destruct (normalizePath_errors false "//a/../../b" false) as (_ & _ & H3).
  split; [by apply H1|]. apply H3. vm_compute. reflexivity.
Defined.

(** The last two steps of normalization, for a directory and for a file. *)
Lemma finishPath_directory u p x q :
  finishPath u false p x = q →
  (u && searchDuplicatedSlash0 p = false ∨ q ≠ "/" →
     finishPath u true p x = _appendTrailingSlash q)
  ∧ (u && searchDuplicatedSlash0 p = true → q = "/" → finishPath u true p x = "//").
Proof.
  intros <-. unfold finishPath.
  destruct (u && searchDuplicatedSlash0 p); simpl.
  - split.
    + intros [[=]|Hne]. destruct x as [|c r]; [done|].
      unfold _appendTrailingSlash.
      change (("/" ++ String c r)%string) with (String "/" (String c r)).
      rewrite lastChar_cons. by destruct (negb _).
    + intros _. destruct x; [reflexivity|discriminate].
  - split; [reflexivity|discriminate].
Qed.

Lemma normalizePath_absolute u p d q : _normalizePath u p d = Ok q → isAbsolutePath p = true.
Proof.
  intros Hq. destruct (isAbsolutePath p) eqn:E; [reflexivity|].
  unfold _normalizePath in Hq. rewrite E in Hq. discriminate Hq.
Qed.

(** X5. The directory form of a path is its file form with a slash appended
    where it does not end with one; only the UNC path that resolves to the
    root has the directory form ["//"]. *)
Theorem directory_form_appends_slash (u : bool) (p q : string) :
  _normalizePath u p false = Ok q →
  (u && searchDuplicatedSlash0 p = false ∨ q ≠ "/" →
     _normalizePath u p true = Ok (_appendTrailingSlash q))
  ∧ (u && searchDuplicatedSlash0 p = true → q = "/" →
     _normalizePath u p true = Ok "//").
Proof.
  intros Hq. pose proof (normalizePath_absolute _ _ _ _ Hq) as Habs.
  rewrite (normalizePath_unfold _ _ _ Habs) in Hq.
  rewrite (normalizePath_unfold _ _ _ Habs).
  destruct (indexOf _ "..").
  - destruct (removeDotDot _ 1 _) as [out|e]; [|discriminate Hq].
    injection Hq as Hq. destruct (finishPath_directory _ _ _ _ Hq) as [H1 H2].
    split; [intros H; by rewrite H1|intros Hu Hr; by rewrite H2].
  - injection Hq as Hq. destruct (finishPath_directory _ _ _ _ Hq) as [H1 H2].
    split; [intros H; by rewrite H1|intros Hu Hr; by rewrite H2].
Qed.

Lemma directory_form_appends_slash_witness :
  _normalizePath true "//srv/share" true = Ok "//srv/share/"
  ∧ _normalizePath true "//a/.." false = Ok "/"
  ∧ _normalizePath true "//a/.." true = Ok "//".
Proof.
  destruct (directory_form_appends_slash true "//srv/share" "//srv/share") as [H1 _];
    [vm_compute; reflexivity|].
  destruct (directory_form_appends_slash true "//a/.." "/") as [_ H2];
    [vm_compute; reflexivity|].
  split; [apply H1; by right|]. split; [vm_compute; reflexivity|by apply H2].
Defined.

(** X6. [_appendTrailingSlash] returns a path that ends with a slash, by
    appending one slash where there is none, and nothing where there is
    one; applied twice it gives what it gives applied once. *)
Theorem appendTrailingSlash_idempotent (path : string) :
  lastChar (_appendTrailingSlash path) = Some "/"%char
  ∧ _appendTrailingSlash (_appendTrailingSlash path) = _appendTrailingSlash path
  ∧ (_appendTrailingSlash path = path ↔ lastChar path = Some "/"%char)
  ∧ (lastChar path ≠ Some "/"%char → _appendTrailingSlash path = (path ++ "/")%string).
Proof.
  split; [apply isChar_Some, appendTrailingSlash_last|].
  split; [apply appendTrailingSlash_stable, appendTrailingSlash_last|].
  split; [split|].
  - intros H. rewrite <- H. apply isChar_Some, appendTrailingSlash_last.
  - intros H. apply appendTrailingSlash_stable. by rewrite H.
  - intros H. unfold _appendTrailingSlash.
    destruct (isChar "/" (lastChar path)) eqn:E; [|reflexivity].
    by apply isChar_Some in E.
Qed.

Lemma appendTrailingSlash_idempotent_witness :
  _appendTrailingSlash "" = "/" ∧ _appendTrailingSlash "/a/" = "/a/".
Proof.
  destruct (appendTrailingSlash_idempotent "") as (_ & _ & _ & H1).
  destruct (appendTrailingSlash_idempotent "/a/") as (_ & _ & [_ H2] & _).
  split; [by apply H1|by apply H2].
Defined.

End NormalForms.

(** ** Invariants of the index *)

Section Index.

#[global] Instance indexShrinks_preorder : PreOrder indexShrinks.
Proof.
  split.
  - intros s. split; [lia|auto].
  - intros s1 s2 s3 [H1 H2] [G1 G2]. split; [lia|auto].
Qed.

Lemma indexShrinks_invariant s s' :
  indexShrinks s s' → internInvariant s → internInvariant s'.
Proof.
  intros [Hn Hi] (Hwf & Hid & Hinj). split; [|split].
  - intros p e H. apply Hwf, Hi, H.
  - intros p e H. apply Hi, Hid in H. lia.
  - intros p1 p2 e1 e2 H1 H2. apply Hinj; by apply Hi.
Qed.

(** Steps that leave the index and the identities alone, take entries out
    of the index, or take a fresh identity. *)
Ltac index_shrinks :=
  unfold indexShrinks, FileIndex.removeEntry, FileIndex.clear;
  cbn [_index nextId set_index set_watchedRoots
       set_watchRequests set_externalChanges set_activeChangeCount set_activeRoots
       set_cached set_counters set_directoryCounters set_nextId set_pending set_trace];
  split; [lia|];
  intros ? ?; rewrite ?lookup_delete_Some, ?lookup_empty; try tauto; discriminate.

Lemma fresh_shrinks : preserves indexShrinks fresh.
Proof. intros s. unfold indexShrinks. cbn. split; [lia|auto]. Qed.

Ltac shrink_step :=
  first [ monad_step | apply fresh_shrinks | index_shrinks ].

Lemma callClient_shrinks callback err : preserves indexShrinks (callClient callback err).
Proof. unfold callClient, emit. repeat shrink_step. Qed.

Lemma applyCallback_shrinks callback err : preserves indexShrinks (applyCallback callback err).
Proof.
  revert err. induction callback; intros err; simpl.
  - unfold emit, setActive. repeat shrink_step; apply callClient_shrinks.
  - apply (@preserves_bind indexShrinks _); [|intros _; apply IHcallback].
    unfold visitAll, _clearCachedData. repeat shrink_step.
  - unfold emit, visitAll. repeat shrink_step; apply callClient_shrinks.
  - unfold emit. repeat shrink_step.
  - unfold predecrementDirectory, setStat, getCached, _fireChangeEvent, emit.
    repeat shrink_step.
Qed.

Lemma dequeueWatchRequest_shrinks : preserves indexShrinks _dequeueWatchRequest.
Proof.
  unfold _dequeueWatchRequest, callFn, emit, suspend. repeat shrink_step.
Qed.

Lemma requestCb_shrinks request err : preserves indexShrinks (requestCb request err).
Proof.
  unfold requestCb, shiftWatchRequests, emit.
  repeat first [ apply applyCallback_shrinks | apply dequeueWatchRequest_shrinks
               | shrink_step ].
Qed.

Lemma watchOrUnwatchEntry_shrinks entry watchedRoot callback shouldWatch :
  preserves indexShrinks (_watchOrUnwatchEntry entry watchedRoot callback shouldWatch).
Proof.
  unfold _watchOrUnwatchEntry, _enqueueWatchRequest, emit.
  repeat first [ apply applyCallback_shrinks | apply dequeueWatchRequest_shrinks
               | shrink_step ].
Qed.

Lemma handleExternalChange_shrinks path stat :
  preserves indexShrinks (_handleExternalChange path stat).
Proof.
  unfold _handleExternalChange, _handleDirectoryChange, visitAll, _clearCachedData,
    setStat, _fireChangeEvent, emit, getCached, suspend.
  repeat shrink_step.
Qed.

Lemma triggerExternalChangesNow_shrinks : preserves indexShrinks _triggerExternalChangesNow.
Proof.
  unfold _triggerExternalChangesNow.
  repeat first [ apply handleExternalChange_shrinks | shrink_step ].
Qed.

Lemma callBack_shrinks i reply : preserves indexShrinks (callBack i reply).
Proof.
  unfold callBack, resume, visitCb, countdownCb, contentsCb, newCounter, predecrement,
    newDirectoryCounter, setContents, setStat, getCached, _findWatchedRootForPath,
    _fireChangeEvent, emit, suspend, visitAll, _clearCachedData, _watchEntry, _unwatchEntry.
  repeat first [ apply requestCb_shrinks | apply watchOrUnwatchEntry_shrinks
               | shrink_step ].
Qed.

(** Every call other than [getFileForPath] and [getDirectoryForPath] leaves
    the index as it is or takes entries out of it. *)
Lemma perform_shrinks a :
  (∀ path, a ≠ DoGetFileForPath path) → (∀ path, a ≠ DoGetDirectoryForPath path) →
  preserves indexShrinks (perform a).
Proof.
  intros Hf Hd. destruct a; simpl.
  - by destruct (Hf path).
  - by destruct (Hd path).
  - unfold watch, _findWatchedRootForPath, isActive, _watchEntry.
    repeat first [ apply callClient_shrinks | apply watchOrUnwatchEntry_shrinks
                 | shrink_step ].
  - unfold unwatch, setActive, _unwatchEntry.
    repeat first [ apply callClient_shrinks | apply watchOrUnwatchEntry_shrinks
                 | shrink_step ].
  - unfold close, emit. repeat shrink_step.
  - unfold _beginChange. repeat shrink_step.
  - unfold _endChange, emit.
    repeat first [ apply triggerExternalChangesNow_shrinks | shrink_step ].
  - unfold _enqueueExternalChange.
    repeat first [ apply triggerExternalChangesNow_shrinks | shrink_step ].
  - unfold _unwatchAll, emit, setActive, _unwatchEntry.
    repeat first [ apply handleExternalChange_shrinks | apply watchOrUnwatchEntry_shrinks
                 | shrink_step ].
  - apply callBack_shrinks.
Qed.

Lemma getEntryForPath_invariant constructor path s :
  internInvariant s → internInvariant (exec (_getEntryForPath constructor path) s).
Proof.
  intros (Hwf & Hid & Hinj).
  destruct (Path._normalizePath (normalizeUNCPaths (_impl s)) path
              (constructsDirectory constructor)) as [q|err] eqn:Hn.
  - destruct (_index s !! q) as [e|] eqn:Hq.
    + unfold exec. rewrite (getEntryForPath_found _ _ _ _ _ Hn Hq). done.
    + unfold exec. rewrite (getEntryForPath_new _ _ _ _ Hn Hq).
      unfold withNewEntry, internInvariant, FileIndex.wf, FileIndex.addEntry.
      cbn [fst _index nextId set_index set_nextId newEntry fullPath eid].
      split; [|split].
      * intros p e. rewrite lookup_insert_Some. intros [[<- <-]|[_ H]]; [done|by apply Hwf].
      * intros p e. rewrite lookup_insert_Some. intros [[<- <-]|[_ H]]; [simpl; lia|].
        apply Hid in H. lia.
      * intros p1 p2 e1 e2. rewrite !lookup_insert_Some.
        intros [[<- <-]|[Hn1 H1]] [[<- <-]|[Hn2 H2]]; simpl; try done.
        -- intros E. apply Hid in H2. lia.
        -- intros E. apply Hid in H1. lia.
        -- by apply Hinj.
  - unfold exec. rewrite (getEntryForPath_throws _ _ _ _ Hn). done.
Qed.

Lemma getMany_invariant calls s : internInvariant s → internInvariant (getMany calls s).
Proof.
  revert s. induction calls as [|[c p] calls IH]; intros s H; [exact H|].
  apply IH. by apply getEntryForPath_invariant.
Qed.

Lemma perform_invariant a s : internInvariant s → internInvariant (exec (perform a) s).
Proof.
  intros H.
  assert (Hget : ∀ c p, internInvariant (exec (_getEntryForPath c p ;; ret tt) s)).
  { intros c p. pose proof (getEntryForPath_invariant c p s H) as H'.
    unfold exec, bind in *. destruct (_getEntryForPath c p s) as [s' [e|err]]; exact H'. }
  destruct a; try (eapply indexShrinks_invariant; [|exact H];
                   apply (perform_shrinks _); discriminate).
  - apply (Hget File).
  - apply (Hget Directory).
Qed.

Lemma reachable_intern s : reachable s → internInvariant s.
Proof.
  intros (impl & actions & ->). unfold run.
  assert (H : internInvariant (init impl)).
  { split; [|split]; intros ?; intros; simpl in *; by rewrite ?lookup_empty in *. }
  revert H. generalize (init impl).
  induction actions as [|a actions IH]; intros s H; [exact H|].
  simpl. apply IH. by apply perform_invariant.
Qed.

(** X7. In every state that calls of clients and collaborators can reach,
    each entry of the index is kept under its own full path, so that
    looking up the path of an indexed entry gives that entry, and no entry
    is kept under two paths. *)
Theorem index_keyed_by_full_path (s : FileSystem) :
  reachable s →
  (∀ path e, FileIndex.getEntry path (_index s) = Some e →
     fullPath e = path ∧ FileIndex.getEntry (fullPath e) (_index s) = Some e)
  ∧ (∀ p1 p2 e1 e2,
       FileIndex.getEntry p1 (_index s) = Some e1 →
       FileIndex.getEntry p2 (_index s) = Some e2 →
       sameEntry e1 e2 = true → p1 = p2 ∧ e1 = e2).
Proof.
  intros Hr. apply reachable_intern in Hr as (Hwf & Hid & Hinj).
  unfold FileIndex.getEntry. split.
  - intros p e H. pose proof (Hwf _ _ H) as Hp. by rewrite Hp.
  - intros p1 p2 e1 e2 H1 H2 Hsame.
    apply Nat.eqb_eq in Hsame.
    pose proof (Hinj _ _ _ _ H1 H2 Hsame) as ->.
    split; [reflexivity|congruence].
Qed.
Lemma index_keyed_by_full_path_witness :
  let s := run [DoGetFileForPath "/a/b.txt"; DoGetDirectoryForPath "/a"]
               (init recursiveImpl) in
  FileIndex.getEntry "/a/" (_index s) = Some (newEntry 1 "/a/" true)
  ∧ FileIndex.getEntry (fullPath (newEntry 1 "/a/" true)) (_index s)
    = Some (newEntry 1 "/a/" true).
Proof.
  cbv zeta.
  destruct (index_keyed_by_full_path
              (run [DoGetFileForPath "/a/b.txt"; DoGetDirectoryForPath "/a"]
                   (init recursiveImpl))) as [H _].
  - by exists recursiveImpl, [DoGetFileForPath "/a/b.txt"; DoGetDirectoryForPath "/a"].
  - assert (Hl : FileIndex.getEntry "/a/"
                   (_index (run [DoGetFileForPath "/a/b.txt"; DoGetDirectoryForPath "/a"]
                                (init recursiveImpl)))
                 = Some (newEntry 1 "/a/" true)) by (vm_compute; reflexivity).
    split; [exact Hl|]. by destruct (H _ _ Hl).
Defined.

(** What a successful [_getEntryForPath] returns and leaves. *)
Lemma getEntryForPath_returns constructor path q s :
  Path._normalizePath (normalizeUNCPaths (_impl s)) path
    (constructsDirectory constructor) = Ok q →
  ∃ e s1, _getEntryForPath constructor path s = (s1, Ok e)
          ∧ _impl s1 = _impl s
          ∧ _index s1 !! q = Some e
          ∧ (_index s !! q = None → isDirectory e = constructsDirectory constructor).
Proof.
  intros Hn. destruct (_index s !! q) as [e|] eqn:Hq.
  - exists e, s. rewrite (getEntryForPath_found _ _ _ _ _ Hn Hq). done.
  - eexists _, _. rewrite (getEntryForPath_new _ _ _ _ Hn Hq).
    repeat split. simpl. unfold FileIndex.addEntry. simpl. apply lookup_insert_eq.
Qed.

(** X8. Two handles obtained from [getFileForPath] or [getDirectoryForPath]
    are one object exactly when the two paths have the same normal form,
    each normalized for the kind of handle asked for; the full path of a
    handle is that normal form. *)
Theorem same_handle_iff_same_normal_form (c1 c2 : EntryConstructor)
    (between : list (EntryConstructor * string)) (p1 p2 q1 q2 : string) (s : FileSystem) :
  reachable s →
  Path._normalizePath (normalizeUNCPaths (_impl s)) p1 (constructsDirectory c1) = Ok q1 →
  Path._normalizePath (normalizeUNCPaths (_impl s)) p2 (constructsDirectory c2) = Ok q2 →
  ∃ e1 e2 s1 s2,
    _getEntryForPath c1 p1 s = (s1, Ok e1)
    ∧ _getEntryForPath c2 p2 (getMany between s1) = (s2, Ok e2)
    ∧ fullPath e1 = q1
    ∧ fullPath e2 = q2
    ∧ (sameEntry e1 e2 = true ↔ q1 = q2)
    ∧ (q1 = q2 → e1 = e2).
Proof.
  intros Hr H1 H2. apply reachable_intern in Hr.
  destruct (getEntryForPath_returns c1 p1 q1 s H1) as (e1 & s1 & Hget1 & Himpl1 & Hidx1 & _).
  assert (Hinv1 : internInvariant s1).
  { pose proof (getEntryForPath_invariant c1 p1 s Hr) as H.
    unfold exec in H. by rewrite Hget1 in H. }
  destruct (getMany_keeps between s1) as (Himpl & Hkeep & _).
  pose proof (getMany_invariant between s1 Hinv1) as Hinv.
  set (sb := getMany between s1) in *.
  assert (H2' : Path._normalizePath (normalizeUNCPaths (_impl sb)) p2
                  (constructsDirectory c2) = Ok q2) by (by rewrite Himpl, Himpl1).
  destruct (getEntryForPath_returns c2 p2 q2 sb H2') as (e2 & s2 & Hget2 & _ & Hidx2 & _).
  assert (Hinv2 : internInvariant s2).
  { pose proof (getEntryForPath_invariant c2 p2 sb Hinv) as H.
    unfold exec in H. by rewrite Hget2 in H. }
  assert (Hidx1' : _index s2 !! q1 = Some e1).
  { destruct (getEntryForPath_keeps c2 p2 sb) as (_ & Hk & _).
    unfold exec in Hk. rewrite Hget2 in Hk. apply Hk, Hkeep, Hidx1. }
  destruct Hinv2 as (Hwf & _ & Hinj).
  exists e1, e2, s1, s2. split; [exact Hget1|]. split; [exact Hget2|].
  split; [by apply Hwf|]. split; [by apply Hwf|]. split; [split|].
  - intros Hsame. apply Nat.eqb_eq in Hsame. by eapply Hinj.
  - intros <-. unfold sameEntry. apply Nat.eqb_eq. congruence.
  - intros <-. congruence.
Qed.

Lemma same_handle_iff_same_normal_form_witness :
  ∃ e1 e2 s1 s2,
    getFileForPath "/a/b" (init recursiveImpl) = (s1, Ok e1)
    ∧ getDirectoryForPath "/a//b" s1 = (s2, Ok e2)
    ∧ fullPath e1 = "/a/b"
    ∧ fullPath e2 = "/a/b/"
    ∧ sameEntry e1 e2 = false.
Proof.
  destruct (same_handle_iff_same_normal_form File Directory [] "/a/b" "/a//b"
              "/a/b" "/a/b/" (init recursiveImpl))
    as (e1 & e2 & s1 & s2 & H1 & H2 & H3 & H4 & H5 & _).
  - by exists recursiveImpl, [].
  - vm_compute. reflexivity.
  - vm_compute. reflexivity.
  - exists e1, e2, s1, s2. repeat split; try assumption.
    destruct (sameEntry e1 e2); [|reflexivity].
    destruct H5 as [H5 _]. specialize (H5 eq_refl). discriminate H5.
Defined.

(** X9. A file path whose normal form ends with a slash has the normal form
    of the directory: [getFileForPath] and [getDirectoryForPath] then share
    one index key and return one object, a [File] if the file was asked for
    first and a [Directory] if the directory was. *)
Theorem trailing_slash_shares_handle (p q : string) (s : FileSystem) :
  Path._normalizePath (normalizeUNCPaths (_impl s)) p false = Ok q →
  Path.lastChar q = Some "/"%char →
  normalizeUNCPaths (_impl s) && Path.searchDuplicatedSlash0 p = false ∨ q ≠ "/" →
  Path._normalizePath (normalizeUNCPaths (_impl s)) p true = Ok q
  ∧ (∃ e s1,
       getFileForPath p s = (s1, Ok e)
       ∧ getDirectoryForPath p s1 = (s1, Ok e)
       ∧ (_index s !! q = None → isDirectory e = false))
  ∧ (∃ e s1,
       getDirectoryForPath p s = (s1, Ok e)
       ∧ getFileForPath p s1 = (s1, Ok e)
       ∧ (_index s !! q = None → isDirectory e = true)).
Proof.
  intros Hf Hlast Hunc.
  assert (Hd : Path._normalizePath (normalizeUNCPaths (_impl s)) p true = Ok q).
  { pose proof (normalizePath_absolute _ _ _ _ Hf) as Habs.
    rewrite (normalizePath_unfold _ _ _ Habs) in Hf.
    rewrite (normalizePath_unfold _ _ _ Habs).
    assert (Hstable : Path._appendTrailingSlash q = q)
      by (apply appendTrailingSlash_stable; by rewrite Hlast).
    destruct (Path.indexOf _ "..").
    - destruct (Path.removeDotDot _ 1 _) as [out|e]; [|discriminate Hf].
      injection Hf as Hf. destruct (finishPath_directory _ _ _ _ Hf) as [H1 _].
      by rewrite H1, Hstable.
    - injection Hf as Hf. destruct (finishPath_directory _ _ _ _ Hf) as [H1 _].
      by rewrite H1, Hstable. }
  split; [exact Hd|]. unfold getFileForPath, getDirectoryForPath. split.
  - destruct (getEntryForPath_returns File p q s Hf) as (e & s1 & Hget & Himpl & Hidx & Hkind).
    exists e, s1. split; [exact Hget|]. split; [|exact Hkind].
    apply getEntryForPath_found with (q := q); [by rewrite Himpl|exact Hidx].
  - destruct (getEntryForPath_returns Directory p q s Hd)
      as (e & s1 & Hget & Himpl & Hidx & Hkind).
    exists e, s1. split; [exact Hget|]. split; [|exact Hkind].
    apply getEntryForPath_found with (q := q); [by rewrite Himpl|exact Hidx].
Qed.

Lemma trailing_slash_shares_handle_witness :
  ∃ e s1, getFileForPath "/a/b/" (init recursiveImpl) = (s1, Ok e)
          ∧ getDirectoryForPath "/a/b/" s1 = (s1, Ok e)
          ∧ isDirectory e = false.
Proof.
  destruct (trailing_slash_shares_handle "/a/b/" "/a/b/" (init recursiveImpl))
    as (_ & (e & s1 & H1 & H2 & H3) & _).
  - vm_compute. reflexivity.
  - vm_compute. reflexivity.
  - by left.
  - exists e, s1. split; [exact H1|]. split; [exact H2|]. by apply H3.
Defined.

End Index.

(** ** The watch-request queue, one call at a time *)

Section QueueSteps.

Lemma callFn_started request s : callFn request s = (started request s, Ok tt).
Proof.
  unfold callFn, started, fnEvent, fnContinuation. monad_unfold.
  destruct (fn request); simpl; rewrite <- app_assoc; reflexivity.
Qed.

Lemma dequeueWatchRequest_outcome s :
  _dequeueWatchRequest s =
    (match _watchRequests s with
     | request :: _ => started request s
     | [] => s
     end, Ok tt).
Proof.
  unfold _dequeueWatchRequest. monad_unfold.
  destruct (_watchRequests s); [reflexivity|apply callFn_started].
Qed.

Lemma enqueueWatchRequest_outcome fn cb s :
  let request := {| rid := nextId s; fn := fn; cb := cb |} in
  _enqueueWatchRequest fn cb s =
    (match _watchRequests s with
     | [] => started request (enqueued request s)
     | _ :: _ => enqueued request s
     end, Ok tt).
Proof.
  cbv zeta. unfold _enqueueWatchRequest. monad_unfold. simpl.
  destruct (_watchRequests s) as [|r0 [|r1 rest]] eqn:E; simpl.
  - rewrite dequeueWatchRequest_outcome. simpl. unfold enqueued. rewrite E. reflexivity.
  - unfold enqueued. rewrite E. reflexivity.
  - unfold enqueued. rewrite E. reflexivity.
Qed.

Lemma callBack_at (k : Continuation) reply s i ks :
  pending s = ks ++ [k] → i = List.length ks →
  callBack i reply s = resume k reply (set_pending ks s).
Proof.
  intros Hp ->. unfold callBack. unfold bind at 1. unfold gets at 1. rewrite Hp.
  rewrite list_lookup_middle by reflexivity.
  unfold bind, modify. rewrite delete_middle, app_nil_r. reflexivity.
Qed.

Lemma shift_dequeue_outcome s :
  (shiftWatchRequests ;; _dequeueWatchRequest) s =
  (match _watchRequests s with
   | [] => s
   | request :: rest =>
       let s1 := set_trace (trace s ++ [Shifted (rid request)])
                   (set_watchRequests rest s) in
       match rest with
       | next :: _ => started next s1
       | [] => s1
       end
   end, Ok tt).
Proof.
  unfold shiftWatchRequests. monad_unfold.
  destruct (_watchRequests s) as [|r rest] eqn:E; simpl.
  - rewrite dequeueWatchRequest_outcome, E. reflexivity.
  - rewrite dequeueWatchRequest_outcome. simpl. destruct rest; reflexivity.
Qed.

End QueueSteps.

(** ** watch *)

Section Watch.

Lemma callClient_outcome (c : ClientCallback) err s :
  callClient (Some c) err s =
    (set_trace (trace s ++ [Called (cbTag c) err]) s,
     if cbThrows c err then Throw (CallbackError (cbTag c)) else Ok tt).
Proof.
  unfold callClient. monad_unfold. simpl. destruct (cbThrows c err); reflexivity.
Qed.

(** [watch] either reports an active parent root, or registers the new root
    and enqueues the request to watch it; the test for a watched child root
    selects nothing. *)
Lemma watch_outcome entry filter callback s :
  let s0 := set_nextId (S (nextId s)) s in
  let root := {| rootId := nextId s; root_entry := entry; root_filter := filter |} in
  watch entry filter callback s =
    if match watchingParentRoot s (fullPath entry) with
       | Some r => bool_decide (rootId r ∈ activeRoots s)
       | None => false
       end
    then callClient callback (Some ParentAlreadyWatched) s0
    else _enqueueWatchRequest (rootRequestFn (_impl s) true root)
           (WatchCb (fullPath entry) entry root callback)
           (set_watchedRoots (setRoot (fullPath entry) root (_watchedRoots s)) s0).
Proof.
  cbv zeta. unfold watch, _findWatchedRootForPath, watchingParentRoot. monad_unfold. simpl.
  assert (Hw : ∀ cb s1,
    _watchEntry entry {| rootId := nextId s; root_entry := entry; root_filter := filter |} cb s1
    = _enqueueWatchRequest
        (rootRequestFn (_impl s1) true
           {| rootId := nextId s; root_entry := entry; root_filter := filter |}) cb s1).
  { intros cb s1. unfold _watchEntry, _watchOrUnwatchEntry, rootRequestFn, sameEntry.
    monad_unfold. simpl. rewrite Nat.eqb_refl. simpl.
    destruct (recursiveWatch (_impl s1)); reflexivity. }
  destruct (snd <$> find _ (_watchedRoots s)) as [r|]; simpl.
  - unfold isActive. monad_unfold. simpl.
    destruct (bool_decide (rootId r ∈ activeRoots s)); [reflexivity|].
    rewrite andb_false_r. rewrite Hw. reflexivity.
  - rewrite andb_false_r. rewrite Hw. reflexivity.
Qed.

Lemma prefix_refl (p : string) : String.prefix p p = true.
Proof.
  induction p as [|c p IH]; [reflexivity|]. simpl.
  destruct (ascii_dec c c); [exact IH|contradiction].
Qed.

Lemma startsWith_refl (p : string) : Path.startsWith p p = true.
Proof.
  unfold Path.startsWith.
  destruct p; simpl; [reflexivity|].
  destruct (ascii_dec a a); [|contradiction]. rewrite prefix_refl. reflexivity.
Qed.

Lemma watch_newEvents entry filter (c : ClientCallback) s :
  newEvents (watch entry filter (Some c)) s =
    if match watchingParentRoot s (fullPath entry) with
       | Some r => bool_decide (rootId r ∈ activeRoots s)
       | None => false
       end
    then [Called (cbTag c) (Some ParentAlreadyWatched)]
    else
      let request :=
        {| rid := S (nextId s);
           fn := rootRequestFn (_impl s) true
                   {| rootId := nextId s; root_entry := entry; root_filter := filter |};
           cb := WatchCb (fullPath entry) entry
                   {| rootId := nextId s; root_entry := entry; root_filter := filter |}
                   (Some c) |} in
      match _watchRequests s with
      | [] => [Enqueued (S (nextId s)); Started (S (nextId s)); fnEvent request]
      | _ :: _ => [Enqueued (S (nextId s))]
      end.
Proof.
  unfold newEvents, exec. rewrite watch_outcome.
  destruct (match watchingParentRoot s (fullPath entry) with
            | Some r => bool_decide (rootId r ∈ activeRoots s)
            | None => false
            end).
  - rewrite callClient_outcome. simpl. apply drop_app_length.
  - rewrite enqueueWatchRequest_outcome. simpl.
    destruct (_watchRequests s); simpl.
    + rewrite <- app_assoc. apply drop_app_length.
    + apply drop_app_length.
Qed.

Ltac refute_event H :=
  repeat (apply elem_of_cons in H as [H|H];
          [try discriminate H;
           unfold fnEvent, rootRequestFn, implCommand in H; simpl in H;
           repeat match type of H with
                  | context [recursiveWatch ?i] => destruct (recursiveWatch i)
                  end;
           discriminate H|]);
  by apply elem_of_nil in H.

Lemma watchFailsWith_parent_iff s entry filter c :
  watchFailsWith ParentAlreadyWatched s entry filter c
  ↔ ∃ root, watchingParentRoot s (fullPath entry) = Some root
            ∧ rootId root ∈ activeRoots s.
Proof.
  unfold watchFailsWith. rewrite watch_newEvents.
  destruct (watchingParentRoot s (fullPath entry)) as [r|].
  - destruct (bool_decide_reflect (rootId r ∈ activeRoots s)) as [Hin|Hnin].
    + split; [eauto|]. intros _. apply list_elem_of_here.
    + split.
      * intros H. exfalso. destruct (_watchRequests s); refute_event H.
      * intros (root & [= <-] & Hin). contradiction.
  - split.
    + intros H. exfalso. destruct (_watchRequests s); refute_event H.
    + intros (root & [=] & _).
Qed.

Lemma watchingParentRoot_Some s path root :
  watchingParentRoot s path = Some root →
  ∃ p, (p, root) ∈ _watchedRoots s ∧ Path.startsWith path p = true.
Proof.
  unfold watchingParentRoot. intros H.
  destruct (find _ _) as [[p r]|] eqn:Hf; [|discriminate].
  injection H as <-. apply find_some in Hf as [Hin Hp].
  exists p. split; [by apply list_elem_of_In|exact Hp].
Qed.

Lemma watchingParentRoot_None s path p root :
  watchingParentRoot s path = None →
  (p, root) ∈ _watchedRoots s → Path.startsWith path p = false.
Proof.
  unfold watchingParentRoot. intros H Hin.
  destruct (find _ _) as [[p' r]|] eqn:Hf; [discriminate|].
  apply list_elem_of_In in Hin.
  apply (find_none _ _ Hf) in Hin. exact Hin.
Qed.

(** C6, amended. If [watch] fails with [ParentAlreadyWatched], some active
    watched root has a path that is a prefix of the path of the entry, the
    path itself included, and the registry, the active flags and the queue
    are left as they were.  Conversely, where every registered root whose
    path is such a prefix is active, [watch] fails with
    [ParentAlreadyWatched] as soon as there is one, and so it does on the
    very path of an active watched root.  Nothing is said of a state in
    which an inactive registered root has such a path as well. *)
Theorem watch_parent_already_watched (s : FileSystem) (entry : Entry)
    (filter : Filter) (c : ClientCallback) :
  (watchFailsWith ParentAlreadyWatched s entry filter c →
     (∃ path, activeRootAt s path ∧ Path.startsWith (fullPath entry) path = true)
     ∧ _watchedRoots (exec (watch entry filter (Some c)) s) = _watchedRoots s
     ∧ _watchRequests (exec (watch entry filter (Some c)) s) = _watchRequests s
     ∧ activeRoots (exec (watch entry filter (Some c)) s) = activeRoots s)
  ∧ ((∀ path, inactiveRootAt s path → Path.startsWith (fullPath entry) path = false) →
       ((∃ path, activeRootAt s path ∧ Path.startsWith (fullPath entry) path = true) →
          watchFailsWith ParentAlreadyWatched s entry filter c)
       ∧ (activeRootAt s (fullPath entry) →
          watchFailsWith ParentAlreadyWatched s entry filter c)).
Proof.
  assert (Hback :
    (∀ path, inactiveRootAt s path → Path.startsWith (fullPath entry) path = false) →
    (∃ path, activeRootAt s path ∧ Path.startsWith (fullPath entry) path = true) →
    watchFailsWith ParentAlreadyWatched s entry filter c).
  { intros Hno (path & (root & Hin & Hact) & Hpre).
    apply watchFailsWith_parent_iff.
    destruct (watchingParentRoot s (fullPath entry)) as [r|] eqn:Hw.
    - exists r. split; [reflexivity|].
      destruct (decide (rootId r ∈ activeRoots s)) as [|Hnot]; [assumption|].
      apply watchingParentRoot_Some in Hw as (p & Hp & Hpp).
      rewrite (Hno p) in Hpp; [discriminate|]. by exists r.
    - rewrite (watchingParentRoot_None _ _ _ _ Hw Hin) in Hpre. discriminate. }
  split.
  - intros H. apply watchFailsWith_parent_iff in H as (root & Hw & Hact).
    split.
    + apply watchingParentRoot_Some in Hw as (p & Hp & Hpp).
      exists p. split; [by exists root|exact Hpp].
    + unfold exec. rewrite watch_outcome, Hw.
      rewrite bool_decide_eq_true_2 by exact Hact.
      rewrite callClient_outcome. done.
  - intros Hno. split; [exact (Hback Hno)|].
    intros Hact. apply (Hback Hno).
    exists (fullPath entry). split; [exact Hact|apply startsWith_refl].
Qed.

Lemma projWatched_roots :
  _watchedRoots projWatched
  = [("/proj/", {| rootId := 1; root_entry := projEntry; root_filter := acceptAll |})]
  ∧ activeRoots projWatched = {[1]}
  ∧ _watchRequests projWatched = []
  ∧ trace projWatched
    = [Enqueued 2; Started 2; WatchPath "/proj/"; Called 1 None; Shifted 2].
Proof. vm_compute. repeat split; reflexivity. Qed.

(** Watching a second time the root that is being watched. *)
Lemma watch_parent_already_watched_witness :
  watchFailsWith ParentAlreadyWatched projWatched projEntry acceptAll (quiet 2).
Proof.
  destruct (watch_parent_already_watched projWatched projEntry acceptAll (quiet 2))
    as [_ H].
  destruct H as [_ H].
  - intros path (root & Hin & Hnot).
    destruct projWatched_roots as (Hr & Ha & _). rewrite Hr in Hin. rewrite Ha in Hnot.
    apply list_elem_of_singleton in Hin. injection Hin as -> ->.
    exfalso. apply Hnot. apply elem_of_singleton. reflexivity.
  - apply H.
    exists {| rootId := 1; root_entry := projEntry; root_filter := acceptAll |}.
    destruct projWatched_roots as (Hr & Ha & _). rewrite Hr, Ha.
    split; [apply list_elem_of_here|]. apply elem_of_singleton. reflexivity.
Defined.

(** C6 as stated fails: [watch] on the very path of an active watched root
    fails with [ParentAlreadyWatched], and that path is a strict prefix of
    no watched root's path. *)
Lemma watch_same_root_not_strict_prefix :
  ¬ parentAlreadyWatched_iff_strict_prefix projWatched projEntry acceptAll (quiet 2).
Proof.
  intros [H _].
  destruct H as (path & (root & Hin & _) & _ & Hne).
  - unfold watchFailsWith.
    replace (newEvents (watch projEntry acceptAll (Some (quiet 2))) projWatched)
      with [Called 2 (Some ParentAlreadyWatched)] by (vm_compute; reflexivity).
    apply list_elem_of_here.
  - destruct projWatched_roots as (Hr & _). rewrite Hr in Hin.
    apply list_elem_of_singleton in Hin. injection Hin as -> _.
    apply Hne. reflexivity.
Qed.

(** The first registered root whose path is a prefix hides the others from
    [_findWatchedRootForPath]: while ["/"], registered first, is being
    unwatched and ["/proj/"] is active, [watch("/proj/sub/")] is not
    refused; it registers the root and enqueues its request. *)
Lemma watch_below_root_being_unwatched :
  let sub := newEntry 7 "/proj/sub/" true in
  let after := exec (watch sub acceptAll (Some (quiet 4))) rootBeingUnwatched in
  _index rootBeingUnwatched !! "/proj/sub/" = Some sub
  ∧ map fst (_watchedRoots rootBeingUnwatched) = ["/"; "/proj/"]
  ∧ inactiveRootAt rootBeingUnwatched "/"
  ∧ activeRootAt rootBeingUnwatched "/proj/"
  ∧ strictPrefix "/proj/" (fullPath sub)
  ∧ newEvents (watch sub acceptAll (Some (quiet 4))) rootBeingUnwatched = [Enqueued 9]
  ∧ ¬ watchFailsWith ParentAlreadyWatched rootBeingUnwatched sub acceptAll (quiet 4)
  ∧ map fst (_watchedRoots after) = ["/"; "/proj/"; "/proj/sub/"].
Proof.
  cbv zeta.
  assert (Hr : _watchedRoots rootBeingUnwatched
    = [("/", {| rootId := 1; root_entry := newEntry 0 "/" true; root_filter := acceptAll |});
       ("/proj/", {| rootId := 4; root_entry := newEntry 3 "/proj/" true;
                     root_filter := acceptAll |})]) by (vm_compute; reflexivity).
  assert (Ha : activeRoots rootBeingUnwatched = {[4]} ∪ (({[1]} ∪ ∅) ∖ {[1]})).
  { vm_compute. reflexivity. }
  assert (Hev : newEvents (watch (newEntry 7 "/proj/sub/" true) acceptAll (Some (quiet 4)))
                  rootBeingUnwatched = [Enqueued 9]) by (vm_compute; reflexivity).
  split; [vm_compute; reflexivity|]. split; [rewrite Hr; reflexivity|]. split.
  { eexists. rewrite Hr, Ha. split; [apply list_elem_of_here|]. simpl.
    intros [H|H]%elem_of_union.
    - apply elem_of_singleton in H. discriminate H.
    - apply elem_of_difference in H as [_ H]. apply H, elem_of_singleton. reflexivity. }
  split.
  { eexists. rewrite Hr, Ha.
    split; [apply list_elem_of_further, list_elem_of_here|]. simpl.
    apply elem_of_union_l, elem_of_singleton. reflexivity. }
  split; [split; [vm_compute; reflexivity|discriminate]|].
  split; [exact Hev|]. split.
  { unfold watchFailsWith. rewrite Hev. intros H.
    apply list_elem_of_singleton in H. discriminate H. }
  vm_compute. reflexivity.
Qed.

(** C1, evaluated: after [watch("/proj")] has succeeded, the path ["/"] is
    a strict prefix of the path of an active watched root, and [watch("/")]
    calls nobody back with an error: it registers ["/"] next to ["/proj/"]
    and asks the backend to watch it. *)
Theorem watch_root_above_watched_root :
  let before := exec (getDirectoryForPath "/") projWatched in
  let rootEntry := newEntry 3 "/" true in
  let newRoot := {| rootId := 4; root_entry := rootEntry; root_filter := acceptAll |} in
  getDirectoryForPath "/" projWatched = (before, Ok rootEntry)
  ∧ activeRootAt before "/proj/"
  ∧ strictPrefix (fullPath rootEntry) "/proj/"
  ∧ watch rootEntry acceptAll (Some (quiet 2)) before
    = (exec (watch rootEntry acceptAll (Some (quiet 2))) before, Ok tt)
  ∧ newEvents (watch rootEntry acceptAll (Some (quiet 2))) before
    = [Enqueued 5; Started 5; WatchPath "/"]
  ∧ ¬ watchFailsWith ChildAlreadyWatched before rootEntry acceptAll (quiet 2)
  ∧ map fst (_watchedRoots (exec (watch rootEntry acceptAll (Some (quiet 2))) before))
    = ["/proj/"; "/"]
  ∧ lookupRoot "/" (_watchedRoots (exec (watch rootEntry acceptAll (Some (quiet 2))) before))
    = Some newRoot.
Proof.
  cbv zeta.
  assert (Hev : newEvents (watch (newEntry 3 "/" true) acceptAll (Some (quiet 2)))
                  (exec (getDirectoryForPath "/") projWatched)
                = [Enqueued 5; Started 5; WatchPath "/"]) by (vm_compute; reflexivity).
  split; [vm_compute; reflexivity|]. split.
  { exists {| rootId := 1; root_entry := projEntry; root_filter := acceptAll |}.
    replace (_watchedRoots (exec (getDirectoryForPath "/") projWatched))
      with [("/proj/", {| rootId := 1; root_entry := projEntry; root_filter := acceptAll |})]
      by (vm_compute; reflexivity).
    replace (activeRoots (exec (getDirectoryForPath "/") projWatched))
      with (activeRoots projWatched) by (vm_compute; reflexivity).
    destruct projWatched_roots as (_ & -> & _).
    split; [apply list_elem_of_here|]. apply elem_of_singleton. reflexivity. }
  split; [split; [vm_compute; reflexivity|discriminate]|].
  split; [vm_compute; reflexivity|]. split; [exact Hev|]. split.
  { unfold watchFailsWith. rewrite Hev. intros H.
    repeat (apply elem_of_cons in H as [H|H]; [discriminate H|]).
    by apply elem_of_nil in H. }
  split; vm_compute; reflexivity.
Qed.

End Watch.

(** ** unwatch *)

Section Unwatch.

Lemma set_index_same s : set_index (_index s) s = s.
Proof. destruct s; reflexivity. Qed.

Lemma set_cached_same s : set_cached (cached s) s = s.
Proof. destruct s; reflexivity. Qed.

Lemma forEach_prune prefix (l : list Entry) s :
  forEach l (λ child,
      if Path.startsWith (fullPath child) prefix
      then modify (λ s, set_index (FileIndex.removeEntry child (_index s)) s)
      else ret tt) s
  = (set_index
       (foldl (λ idx child,
                 if Path.startsWith (fullPath child) prefix
                 then FileIndex.removeEntry child idx else idx) (_index s) l) s,
     Ok tt).
Proof.
  revert s. induction l as [|x l IH]; intros s; simpl.
  - rewrite set_index_same. reflexivity.
  - unfold bind. destruct (Path.startsWith (fullPath x) prefix).
    + unfold modify. rewrite IH. reflexivity.
    + unfold ret. rewrite IH. reflexivity.
Qed.

Lemma forEach_clear prefix (l : list Entry) s :
  forEach l (λ child,
      if Path.startsWith (fullPath child) prefix
      then _clearCachedData child else ret tt) s
  = (set_cached
       (foldl (λ cache child,
                 if Path.startsWith (fullPath child) prefix
                 then delete (eid child) cache else cache) (cached s) l) s,
     Ok tt).
Proof.
  revert s. induction l as [|x l IH]; intros s; simpl.
  - rewrite set_cached_same. reflexivity.
  - unfold bind. destruct (Path.startsWith (fullPath x) prefix).
    + unfold _clearCachedData, modify. rewrite IH. reflexivity.
    + unfold ret. rewrite IH. reflexivity.
Qed.

Lemma foldl_prune_lookup prefix (l : list Entry) (index : gmap string Entry) p e :
  foldl (λ idx child,
           if Path.startsWith (fullPath child) prefix
           then FileIndex.removeEntry child idx else idx) index l !! p = Some e
  ↔ index !! p = Some e
    ∧ ∀ child, child ∈ l → Path.startsWith (fullPath child) prefix = true →
               fullPath child ≠ p.
Proof.
  revert index. induction l as [|x l IH]; intros index; simpl.
  - split; [intros H; split; [exact H|]|intros [H _]; exact H].
    intros child Hc. by apply elem_of_nil in Hc.
  - rewrite IH. destruct (Path.startsWith (fullPath x) prefix) eqn:Hx.
    + unfold FileIndex.removeEntry. split.
      * intros [Hl Hrest]. apply lookup_delete_Some in Hl as [Hne Hl].
        split; [exact Hl|]. intros child Hc Hs.
        apply elem_of_cons in Hc as [->|Hc]; [exact Hne|by apply Hrest].
      * intros [Hl Hall]. split.
        -- apply lookup_delete_Some. split; [|exact Hl].
           apply Hall; [apply list_elem_of_here|exact Hx].
        -- intros child Hc. apply Hall. by apply list_elem_of_further.
    + split.
      * intros [Hl Hrest]. split; [exact Hl|]. intros child Hc Hs.
        apply elem_of_cons in Hc as [->|Hc]; [congruence|by apply Hrest].
      * intros [Hl Hall]. split; [exact Hl|].
        intros child Hc. apply Hall. by apply list_elem_of_further.
Qed.

(** What is left in the pruned index: the entries whose path does not
    begin with [prefix]. *)
Lemma pruneIndex_lookup prefix (index : gmap string Entry) p e :
  FileIndex.wf index →
  pruneIndex prefix index !! p = Some e
  ↔ index !! p = Some e ∧ Path.startsWith (fullPath e) prefix = false.
Proof.
  intros Hwf. unfold pruneIndex. rewrite foldl_prune_lookup. split.
  - intros [Hl Hall]. split; [exact Hl|].
    destruct (Path.startsWith (fullPath e) prefix) eqn:Hs; [|reflexivity].
    exfalso. apply (Hall e); [|exact Hs|by apply Hwf].
    unfold FileIndex.entries. apply list_elem_of_fmap.
    exists (p, e). split; [reflexivity|]. by apply elem_of_map_to_list.
  - intros [Hl Hs]. split; [exact Hl|].
    intros child Hc Hcs Heq.
    unfold FileIndex.entries in Hc. apply list_elem_of_fmap in Hc as ([p' e'] & -> & Hin).
    apply elem_of_map_to_list in Hin. simpl in *.
    assert (p' = p) as -> by (rewrite <- (Hwf _ _ Hin); exact Heq).
    assert (e' = e) as -> by congruence. congruence.
Qed.

Lemma lookupRoot_deleteRoot path roots : lookupRoot path (deleteRoot path roots) = None.
Proof.
  unfold lookupRoot, deleteRoot.
  induction roots as [|[p r] roots IH]; simpl; [reflexivity|].
  destruct (String.eqb p path) eqn:E; simpl; [exact IH|].
  rewrite E. exact IH.
Qed.

(** The state in which [unwatchDone] calls the client back. *)
Lemma applyCallback_unwatchDone entry (c : ClientCallback) err s :
  applyCallback (unwatchDone entry (Some c)) err s =
    callClient (Some c) (surfaced err)
      (set_trace
         (trace s ++ (if truthyErr err
                      then [ConsoleWarn "Failed to unwatch root: " (fullPath entry)]
                      else []))
         (set_index (pruneIndex (fullPath entry) (_index s))
            (set_watchedRoots (deleteRoot (fullPath entry) (_watchedRoots s))
               (set_cached (clearCachedBelow (fullPath entry) (_index s) (cached s)) s)))).
Proof.
  unfold unwatchDone, surfaced. simpl. unfold visitAll.
  unfold bind at 1. unfold bind at 1. unfold gets at 1.
  rewrite forEach_clear.
  unfold bind at 1. unfold modify at 1.
  unfold bind at 1. unfold bind at 1. unfold gets at 1.
  rewrite forEach_prune. simpl.
  destruct (truthyErr err).
  - unfold bind, emit, modify. simpl. reflexivity.
  - rewrite app_nil_r. reflexivity.
Qed.

Lemma unwatch_outcome entry callback watchedRoot s :
  lookupRoot (fullPath entry) (_watchedRoots s) = Some watchedRoot →
  unwatch entry callback s =
    let s1 := set_activeRoots (activeRoots s ∖ {[rootId watchedRoot]}) s in
    if recursiveWatch (_impl s) then
      if negb (sameEntry entry (root_entry watchedRoot))
      then applyCallback (unwatchDone entry callback) None s1
      else _enqueueWatchRequest (ImplFn false entry) (unwatchDone entry callback) s1
    else _enqueueWatchRequest (VisitFn false entry watchedRoot)
           (unwatchDone entry callback) s1.
Proof.
  intros H. cbv zeta. unfold unwatch. unfold bind at 1. unfold gets at 1. rewrite H.
  unfold bind at 1. unfold setActive, modify at 1.
  unfold _unwatchEntry, _watchOrUnwatchEntry. unfold bind at 1. unfold gets at 1.
  simpl. destruct (recursiveWatch (_impl s)); [|reflexivity].
  destruct (negb _); reflexivity.
Qed.

(** What [unwatch] does for a watched root.  It makes the root inactive
    and dispatches one unwatch request, completed by [unwatchDone] (or
    completes at once, for an entry object other than the root's under a
    recursive backend).  Whenever the request completes, and whatever its
    error, the root is deleted from the registry, the index keeps exactly
    the entries whose path does not begin with the root's, and the client
    is called back with the error of the request if there is one, with
    [null] otherwise.  Under a recursive-watch backend the error of the
    request is the one the backend passes to the continuation of
    [unwatchPath]; under a non-recursive backend the continuation of
    [unwatchPath] does not read what the backend passes. *)
Theorem unwatch_removes_root_and_prunes (s : FileSystem) (entry : Entry)
    (c : ClientCallback) (watchedRoot : WatchedRoot) :
  lookupRoot (fullPath entry) (_watchedRoots s) = Some watchedRoot →
  unwatch entry (Some c) s =
    (let s1 := set_activeRoots (activeRoots s ∖ {[rootId watchedRoot]}) s in
     if recursiveWatch (_impl s) then
       if negb (sameEntry entry (root_entry watchedRoot))
       then applyCallback (unwatchDone entry (Some c)) None s1
       else _enqueueWatchRequest (ImplFn false entry) (unwatchDone entry (Some c)) s1
     else _enqueueWatchRequest (VisitFn false entry watchedRoot)
            (unwatchDone entry (Some c)) s1)
  ∧ (∀ s1 err, FileIndex.wf (_index s1) →
       let s2 := exec (applyCallback (unwatchDone entry (Some c)) err) s1 in
       lookupRoot (fullPath entry) (_watchedRoots s2) = None
       ∧ (∀ p e, _index s2 !! p = Some e
                 ↔ _index s1 !! p = Some e
                   ∧ Path.startsWith (fullPath e) (fullPath entry) = false)
       ∧ newEvents (applyCallback (unwatchDone entry (Some c)) err) s1
         = (if truthyErr err
            then [ConsoleWarn "Failed to unwatch root: " (fullPath entry)]
            else []) ++ [Called (cbTag c) (surfaced err)])
  ∧ (FileIndex.wf (_index s) →
     recursiveWatch (_impl s) = true →
     sameEntry entry (root_entry watchedRoot) = true →
     _watchRequests s = [] →
     ∀ err,
       let run := unwatch entry (Some c) ;;
                  callBack (List.length (pending s))
                    {| reply_err := err; reply_entries := [] |} in
       lookupRoot (fullPath entry) (_watchedRoots (exec run s)) = None
       ∧ (∀ p e, _index (exec run s) !! p = Some e
                 ↔ _index s !! p = Some e
                   ∧ Path.startsWith (fullPath e) (fullPath entry) = false)
       ∧ newEvents run s
         = [Enqueued (nextId s); Started (nextId s); UnwatchPath (fullPath entry)]
           ++ (if truthyErr err
               then [ConsoleWarn "Failed to unwatch root: " (fullPath entry)]
               else [])
           ++ [Called (cbTag c) (surfaced err); Shifted (nextId s)]
       ∧ _watchRequests (exec run s) = [])
  ∧ (∀ count request reply,
       resume (CountdownCb count request) reply
       = resume (CountdownCb count request) success).
Proof.
  intros Hl. split; [exact (unwatch_outcome _ _ _ _ Hl)|]. split; [|split].
  - intros s1 err Hwf. cbv zeta. unfold newEvents, exec.
    rewrite applyCallback_unwatchDone, callClient_outcome. simpl.
    split; [apply lookupRoot_deleteRoot|]. split.
    + intros p e. by apply pruneIndex_lookup.
    + rewrite <- app_assoc. apply drop_app_length.
  - intros Hwf Hrec Hsame Hq err. cbv zeta. unfold newEvents, exec.
    match goal with |- context [bind ?m ?k s] => remember (bind m k s) as out eqn:Hout end.
    unfold bind in Hout. rewrite (unwatch_outcome _ _ _ _ Hl) in Hout. cbv zeta in Hout.
    rewrite Hrec, Hsame in Hout. simpl negb in Hout. cbv iota in Hout.
    rewrite enqueueWatchRequest_outcome in Hout. cbv zeta in Hout.
    simpl _watchRequests in Hout. rewrite Hq in Hout.
    erewrite callBack_at in Hout; [|reflexivity|reflexivity].
    unfold fnContinuation in Hout. simpl fn in Hout. cbv iota in Hout.
    unfold resume in Hout. simpl reply_err in Hout.
    unfold requestCb, tryFinally in Hout. simpl cb in Hout.
    rewrite applyCallback_unwatchDone, callClient_outcome in Hout.
    rewrite shift_dequeue_outcome in Hout. simpl _watchRequests in Hout.
    rewrite Hq in Hout. simpl in Hout. subst out. simpl.
    split; [apply lookupRoot_deleteRoot|]. split; [|split; [|reflexivity]].
    + intros p e. by apply pruneIndex_lookup.
    + rewrite <- !app_assoc. simpl. rewrite drop_app_length.
      destruct (truthyErr err); reflexivity.
  - reflexivity.
Qed.

(** Unwatching ["/proj/"] under a recursive-watch backend that reports the
    failure ["NotFound"], with an entry ["/proj/a.txt"] in the index. *)
Lemma unwatch_removes_root_and_prunes_witness :
  let s := exec (getFileForPath "/proj/a.txt") projWatched in
  let run := unwatch projEntry (Some (quiet 2)) ;; callBack 0 (failure "NotFound") in
  _index s !! "/proj/a.txt" = Some (newEntry 3 "/proj/a.txt" false)
  ∧ lookupRoot "/proj/" (_watchedRoots (exec run s)) = None
  ∧ _index (exec run s) !! "/proj/a.txt" = None
  ∧ newEvents run s
    = [Enqueued 4; Started 4; UnwatchPath "/proj/";
       ConsoleWarn "Failed to unwatch root: " "/proj/";
       Called 2 (Some "NotFound"); Shifted 4].
Proof.
  cbv zeta.
  assert (Hidx : _index (exec (getFileForPath "/proj/a.txt") projWatched)
                 = FileIndex.addEntry (newEntry 3 "/proj/a.txt" false)
                     (FileIndex.addEntry projEntry ∅)) by (vm_compute; reflexivity).
  assert (Hwf : FileIndex.wf (_index (exec (getFileForPath "/proj/a.txt") projWatched))).
  { rewrite Hidx. intros p e. unfold FileIndex.addEntry.
    rewrite !lookup_insert_Some, lookup_empty.
    intros [[<- <-]|[_ [[<- <-]|[_ H]]]]; [reflexivity|reflexivity|discriminate H]. }
  destruct (unwatch_removes_root_and_prunes
              (exec (getFileForPath "/proj/a.txt") projWatched) projEntry (quiet 2)
              {| rootId := 1; root_entry := projEntry; root_filter := acceptAll |})
    as (_ & _ & H & _); [vm_compute; reflexivity|].
  destruct (H Hwf ltac:(reflexivity) ltac:(reflexivity) ltac:(reflexivity)
              (Some "NotFound"%string)) as (H1 & H2 & H3 & _).
  assert (Hl : _index (exec (getFileForPath "/proj/a.txt") projWatched) !! "/proj/a.txt"
               = Some (newEntry 3 "/proj/a.txt" false))
    by (rewrite Hidx; apply lookup_insert_eq).
  split; [exact Hl|]. split; [exact H1|]. split; [|exact H3].
  destruct (_ !! "/proj/a.txt") as [e|] eqn:He in |- *; [|reflexivity].
  apply H2 in He as [He Hs]. rewrite Hl in He. injection He as <-.
  vm_compute in Hs. discriminate.
Defined.

(** C7. A failed backend unwatch is passed to the callback of [unwatch]
    under a backend with recursive watch, and is lost under a backend
    without it: there the backend is asked to unwatch ["/proj/"] and answers
    with the error ["NotFound"]; the root and the index are cleaned, and
    the client is called back with [null], where the documentation of
    [unwatch] promises the error.  The countdown callback of
    [_watchOrUnwatchEntry] takes no argument. *)
Lemma unwatch_drops_backend_error :
  trace (projUnwatchedNonRecursive (failure "NotFound"))
  = trace projWatchedNonRecursive
    ++ [Enqueued 4; Started 4; Visit projEntry; UnwatchPath "/proj/";
        Called 2 None; Shifted 4]
  ∧ _watchedRoots (projUnwatchedNonRecursive (failure "NotFound")) = []
  ∧ _index (projUnwatchedNonRecursive (failure "NotFound")) = ∅
  ∧ ¬ backendErrorPassedToCallback "NotFound"
  ∧ newEvents (unwatch projEntry (Some (quiet 2)) ;; callBack 0 (failure "NotFound"))
      projWatched
    = [Enqueued 3; Started 3; UnwatchPath "/proj/";
       ConsoleWarn "Failed to unwatch root: " "/proj/";
       Called 2 (Some "NotFound"); Shifted 3].
Proof.
  assert (Ht : trace (projUnwatchedNonRecursive (failure "NotFound"))
    = [Enqueued 2; Started 2; Visit projEntry; WatchPath "/proj/"; Called 1 None;
       Shifted 2; Enqueued 4; Started 4; Visit projEntry; UnwatchPath "/proj/";
       Called 2 None; Shifted 4]) by (vm_compute; reflexivity).
  split; [rewrite Ht; vm_compute; reflexivity|].
  split; [vm_compute; reflexivity|]. split; [vm_compute; reflexivity|].
  split; [|vm_compute; reflexivity].
  unfold backendErrorPassedToCallback. rewrite Ht. intros H.
  repeat (apply elem_of_cons in H as [H|H]; [discriminate H|]).
  by apply elem_of_nil in H.
Qed.

End Unwatch.

(** ** The change coordinator *)

Section Coordinator.

#[global] Instance sameCoordinator_preorder : PreOrder sameCoordinator.
Proof.
  split.
  - intros s. by repeat split.
  - intros s1 s2 s3 (H1 & H2 & H3) (H4 & H5 & H6). unfold sameCoordinator. 
    repeat split; congruence.
Qed.

Lemma handleExternalChange_keeps path stat :
  preserves sameCoordinator (_handleExternalChange path stat).
Proof.
  unfold _handleExternalChange, _handleDirectoryChange, visitAll, _clearCachedData,
    setStat, _fireChangeEvent, emit, getCached, suspend.
  repeat monad_step; by repeat split.
Qed.


Lemma neverThrows_snd (m : M unit) s : neverThrows m → (m s).2 = Ok tt.
Proof. intros H. destruct (H s) as [[] Ha]. exact Ha. Qed.

Lemma handleExternalChange_valid info s :
  validChange (_impl s) info →
  (_handleExternalChange (change_path info) (change_stat info) s).2 = Ok tt.
Proof.
  intros Hv. unfold _handleExternalChange.
  destruct (falsyPath (change_path info)) eqn:Hf.
  - apply neverThrows_snd. unfold visitAll, _clearCachedData, _fireChangeEvent, emit.
    repeat monad_step.
  - destruct Hv as [Hv|[q Hq]]; [congruence|].
    unfold bind at 1. unfold gets at 1. unfold bind at 1. unfold liftResult at 1.
    rewrite Hq.
    match goal with |- (?m s).2 = _ => apply (neverThrows_snd m) end.
    unfold _handleDirectoryChange, _clearCachedData, setStat, _fireChangeEvent,
      emit, getCached, suspend.
    repeat monad_step.
Qed.

Lemma forEach_handle changes s :
  Forall (validChange (_impl s)) changes →
  forEach changes (λ info, _handleExternalChange (change_path info) (change_stat info)) s
  = (handleInOrder changes s, Ok tt).
Proof.
  revert s. induction changes as [|info changes IH]; intros s Hv; [reflexivity|].
  apply Forall_cons in Hv as [Hi Hv]. simpl. unfold bind.
  pose proof (handleExternalChange_valid info s Hi) as Hok.
  pose proof (handleExternalChange_keeps (change_path info) (change_stat info) s) as (Himpl & _).
  unfold exec.
  destruct (_handleExternalChange (change_path info) (change_stat info) s) as [s' r].
  simpl in *. subst r. apply IH. rewrite Himpl. exact Hv.
Qed.

Lemma handleInOrder_keeps changes s : sameCoordinator s (handleInOrder changes s).
Proof.
  revert s. induction changes as [|info changes IH]; intros s; [reflexivity|].
  simpl. etransitivity; [|apply IH]. apply handleExternalChange_keeps.
Qed.

Lemma triggerExternalChangesNow_outcome s :
  Forall (validChange (_impl s)) (_externalChanges s) →
  _triggerExternalChangesNow s
  = (set_externalChanges [] (handleInOrder (_externalChanges s) s), Ok tt).
Proof.
  intros Hv. unfold _triggerExternalChangesNow.
  unfold bind at 1. unfold gets at 1. unfold bind. rewrite (forEach_handle _ _ Hv).
  reflexivity.
Qed.

Lemma handleExternalChange_file p q entry stat s :
  Path._normalizePath (normalizeUNCPaths (_impl s)) p false = Ok q →
  _index s !! q = Some entry →
  isFile entry = true →
  _handleExternalChange (Some p) stat s
  = (if sameMtime stat (cachedStat s entry) then s else fileChanged entry stat s, Ok tt).
Proof.
  intros Hq Hi Hf. unfold _handleExternalChange.
  assert (falsyPath (Some p) = false) as ->.
  { destruct p; [|reflexivity]. destruct (normalizeUNCPaths (_impl s)); discriminate Hq. }
  unfold bind at 1. unfold gets at 1. unfold bind at 1. unfold liftResult at 1.
  simpl default. rewrite Hq.
  unfold bind at 1. unfold gets at 1. unfold FileIndex.getEntry. rewrite Hi, Hf.
  unfold bind at 1. unfold getCached at 1. unfold gets at 1. unfold cachedStat.
  destruct (sameMtime stat _); simpl; [reflexivity|].
  unfold _clearCachedData, setStat, getCached, _fireChangeEvent, emit. monad_unfold. simpl.
  rewrite lookup_delete_eq. reflexivity.
Qed.

Lemma enqueueExternalChange_deferred path stat s :
  _activeChangeCount s ≠ 0%Z →
  _enqueueExternalChange path stat s
  = (set_externalChanges
       (_externalChanges s ++ [{| change_path := path; change_stat := stat |}]) s, Ok tt).
Proof.
  intros Hn. unfold _enqueueExternalChange. monad_unfold. simpl.
  destruct (Z.eqb_spec (_activeChangeCount s) 0); [contradiction|reflexivity].
Qed.

Lemma endChange_drains s :
  _activeChangeCount s = 1%Z →
  Forall (validChange (_impl s)) (_externalChanges s) →
  _endChange s
  = (set_externalChanges []
       (handleInOrder (_externalChanges s) (set_activeChangeCount 0 s)), Ok tt).
Proof.
  intros H1 Hv. unfold _endChange. unfold bind at 1. unfold modify at 1.
  unfold bind at 1. unfold gets at 1.
  cbn [_activeChangeCount set_activeChangeCount]. rewrite H1.
  change (1 - 1)%Z with 0%Z. cbn [Z.ltb Z.eqb Z.compare].
  unfold bind at 1. unfold ret at 1.
  rewrite triggerExternalChangesNow_outcome by exact Hv. reflexivity.
Qed.

Lemma enqueueExternalChange_immediate path stat s :
  _activeChangeCount s = 0%Z →
  Forall (validChange (_impl s))
    (_externalChanges s ++ [{| change_path := path; change_stat := stat |}]) →
  _enqueueExternalChange path stat s
  = (set_externalChanges []
       (handleInOrder
          (_externalChanges s ++ [{| change_path := path; change_stat := stat |}])
          (set_externalChanges
             (_externalChanges s ++ [{| change_path := path; change_stat := stat |}]) s)),
     Ok tt).
Proof.
  intros H0 Hv. unfold _enqueueExternalChange. unfold bind at 1. unfold modify at 1.
  unfold bind at 1. unfold gets at 1.
  cbn [_activeChangeCount set_externalChanges]. rewrite H0. cbn [Z.eqb].
  rewrite triggerExternalChangesNow_outcome by exact Hv. reflexivity.
Qed.

(** C2, amended. While the change count is not zero an external change is
    only appended to the queue.  When [endChange] brings the count from one
    to zero, and when a change arrives while the count is zero, the queued
    changes are handled by [_handleExternalChange] one after the other in
    arrival order and the queue is emptied, provided every queued path is
    null or normalizes.  In the scenario, nothing fires between
    [beginChange] and [endChange]; [endChange] then fires one change event
    for the file, unless the change carries a stat whose modification time
    is that of the cached stat, and then it fires nothing. *)
Theorem external_changes_deferred (s : FileSystem) (path : option string)
    (stat : option Stats) :
  let info := {| change_path := path; change_stat := stat |} in
  (_activeChangeCount s ≠ 0%Z →
     _enqueueExternalChange path stat s
     = (set_externalChanges (_externalChanges s ++ [info]) s, Ok tt))
  ∧ (_activeChangeCount s = 1%Z →
     Forall (validChange (_impl s)) (_externalChanges s) →
     _endChange s
     = (set_externalChanges []
          (handleInOrder (_externalChanges s) (set_activeChangeCount 0 s)), Ok tt))
  ∧ (_activeChangeCount s = 0%Z →
     Forall (validChange (_impl s)) (_externalChanges s ++ [info]) →
     _enqueueExternalChange path stat s
     = (set_externalChanges []
          (handleInOrder (_externalChanges s ++ [info])
             (set_externalChanges (_externalChanges s ++ [info]) s)), Ok tt))
  ∧ (∀ p q entry,
       path = Some p →
       _activeChangeCount s = 0%Z →
       _externalChanges s = [] →
       Path._normalizePath (normalizeUNCPaths (_impl s)) p false = Ok q →
       _index s !! q = Some entry →
       isFile entry = true →
       let deferred := _beginChange ;; _enqueueExternalChange path stat in
       newEvents deferred s = []
       ∧ _externalChanges (exec deferred s) = [info]
       ∧ newEvents _endChange (exec deferred s)
         = (if sameMtime stat (cachedStat s entry) then []
            else [Change (Some entry) None None])
       ∧ _externalChanges (exec _endChange (exec deferred s)) = []
       ∧ _activeChangeCount (exec _endChange (exec deferred s)) = 0%Z).
Proof.
  cbv zeta. split; [|split; [|split]].
  - apply enqueueExternalChange_deferred.
  - apply endChange_drains.
  - apply enqueueExternalChange_immediate.
  - intros p q entry -> H0 Hq Hn Hi Hf.
    assert (Hdef : exec (_beginChange ;; _enqueueExternalChange (Some p) stat) s
                   = set_externalChanges [{| change_path := Some p; change_stat := stat |}]
                       (set_activeChangeCount 1 s)).
    { unfold exec, _beginChange, _enqueueExternalChange. monad_unfold.
      cbn [_activeChangeCount _externalChanges set_activeChangeCount set_externalChanges].
      rewrite H0, Hq. reflexivity. }
    unfold newEvents. rewrite Hdef. cbn [trace set_externalChanges set_activeChangeCount].
    split; [apply drop_all|]. split; [reflexivity|].
    unfold exec. rewrite endChange_drains.
    2: reflexivity.
    2: { cbn [_externalChanges set_externalChanges set_activeChangeCount _impl].
         apply Forall_singleton. right. exists q. exact Hn. }
    cbn [_externalChanges set_externalChanges set_activeChangeCount handleInOrder foldl
         change_path change_stat fst].
    unfold exec. rewrite (handleExternalChange_file p q entry); [|exact Hn|exact Hi|exact Hf].
    unfold cachedStat. cbn [cached set_externalChanges set_activeChangeCount fst].
    destruct (sameMtime stat _); cbn.
    + split; [apply drop_all|]. split; reflexivity.
    + split; [apply drop_app_length|]. split; reflexivity.
Qed.

(** The scenario with a change that carries no stat. *)
Lemma external_changes_deferred_witness :
  let s := exec (getFileForPath "/p/f.txt") (init recursiveImpl) in
  let deferred := _beginChange ;; _enqueueExternalChange (Some "/p/f.txt") None in
  newEvents deferred s = []
  ∧ newEvents _endChange (exec deferred s) = [Change (Some fileEntry) None None]
  ∧ _externalChanges (exec _endChange (exec deferred s)) = [].
Proof.
  cbv zeta.
  destruct (external_changes_deferred
              (exec (getFileForPath "/p/f.txt") (init recursiveImpl))
              (Some "/p/f.txt"%string) None) as (_ & _ & _ & H).
  destruct (H "/p/f.txt"%string "/p/f.txt"%string fileEntry) as (H1 & _ & H3 & H4 & _);
    try reflexivity.
  split; [exact H1|]. split; [exact H3|exact H4].
Defined.

(** C2 as stated fails: the file is indexed and its cached stat has
    modification time 5; a deferred external change carrying a stat with
    the same modification time fires no change event at [endChange]. *)
Lemma unchanged_mtime_fires_nothing :
  _index fileKnown !! "/p/f.txt" = Some fileEntry
  ∧ cachedStat fileKnown fileEntry = Some (statAt 5)
  ∧ _activeChangeCount fileKnown = 0%Z
  ∧ newEvents _endChange
      (exec (_beginChange ;; _enqueueExternalChange (Some "/p/f.txt") (Some (statAt 5)))
            fileKnown) = []
  ∧ ¬ deferredChangeFiresOnce fileKnown "/p/f.txt" (Some (statAt 5)) fileEntry.
Proof.
  assert (H : newEvents _endChange
      (exec (_beginChange ;; _enqueueExternalChange (Some "/p/f.txt") (Some (statAt 5)))
            fileKnown) = []) by (vm_compute; reflexivity).
  split; [vm_compute; reflexivity|]. split; [vm_compute; reflexivity|].
  split; [reflexivity|]. split; [exact H|].
  intros [_ H']. cbv zeta in H'. rewrite H in H'. discriminate H'.
Qed.

End Coordinator.

(** ** External changes at the edges *)

Section ChangeEdges.

Lemma forEach_app {A} (l1 l2 : list A) (f : A → M unit) s :
  forEach (l1 ++ l2) f s
  = match forEach l1 f s with
    | (s', Ok _) => forEach l2 f s'
    | (s', Throw e) => (s', Throw e)
    end.
Proof.
  revert s. induction l1 as [|x l1 IH]; intros s; [reflexivity|].
  simpl. unfold bind. destruct (f x s) as [s1 [[]|e]]; [apply IH|reflexivity].
Qed.

Lemma normalizePath_nonempty u p d q : Path._normalizePath u p d = Ok q → p ≠ EmptyString.
Proof. intros H ->. destruct u; discriminate H. Qed.

Lemma handleExternalChange_throws p stat e s :
  p ≠ EmptyString →
  Path._normalizePath (normalizeUNCPaths (_impl s)) p false = Throw e →
  _handleExternalChange (Some p) stat s = (s, Throw e).
Proof.
  intros Hp He. unfold _handleExternalChange.
  assert (falsyPath (Some p) = false) as -> by (by destruct p).
  monad_unfold. simpl. by rewrite He.
Qed.

(** X10. A queued change whose path cannot be normalized makes the drain
    throw where it stands: the changes queued before it are handled, those
    after it are not, and the queue is not emptied, so that the drain of
    every later change or end of operation handles the earlier changes
    again and throws again. *)
Theorem invalid_change_blocks_queue (s : FileSystem) (good rest : list ExternalChange)
    (p : string) (stat : option Stats) (e : Error) :
  let bad := {| change_path := Some p; change_stat := stat |} in
  _externalChanges s = good ++ bad :: rest →
  Forall (validChange (_impl s)) good →
  p ≠ EmptyString →
  Path._normalizePath (normalizeUNCPaths (_impl s)) p false = Throw e →
  _triggerExternalChangesNow s = (handleInOrder good s, Throw e)
  ∧ _externalChanges (handleInOrder good s) = good ++ bad :: rest
  ∧ _triggerExternalChangesNow (handleInOrder good s)
    = (handleInOrder good (handleInOrder good s), Throw e)
  ∧ (_activeChangeCount s = 0%Z →
     ∀ path' stat',
       let later := {| change_path := path'; change_stat := stat' |} in
       let s1 := set_externalChanges (good ++ bad :: rest ++ [later]) s in
       _enqueueExternalChange path' stat' s = (handleInOrder good s1, Throw e)
       ∧ _externalChanges (handleInOrder good s1) = good ++ bad :: rest ++ [later]).
Proof.
  cbv zeta. intros Hq Hgood Hp He.
  assert (Hdrain : ∀ s0 rest0,
    _externalChanges s0 = good ++ {| change_path := Some p; change_stat := stat |} :: rest0 →
    _impl s0 = _impl s →
    _triggerExternalChangesNow s0 = (handleInOrder good s0, Throw e)
    ∧ _externalChanges (handleInOrder good s0) = _externalChanges s0
    ∧ _impl (handleInOrder good s0) = _impl s).
  { intros s0 rest0 Hq0 Himpl.
    destruct (handleInOrder_keeps good s0) as (Hi & Hx & _).
    split; [|split; [exact Hx|congruence]].
    unfold _triggerExternalChangesNow. unfold bind at 1. unfold gets at 1.
    rewrite Hq0. unfold bind. rewrite forEach_app.
    rewrite forEach_handle by (by rewrite Himpl).
    simpl. unfold bind.
    rewrite (handleExternalChange_throws p stat e); [reflexivity|done|]. by rewrite Hi, Himpl. }
  destruct (Hdrain s rest Hq eq_refl) as (H1 & H2 & H3).
  split; [exact H1|]. split; [by rewrite H2|]. split.
  - apply (Hdrain _ rest); [by rewrite H2|exact H3].
  - intros H0 path' stat'.
    set (s1 := set_externalChanges _ s).
    destruct (Hdrain s1 (rest ++ [{| change_path := path'; change_stat := stat' |}]))
      as (G1 & G2 & _); [reflexivity|reflexivity|].
    split; [|by rewrite G2].
    unfold _enqueueExternalChange. unfold bind at 1. unfold modify at 1.
    unfold bind at 1. unfold gets at 1.
    cbn [_activeChangeCount set_externalChanges]. rewrite H0. cbn [Z.eqb].
    rewrite Hq, <- app_assoc. simpl. exact G1.
Qed.

(** A change with a relative path arrives at a fresh file system, and then
    a change of a file that the index knows. *)
Lemma invalid_change_blocks_queue_witness :
  let s := exec (getFileForPath "/p/f.txt") (init recursiveImpl) in
  let s1 := exec (_enqueueExternalChange (Some "p/g.txt") None) s in
  _enqueueExternalChange (Some "p/g.txt") None s
    = (s1, Throw (AbsolutePathRequired "p/g.txt"))
  ∧ (_enqueueExternalChange (Some "/p/f.txt") None s1).2
    = Throw (AbsolutePathRequired "p/g.txt")
  ∧ newEvents (_enqueueExternalChange (Some "/p/f.txt") None) s1 = []
  ∧ List.length (_externalChanges (exec (_enqueueExternalChange (Some "/p/f.txt") None) s1))
    = 2%nat.
Proof.
  cbv zeta.
  set (s := exec (getFileForPath "/p/f.txt") (init recursiveImpl)).
  set (s1 := exec (_enqueueExternalChange (Some "p/g.txt") None) s).
  split; [vm_compute; reflexivity|].
  destruct (invalid_change_blocks_queue s1 [] [] "p/g.txt" None
              (AbsolutePathRequired "p/g.txt")) as (_ & _ & _ & H);
    [vm_compute; reflexivity|constructor|discriminate|vm_compute; reflexivity|].
  destruct (H eq_refl (Some "/p/f.txt") None) as [H1 H2].
  split; [by rewrite H1|].
  unfold newEvents, exec. rewrite H1. cbn [fst].
  split; [vm_compute; reflexivity|]. rewrite H2. reflexivity.
Defined.

Lemma forEach_clearAll (l : list Entry) s :
  forEach l _clearCachedData s = (set_cached (clearAll l (cached s)) s, Ok tt).
Proof.
  revert s. induction l as [|x l IH]; intros s.
  - simpl. unfold ret. by rewrite set_cached_same.
  - simpl. unfold bind, _clearCachedData, modify. rewrite IH. reflexivity.
Qed.

Lemma clearAll_lookup (l : list Entry) (cache : gmap nat Cached) id :
  clearAll l cache !! id
  = if bool_decide (id ∈ map eid l) then None else cache !! id.
Proof.
  revert cache. induction l as [|x l IH]; intros cache; [reflexivity|].
  simpl. rewrite IH.
  destruct (decide (id = eid x)) as [->|Hne].
  - rewrite lookup_delete_eq. rewrite (bool_decide_eq_true_2 (eid x ∈ eid x :: map eid l))
      by apply list_elem_of_here.
    by destruct (bool_decide _).
  - rewrite lookup_delete_ne by done.
    destruct (bool_decide_reflect (id ∈ map eid l)) as [Hin|Hnin].
    + by rewrite bool_decide_eq_true_2 by (by apply list_elem_of_further).
    + rewrite bool_decide_eq_false_2; [reflexivity|].
      intros [H|H]%elem_of_cons; contradiction.
Qed.

Lemma elem_of_entries (index : gmap string Entry) e :
  e ∈ FileIndex.entries index ↔ ∃ path, index !! path = Some e.
Proof.
  unfold FileIndex.entries. rewrite list_elem_of_fmap. split.
  - intros ([p e'] & -> & H). exists p. by apply elem_of_map_to_list in H.
  - intros [p H]. exists (p, e). split; [reflexivity|]. by apply elem_of_map_to_list.
Qed.

Lemma handleExternalChange_wholesale path stat s :
  falsyPath path = true →
  _handleExternalChange path stat s
  = (set_trace (trace s ++ [Change None None None])
       (set_cached (clearAll (FileIndex.entries (_index s)) (cached s)) s), Ok tt).
Proof.
  intros Hf. unfold _handleExternalChange. rewrite Hf. unfold visitAll.
  unfold bind at 1. unfold bind at 1. unfold gets at 1.
  rewrite forEach_clearAll. reflexivity.
Qed.

Lemma clearAll_entries (index : gmap string Entry) (cache : gmap nat Cached) path e :
  index !! path = Some e → clearAll (FileIndex.entries index) cache !! eid e = None.
Proof.
  intros He. rewrite clearAll_lookup. rewrite bool_decide_eq_true_2; [reflexivity|].
  apply list_elem_of_fmap. exists e. split; [reflexivity|].
  apply elem_of_entries. by exists path.
Qed.

(** X11. A change without a path, [null] or the empty string, is a
    wholesale change: the cached stat and contents of every entry of the
    index are cleared, one change event without an entry is fired, and
    nothing else changes; the index keeps its entries. *)
Theorem wholesale_change_clears_caches (path : option string) (stat : option Stats)
    (s : FileSystem) :
  falsyPath path = true →
  let s' := set_trace (trace s ++ [Change None None None])
              (set_cached (clearAll (FileIndex.entries (_index s)) (cached s)) s) in
  _handleExternalChange path stat s = (s', Ok tt)
  ∧ (∀ p e, _index s !! p = Some e →
       cached s' !! eid e = None ∧ cachedStat s' e = None)
  ∧ (∀ id, (∀ p e, _index s !! p = Some e → eid e ≠ id) →
       cached s' !! id = cached s !! id)
  ∧ _index s' = _index s.
Proof.
  intros Hf. cbv zeta. split; [|split; [|split; [|reflexivity]]].
  - by apply handleExternalChange_wholesale.
  - intros p e He. unfold cachedStat. cbn [cached set_trace set_cached].
    by rewrite (clearAll_entries _ _ _ _ He).
  - intros id Hid. cbn [cached set_trace set_cached]. rewrite clearAll_lookup.
    rewrite bool_decide_eq_false_2; [reflexivity|].
    intros (e & -> & [p He]%elem_of_entries)%list_elem_of_fmap. by apply (Hid p e).
Qed.

Lemma wholesale_change_clears_caches_witness :
  cachedStat fileKnown fileEntry = Some (statAt 5)
  ∧ cachedStat (exec (_handleExternalChange (Some "") None) fileKnown) fileEntry = None
  ∧ newEvents (_handleExternalChange (Some "") None) fileKnown = [Change None None None].
Proof.
  destruct (wholesale_change_clears_caches (Some "") None fileKnown eq_refl)
    as (H1 & H2 & _).
  split; [vm_compute; reflexivity|].
  unfold newEvents, exec. rewrite H1. cbn [fst]. split.
  - apply (H2 "/p/f.txt"). vm_compute. reflexivity.
  - cbn [trace set_trace]. apply drop_app_length.
Defined.
Lemma handleExternalChange_unknown p q stat s :
  Path._normalizePath (normalizeUNCPaths (_impl s)) p false = Ok q →
  _index s !! q = None →
  _handleExternalChange (Some p) stat s = (s, Ok tt).
Proof.
  intros Hq Hi. unfold _handleExternalChange.
  assert (falsyPath (Some p) = false) as ->.
  { pose proof (normalizePath_nonempty _ _ _ _ Hq). by destruct p. }
  monad_unfold. simpl. rewrite Hq. unfold FileIndex.getEntry. by rewrite Hi.
Qed.

(** X12. A change of a path that the index does not know under its file
    normal form is dropped: nothing is fired and nothing changes.  A
    directory handle is interned under a path that ends with a slash, so a
    change reported for the directory without the final slash does not
    reach it. *)
Theorem change_of_unknown_path_is_dropped (p q : string) (stat : option Stats)
    (s : FileSystem) :
  Path._normalizePath (normalizeUNCPaths (_impl s)) p false = Ok q →
  _index s !! q = None →
  _handleExternalChange (Some p) stat s = (s, Ok tt)
  ∧ (Path.lastChar q ≠ Some "/"%char →
     ∃ e s1, getDirectoryForPath p s = (s1, Ok e)
             ∧ _index s1 !! Path._appendTrailingSlash q = Some e
             ∧ _handleExternalChange (Some p) stat s1 = (s1, Ok tt)).
Proof.
  intros Hq Hi. split; [by eapply handleExternalChange_unknown|].
  intros Hlast.
  assert (Hd : Path._normalizePath (normalizeUNCPaths (_impl s)) p true
               = Ok (Path._appendTrailingSlash q)).
  { pose proof (normalizePath_absolute _ _ _ _ Hq) as Habs.
    rewrite (normalizePath_unfold _ _ _ Habs) in Hq.
    rewrite (normalizePath_unfold _ _ _ Habs).
    assert (Hne : q ≠ "/") by (intros ->; by apply Hlast).
    destruct (Path.indexOf _ "..").
    - destruct (Path.removeDotDot _ 1 _) as [out|e]; [|discriminate Hq].
      injection Hq as Hq. destruct (finishPath_directory _ _ _ _ Hq) as [H1 _].
      rewrite H1; [reflexivity|by right].
    - injection Hq as Hq. destruct (finishPath_directory _ _ _ _ Hq) as [H1 _].
      rewrite H1; [reflexivity|by right]. }
  destruct (getEntryForPath_returns Directory p _ s Hd) as (e & s1 & Hget & Himpl & Hidx & _).
  exists e, s1. split; [exact Hget|]. split; [exact Hidx|].
  apply handleExternalChange_unknown with (q := q); [by rewrite Himpl|].
  destruct (_index s1 !! q) as [e'|] eqn:Hq1; [exfalso|reflexivity].
  assert (Hne : Path._appendTrailingSlash q ≠ q).
  { intros E. apply Hlast. rewrite <- E. apply isChar_Some, appendTrailingSlash_last. }
  destruct (_index s !! Path._appendTrailingSlash q) as [e0|] eqn:Hq0.
  - unfold getDirectoryForPath in Hget.
    rewrite (getEntryForPath_found Directory _ _ _ _ Hd Hq0) in Hget.
    injection Hget as <- _. congruence.
  - unfold getDirectoryForPath in Hget.
    rewrite (getEntryForPath_new Directory _ _ _ Hd Hq0) in Hget.
    injection Hget as <- _. simpl in Hq1. unfold FileIndex.addEntry in Hq1. simpl in Hq1.
    rewrite lookup_insert_ne in Hq1 by done. congruence.
Qed.

Lemma change_of_unknown_path_is_dropped_witness :
  ∃ e s1, getDirectoryForPath "/a/b" (init recursiveImpl) = (s1, Ok e)
          ∧ _index s1 !! "/a/b/" = Some e
          ∧ _handleExternalChange (Some "/a/b") None s1 = (s1, Ok tt).
Proof.
  destruct (change_of_unknown_path_is_dropped "/a/b" "/a/b" None (init recursiveImpl))
    as [_ H]; [vm_compute; reflexivity|reflexivity|].
  apply H. discriminate.
Defined.

(** X13. A change of an indexed file reported with a stat leaves the file
    with a cached stat of that modification time, and a second report with
    the same modification time changes nothing and fires nothing.  A report
    without a stat always fires a change event and leaves the file without
    a cached stat. *)
Theorem file_change_deduplicated (p q : string) (entry : Entry) (st : Stats)
    (s : FileSystem) :
  Path._normalizePath (normalizeUNCPaths (_impl s)) p false = Ok q →
  _index s !! q = Some entry →
  isFile entry = true →
  let once := exec (_handleExternalChange (Some p) (Some st)) s in
  (∃ cachedSt, cachedStat once entry = Some cachedSt ∧ mtime cachedSt = mtime st)
  ∧ (∀ st', mtime st' = mtime st →
       _handleExternalChange (Some p) (Some st') once = (once, Ok tt))
  ∧ newEvents (_handleExternalChange (Some p) None) once = [Change (Some entry) None None]
  ∧ cachedStat (exec (_handleExternalChange (Some p) None) once) entry = None.
Proof.
  intros Hq Hi Hf. cbv zeta.
  assert (Hsame : ∀ s0 : FileSystem, _impl s0 = _impl s → _index s0 = _index s →
            ∀ stat, _handleExternalChange (Some p) stat s0
                    = (if sameMtime stat (cachedStat s0 entry) then s0
                       else fileChanged entry stat s0, Ok tt)).
  { intros s0 Himpl Hidx stat. apply handleExternalChange_file with (q := q); [|by rewrite Hidx|done].
    by rewrite Himpl. }
  unfold exec. rewrite (Hsame s eq_refl eq_refl). cbn [fst].
  set (once := if sameMtime (Some st) (cachedStat s entry) then s
               else fileChanged entry (Some st) s).
  assert (Himpl : _impl once = _impl s) by (unfold once; by destruct (sameMtime _ _)).
  assert (Hidx : _index once = _index s) by (unfold once; by destruct (sameMtime _ _)).
  assert (Hst : ∃ cachedSt, cachedStat once entry = Some cachedSt ∧ mtime cachedSt = mtime st).
  { unfold once. destruct (sameMtime (Some st) (cachedStat s entry)) eqn:E.
    - unfold sameMtime in E. destruct (cachedStat s entry) as [est|]; [|discriminate E].
      exists est. split; [reflexivity|]. apply Z.eqb_eq in E. by symmetry.
    - exists st. split; [|reflexivity]. unfold cachedStat, fileChanged.
      cbn [cached set_trace set_cached]. by rewrite lookup_insert_eq. }
  split; [exact Hst|]. split.
  - intros st' Hm. rewrite (Hsame once Himpl Hidx).
    destruct Hst as (cachedSt & -> & Hc). unfold sameMtime.
    rewrite Hm, Hc, Z.eqb_refl. reflexivity.
  - unfold newEvents, exec. rewrite (Hsame once Himpl Hidx). cbn [sameMtime fst].
    unfold cachedStat, fileChanged. cbn [cached trace set_trace set_cached].
    split; [apply drop_app_length|]. by rewrite lookup_insert_eq.
Qed.

Lemma file_change_deduplicated_witness :
  let s := exec (getFileForPath "/p/f.txt") (init recursiveImpl) in
  let once := exec (_handleExternalChange (Some "/p/f.txt") (Some (statAt 5))) s in
  newEvents (_handleExternalChange (Some "/p/f.txt") (Some (statAt 5))) s
    = [Change (Some fileEntry) None None]
  ∧ _handleExternalChange (Some "/p//f.txt") (Some (statAt 5)) once = (once, Ok tt).
Proof.
  cbv zeta. split; [vm_compute; reflexivity|].
  destruct (file_change_deduplicated "/p/f.txt" "/p/f.txt" fileEntry (statAt 5)
              (exec (getFileForPath "/p/f.txt") (init recursiveImpl)))
    as (_ & H & _); [vm_compute; reflexivity|vm_compute; reflexivity|reflexivity|].
  etransitivity; [|apply (H (statAt 5) eq_refl)]. vm_compute. reflexivity.
Defined.

(** X14. [_endChange] drains the queue of external changes only when it
    brings the count to exactly zero.  From any other count it only
    decrements, and logs an error when the count falls below zero.  After a
    surplus [_endChange] a change that arrives is queued, and the
    [_beginChange] of the next operation brings the count back to zero with
    that change still in the queue. *)
Theorem endChange_drains_only_at_zero (s : FileSystem) :
  let n := (_activeChangeCount s - 1)%Z in
  let decremented := set_activeChangeCount n s in
  (n ≠ 0%Z →
     _endChange s
     = (if (n <? 0)%Z
        then set_trace (trace s ++
               [ConsoleError "FileSystem _activeChangeCount has fallen below zero!"])
               decremented
        else decremented, Ok tt))
  ∧ (_activeChangeCount s = 0%Z → _externalChanges s = [] →
     ∀ path stat,
       let s' := exec (surplusEndChange path stat) s in
       surplusEndChange path stat s = (s', Ok tt)
       ∧ _activeChangeCount s' = 0%Z
       ∧ _externalChanges s' = [{| change_path := path; change_stat := stat |}]
       ∧ trace s' = trace s ++
           [ConsoleError "FileSystem _activeChangeCount has fallen below zero!"]).
Proof.
  cbv zeta.
  assert (Hend : (_activeChangeCount s - 1)%Z ≠ 0%Z →
     _endChange s
     = (if (_activeChangeCount s - 1 <? 0)%Z
        then set_trace (trace s ++
               [ConsoleError "FileSystem _activeChangeCount has fallen below zero!"])
               (set_activeChangeCount (_activeChangeCount s - 1) s)
        else set_activeChangeCount (_activeChangeCount s - 1) s, Ok tt)).
  { intros Hn. unfold _endChange, emit. monad_unfold.
    cbn [_activeChangeCount set_activeChangeCount].
    destruct (Z.eqb_spec (_activeChangeCount s - 1) 0) as [|_]; [contradiction|].
    destruct (_activeChangeCount s - 1 <? 0)%Z; reflexivity. }
  split; [exact Hend|].
  intros H0 Hq path stat.
  set (logged := set_trace (trace s ++
                   [ConsoleError "FileSystem _activeChangeCount has fallen below zero!"])
                   (set_activeChangeCount (-1) s)).
  assert (Ha : _endChange s = (logged, Ok tt)).
  { rewrite Hend by (rewrite H0; discriminate). by rewrite H0. }
  assert (Hb : _enqueueExternalChange path stat logged
               = (set_externalChanges [{| change_path := path; change_stat := stat |}] logged,
                  Ok tt)).
  { rewrite enqueueExternalChange_deferred by discriminate.
    unfold logged. cbn [_externalChanges set_trace set_activeChangeCount]. by rewrite Hq. }
  unfold surplusEndChange, exec.
  rewrite (bind_Ok _ _ _ _ _ Ha), (bind_Ok _ _ _ _ _ Hb).
  unfold _beginChange, modify. cbn. done.
Qed.

Lemma endChange_drains_only_at_zero_witness :
  let s := exec (surplusEndChange (Some "/p/f.txt") None) fileKnown in
  _activeChangeCount s = 0%Z
  ∧ _externalChanges s = [{| change_path := Some "/p/f.txt"; change_stat := None |}]
  ∧ newEvents (surplusEndChange (Some "/p/f.txt") None) fileKnown
    = [ConsoleError "FileSystem _activeChangeCount has fallen below zero!"].
Proof.
  cbv zeta.
  destruct (endChange_drains_only_at_zero fileKnown) as [_ H].
  destruct (H eq_refl eq_refl (Some "/p/f.txt") None) as (_ & H1 & H2 & H3).
  split; [exact H1|]. split; [exact H2|].
  unfold newEvents. rewrite H3. apply drop_app_length.
Defined.

End ChangeEdges.

(** ** The life of a watched root *)

Section Lifecycle.

Lemma lookupRoot_setRoot path root roots :
  lookupRoot path (setRoot path root roots) = Some root.
Proof.
  unfold lookupRoot. induction roots as [|[p r] roots IH]; simpl.
  - by rewrite String.eqb_refl.
  - destruct (String.eqb p path) eqn:E; simpl; rewrite E; [reflexivity|exact IH].
Qed.

Lemma applyCallback_watchCb rootPath entry watchedRoot (c : ClientCallback) err s :
  applyCallback (WatchCb rootPath entry watchedRoot (Some c)) err s =
    if truthyErr err
    then callClient (Some c) err
           (set_watchedRoots (deleteRoot rootPath (_watchedRoots s))
              (set_trace (trace s ++ [ConsoleWarn "Failed to watch root: " (fullPath entry)]) s))
    else callClient (Some c) None
           (set_activeRoots ({[rootId watchedRoot]} ∪ activeRoots s) s).
Proof. simpl. destruct (truthyErr err); reflexivity. Qed.

Lemma noActiveParent_decide s path :
  noActiveParent s path →
  match watchingParentRoot s path with
  | Some r => bool_decide (rootId r ∈ activeRoots s)
  | None => false
  end = false.
Proof.
  unfold noActiveParent. destruct (watchingParentRoot s path); [|done].
  intros H. by apply bool_decide_eq_false_2.
Qed.

(** X15. Under a backend with recursive watch and with no request in the
    queue, [watch] registers the root as not active and asks the backend to
    watch its path.  When the backend answers without an error the root
    becomes active and the client is called back with [null]; when it
    answers with an error the root is taken out of the registry again, a
    warning is logged and the client is called back with that error.  In
    both cases the request leaves the queue. *)
Theorem watch_registers_then_activates (s : FileSystem) (entry : Entry) (filter : Filter)
    (c : ClientCallback) (err : option string) :
  recursiveWatch (_impl s) = true →
  _watchRequests s = [] →
  noActiveParent s (fullPath entry) →
  let root := newRoot s entry filter in
  let called := exec (watch entry filter (Some c)) s in
  let answered := exec (watchAnswered s entry filter c err) s in
  (lookupRoot (fullPath entry) (_watchedRoots called) = Some root
   ∧ activeRoots called = activeRoots s
   ∧ newEvents (watch entry filter (Some c)) s
     = [Enqueued (S (nextId s)); Started (S (nextId s)); WatchPath (fullPath entry)])
  ∧ (truthyErr err = false →
       lookupRoot (fullPath entry) (_watchedRoots answered) = Some root
       ∧ activeRoots answered = {[rootId root]} ∪ activeRoots s
       ∧ newEvents (watchAnswered s entry filter c err) s
         = [Enqueued (S (nextId s)); Started (S (nextId s)); WatchPath (fullPath entry);
            Called (cbTag c) None; Shifted (S (nextId s))])
  ∧ (truthyErr err = true →
       lookupRoot (fullPath entry) (_watchedRoots answered) = None
       ∧ activeRoots answered = activeRoots s
       ∧ newEvents (watchAnswered s entry filter c err) s
         = [Enqueued (S (nextId s)); Started (S (nextId s)); WatchPath (fullPath entry);
            ConsoleWarn "Failed to watch root: " (fullPath entry);
            Called (cbTag c) err; Shifted (S (nextId s))])
  ∧ _watchRequests answered = [].
Proof.
  intros Hrec Hq Hpar. cbv zeta.
  assert (Hwatch : watch entry filter (Some c) s
    = (started {| rid := S (nextId s); fn := ImplFn true entry;
                  cb := WatchCb (fullPath entry) entry (newRoot s entry filter) (Some c) |}
         (enqueued {| rid := S (nextId s); fn := ImplFn true entry;
                      cb := WatchCb (fullPath entry) entry (newRoot s entry filter) (Some c) |}
            (set_watchedRoots
               (setRoot (fullPath entry) (newRoot s entry filter) (_watchedRoots s))
               (set_nextId (S (nextId s)) s))), Ok tt)).
  { rewrite watch_outcome. cbv zeta. rewrite (noActiveParent_decide _ _ Hpar).
    rewrite enqueueWatchRequest_outcome. cbv zeta.
    cbn [_watchRequests set_watchedRoots set_nextId _impl nextId].
    rewrite Hq. unfold rootRequestFn. rewrite Hrec. reflexivity. }
  split; [|].
  { unfold newEvents, exec. rewrite Hwatch. cbn [fst].
    split; [apply lookupRoot_setRoot|]. split; [reflexivity|].
    unfold started, enqueued, fnEvent.
    cbn [trace set_trace set_pending set_watchRequests set_nextId set_watchedRoots fn rid
         implCommand].
    rewrite <- app_assoc. apply drop_app_length. }
  unfold newEvents, exec, watchAnswered.
  match goal with |- context [bind ?m ?k s] => remember (bind m k s) as out eqn:Hout end.
  unfold bind in Hout. rewrite Hwatch in Hout.
  erewrite callBack_at in Hout; [|reflexivity|reflexivity].
  unfold fnContinuation in Hout. simpl fn in Hout. cbv iota in Hout.
  unfold resume in Hout. simpl reply_err in Hout.
  unfold requestCb, tryFinally in Hout. simpl cb in Hout.
  rewrite applyCallback_watchCb in Hout.
  destruct (truthyErr err) eqn:Herr.
  - rewrite callClient_outcome in Hout.
    rewrite shift_dequeue_outcome in Hout. simpl _watchRequests in Hout.
    rewrite Hq in Hout. simpl in Hout. subst out. simpl.
    split; [discriminate|]. split; [|reflexivity]. intros _.
    split; [apply lookupRoot_deleteRoot|]. split; [reflexivity|].
    rewrite <- !app_assoc. simpl. apply drop_app_length.
  - rewrite callClient_outcome in Hout.
    rewrite shift_dequeue_outcome in Hout. simpl _watchRequests in Hout.
    rewrite Hq in Hout. simpl in Hout. subst out. simpl.
    split; [|split; [discriminate|reflexivity]]. intros _.
    split; [apply lookupRoot_setRoot|]. split; [reflexivity|].
    rewrite <- !app_assoc. simpl. apply drop_app_length.
Qed.

Lemma watch_registers_then_activates_witness :
  let s := exec (getDirectoryForPath "/proj") (init recursiveImpl) in
  lookupRoot "/proj/" (_watchedRoots (exec (watchAnswered s projEntry acceptAll (quiet 1)
                                              (Some "NotFound")) s)) = None
  ∧ newEvents (watchAnswered s projEntry acceptAll (quiet 1) (Some "NotFound")) s
    = [Enqueued 2; Started 2; WatchPath "/proj/";
       ConsoleWarn "Failed to watch root: " "/proj/";
       Called 1 (Some "NotFound"); Shifted 2].
Proof.
  cbv zeta.
  destruct (watch_registers_then_activates
              (exec (getDirectoryForPath "/proj") (init recursiveImpl))
              projEntry acceptAll (quiet 1) (Some "NotFound"))
    as (_ & _ & H & _); [reflexivity|reflexivity|exact I|].
  destruct (H eq_refl) as (H1 & _ & H3). split; [exact H1|exact H3].
Defined.

(** X16. [unwatch] of an entry that is not registered as a watched root
    only calls the client back with "Root is not watched.": the registry,
    the queue, the index and the active flags stay as they are, and without
    a callback nothing happens at all.  A root is unregistered when its
    [unwatch] completes, so a second [unwatch] of it is answered this
    way. *)
Theorem unwatch_unknown_root (s : FileSystem) (entry : Entry) (c : ClientCallback) :
  (lookupRoot (fullPath entry) (_watchedRoots s) = None →
     unwatch entry (Some c) s
     = (set_trace (trace s ++ [Called (cbTag c) (Some RootNotWatched)]) s,
        if cbThrows c (Some RootNotWatched) then Throw (CallbackError (cbTag c)) else Ok tt)
     ∧ unwatch entry None s = (s, Ok tt))
  ∧ (∀ (c' : ClientCallback) err,
       let done := exec (applyCallback (unwatchDone entry (Some c')) err) s in
       newEvents (unwatch entry (Some c)) done = [Called (cbTag c) (Some RootNotWatched)]).
Proof.
  assert (Hnone : ∀ s0 callback, lookupRoot (fullPath entry) (_watchedRoots s0) = None →
            unwatch entry callback s0 = callClient callback (Some RootNotWatched) s0).
  { intros s0 callback Hl. unfold unwatch. unfold bind at 1. unfold gets at 1.
    by rewrite Hl. }
  split.
  - intros Hl. rewrite !Hnone by exact Hl. split; [apply callClient_outcome|reflexivity].
  - intros c' err. cbv zeta. unfold newEvents, exec.
    rewrite applyCallback_unwatchDone, callClient_outcome. cbn [fst].
    rewrite Hnone by apply lookupRoot_deleteRoot.
    rewrite callClient_outcome. cbn [fst trace set_trace]. apply drop_app_length.
Qed.

Lemma unwatch_unknown_root_witness :
  newEvents (unwatch projEntry (Some (quiet 7))) (init recursiveImpl)
  = [Called 7 (Some RootNotWatched)].
Proof.
  destruct (unwatch_unknown_root (init recursiveImpl) projEntry (quiet 7)) as [H _].
  destruct (H eq_refl) as [H1 _]. unfold newEvents, exec. rewrite H1.
  cbn [fst trace set_trace]. apply drop_app_length.
Defined.

Lemma unwatchAllStep_outcome kv s :
  ∃ s', unwatchAllStep kv s = (s', Ok tt)
        ∧ _impl s' = _impl s
        ∧ _index s' = _index s
        ∧ cached s' = cached s
        ∧ _watchedRoots s' = deleteRoot kv.1 (_watchedRoots s)
        ∧ activeRoots s' = activeRoots s ∖ {[rootId kv.2]}
        ∧ List.length (_watchRequests s') = S (List.length (_watchRequests s)).
Proof.
  unfold unwatchAllStep, setActive, _unwatchEntry, _watchOrUnwatchEntry, sameEntry.
  rewrite Nat.eqb_refl. cbn [negb].
  unfold bind at 1. unfold modify at 1. unfold bind at 1. unfold modify at 1.
  unfold bind at 1. unfold gets at 1.
  cbn [_impl set_watchedRoots set_activeRoots].
  destruct (recursiveWatch (_impl s)); rewrite enqueueWatchRequest_outcome; cbv zeta;
    cbn [_watchRequests set_watchedRoots set_activeRoots];
    (eexists; split; [reflexivity|]);
    unfold started, enqueued;
    destruct (_watchRequests s) eqn:E; repeat split; simpl;
    rewrite ?length_app, ?E; simpl; lia.
Qed.

Lemma forEach_unwatchAllStep roots s :
  ∃ s', forEach roots unwatchAllStep s = (s', Ok tt)
        ∧ _impl s' = _impl s
        ∧ _index s' = _index s
        ∧ cached s' = cached s
        ∧ _watchedRoots s' = deleteRoots roots (_watchedRoots s)
        ∧ activeRoots s' = deactivated roots (activeRoots s)
        ∧ List.length (_watchRequests s')
          = (List.length (_watchRequests s) + List.length roots)%nat.
Proof.
  revert s. induction roots as [|kv roots IH]; intros s.
  - exists s. repeat split. simpl. lia.
  - destruct (unwatchAllStep_outcome kv s) as (s1 & H1 & Ha & Hb & Hc & Hd & He & Hf).
    destruct (IH s1) as (s' & H2 & Ga & Gb & Gc & Gd & Ge & Gf).
    exists s'. split; [simpl; unfold bind; by rewrite H1|].
    unfold deleteRoots, deactivated in *. simpl.
    rewrite Ga, Gb, Gc, Gd, Ge, Gf, Ha, Hb, Hc, Hd, He, Hf. repeat split. lia.
Qed.

Lemma elem_of_List_filter {A} (f : A → bool) (l : list A) x :
  x ∈ List.filter f l ↔ x ∈ l ∧ f x = true.
Proof. rewrite !list_elem_of_In. apply filter_In. Qed.

Lemma elem_of_deleteRoots roots from kv :
  kv ∈ deleteRoots roots from ↔ kv ∈ from ∧ kv.1 ∉ map fst roots.
Proof.
  unfold deleteRoots. revert from. induction roots as [|[p r] roots IH]; intros from; simpl.
  - split; [intros H; split; [exact H|by intros ?%elem_of_nil]|by intros [H _]].
  - rewrite IH. unfold deleteRoot. rewrite elem_of_List_filter. simpl.
    rewrite negb_true_iff, String.eqb_neq, not_elem_of_cons. tauto.
Qed.

Lemma deleteRoots_all roots : deleteRoots roots roots = [].
Proof.
  destruct (deleteRoots roots roots) as [|kv l] eqn:E; [reflexivity|exfalso].
  assert (H : kv ∈ deleteRoots roots roots) by (rewrite E; apply list_elem_of_here).
  apply elem_of_deleteRoots in H as [Hin Hnot]. apply Hnot.
  apply list_elem_of_fmap. by exists kv.
Qed.

Lemma elem_of_deactivated roots (active : gset nat) id :
  id ∈ deactivated roots active ↔ id ∈ active ∧ id ∉ map (λ kv, rootId kv.2) roots.
Proof.
  unfold deactivated. revert active. induction roots as [|kv roots IH]; intros active; simpl.
  - split; [intros H; split; [exact H|by intros ?%elem_of_nil]|by intros [H _]].
  - rewrite IH, not_elem_of_cons, elem_of_difference, elem_of_singleton. tauto.
Qed.

(** [_unwatchAll], up to the wholesale change in which it ends. *)
Lemma unwatchAll_outcome s :
  ∃ s1,
    _unwatchAll s
    = (set_trace (trace s1 ++ [Change None None None])
         (set_cached (clearAll (FileIndex.entries (_index s1)) (cached s1)) s1), Ok tt)
    ∧ _index s1 = _index s
    ∧ _watchedRoots s1 = []
    ∧ activeRoots s1 = deactivated (_watchedRoots s) (activeRoots s)
    ∧ List.length (_watchRequests s1)
      = (List.length (_watchRequests s) + List.length (_watchedRoots s))%nat.
Proof.
  set (s0 := set_trace (trace s ++ [ConsoleWarn "File watchers went offline!" EmptyString]) s).
  destruct (forEach_unwatchAllStep (_watchedRoots s) s0)
    as (s1 & H1 & _ & Hb & _ & Hd & He & Hf).
  exists s1. split; [|split; [exact Hb|split; [|split; [exact He|exact Hf]]]].
  - unfold _unwatchAll. unfold emit at 1. unfold bind at 1. unfold modify at 1.
    unfold bind at 1. unfold gets at 1. unfold bind at 1.
    change (_watchedRoots (set_trace (trace s ++ [ConsoleWarn "File watchers went offline!" ""]) s))
      with (_watchedRoots s).
    fold s0. unfold unwatchAllStep in H1. rewrite H1.
    by rewrite (handleExternalChange_wholesale None None s1 eq_refl).
  - rewrite Hd. apply deleteRoots_all.
Qed.

Lemma unwatchAllStep_state kv s :
  unwatchAllStep kv s
  = (let request := {| rid := nextId s; fn := rootRequestFn (_impl s) false kv.2;
                       cb := UnwatchEntryCb (root_entry kv.2) (UnwatchAllCb kv.2) |} in
     let s0 := set_watchedRoots (deleteRoot kv.1 (_watchedRoots s))
                 (set_activeRoots (activeRoots s ∖ {[rootId kv.2]}) s) in
     match _watchRequests s with
     | [] => started request (enqueued request s0)
     | _ :: _ => enqueued request s0
     end, Ok tt).
Proof.
  unfold unwatchAllStep, setActive, _unwatchEntry, _watchOrUnwatchEntry, sameEntry,
    rootRequestFn.
  rewrite Nat.eqb_refl. cbn [negb].
  unfold bind at 1. unfold modify at 1. unfold bind at 1. unfold modify at 1.
  unfold bind at 1. unfold gets at 1.
  cbn [_impl set_watchedRoots set_activeRoots].
  destruct (recursiveWatch (_impl s)); rewrite enqueueWatchRequest_outcome; cbv zeta;
    cbn [_watchRequests nextId set_watchedRoots set_activeRoots];
    destruct (_watchRequests s); reflexivity.
Qed.

Lemma forEach_unwatchAllStep_queue roots s :
  let requests := unwatchAllRequests (_impl s) (nextId s) roots in
  ∃ s', forEach roots unwatchAllStep s = (s', Ok tt)
        ∧ _watchRequests s' = _watchRequests s ++ requests
        ∧ pending s' = pending s ++ startedContinuations (_watchRequests s) requests
        ∧ trace s' = trace s ++ enqueueEvents (_watchRequests s) requests.
Proof.
  cbv zeta. revert s. induction roots as [|kv roots IH]; intros s.
  - exists s. split; [reflexivity|].
    unfold startedContinuations, enqueueEvents. simpl.
    destruct (_watchRequests s); simpl; by rewrite !app_nil_r.
  - pose proof (unwatchAllStep_state kv s) as H1. cbv zeta in H1.
    set (request := {| rid := nextId s; fn := rootRequestFn (_impl s) false kv.2;
                       cb := UnwatchEntryCb (root_entry kv.2) (UnwatchAllCb kv.2) |}) in *.
    destruct (_watchRequests s) as [|w ws] eqn:Hq.
    + destruct (IH (started request (enqueued request
                  (set_watchedRoots (deleteRoot kv.1 (_watchedRoots s))
                     (set_activeRoots (activeRoots s ∖ {[rootId kv.2]}) s)))))
        as (s' & H2 & Gq & Gp & Gt).
      exists s'. split; [simpl; unfold bind; by rewrite H1|].
      cbn [started enqueued _watchRequests pending trace nextId _impl set_pending set_trace
           set_watchRequests set_nextId set_watchedRoots set_activeRoots] in Gq, Gp, Gt.
      rewrite Hq in Gq, Gp, Gt. simpl in Gq, Gp, Gt.
      rewrite app_nil_r in Gp.
      split; [exact Gq|]. split; [exact Gp|].
      rewrite Gt. unfold enqueueEvents. simpl. rewrite <- !app_assoc. reflexivity.
    + destruct (IH (enqueued request
                  (set_watchedRoots (deleteRoot kv.1 (_watchedRoots s))
                     (set_activeRoots (activeRoots s ∖ {[rootId kv.2]}) s))))
        as (s' & H2 & Gq & Gp & Gt).
      exists s'. split; [simpl; unfold bind; by rewrite H1|].
      cbn [started enqueued _watchRequests pending trace nextId _impl set_pending set_trace
           set_watchRequests set_nextId set_watchedRoots set_activeRoots] in Gq, Gp, Gt.
      rewrite Hq in Gq, Gp, Gt. simpl in Gq, Gp, Gt.
      rewrite app_nil_r in Gp.
      split; [rewrite Gq; simpl; by rewrite <- app_assoc|]. split; [by rewrite app_nil_r|].
      rewrite Gt. unfold enqueueEvents. simpl. rewrite <- !app_assoc. reflexivity.
Qed.

(** What the request of [_unwatchAll] for a root does when it completes. *)
Lemma applyCallback_unwatchAll (watchedRoot : WatchedRoot) err s :
  applyCallback (UnwatchEntryCb (root_entry watchedRoot) (UnwatchAllCb watchedRoot)) err s
  = (set_trace
       (trace s ++ [ConsoleWarn "Watching disabled for" (fullPath (root_entry watchedRoot))])
       (set_cached
          (clearCachedBelow (fullPath (root_entry watchedRoot)) (_index s) (cached s)) s),
     Ok tt).
Proof.
  simpl. unfold visitAll. unfold bind at 1. unfold bind at 1. unfold gets at 1.
  rewrite forEach_clear. reflexivity.
Qed.

(** X17. When the watchers go offline, [_unwatchAll] takes every watched
    root out of the registry and clears its active flag, and enqueues for
    each of them, in the order of the registry, the unwatch request of
    [_unwatchEntry] for the entry of the root; the first of them is started
    if the queue was empty.  It ends with a wholesale change: the cached
    stat and contents of every indexed entry are cleared and a change
    event without an entry is the last event fired.  It never throws, and
    it takes no entry out of the index.  When one of the requests
    completes, with or without an error, the cached data below the root
    are cleared and a warning is logged, and nothing else happens. *)
Theorem unwatchAll_unregisters_every_root (s : FileSystem) :
  let s' := exec _unwatchAll s in
  let requests := unwatchAllRequests (_impl s) (nextId s) (_watchedRoots s) in
  _unwatchAll s = (s', Ok tt)
  ∧ _watchedRoots s' = []
  ∧ (∀ path root, (path, root) ∈ _watchedRoots s → rootId root ∉ activeRoots s')
  ∧ List.length (_watchRequests s')
    = (List.length (_watchRequests s) + List.length (_watchedRoots s))%nat
  ∧ _index s' = _index s
  ∧ (∀ path e, _index s !! path = Some e → cachedStat s' e = None)
  ∧ last (trace s') = Some (Change None None None)
  ∧ _watchRequests s' = _watchRequests s ++ requests
  ∧ pending s' = pending s ++ startedContinuations (_watchRequests s) requests
  ∧ trace s'
    = trace s ++ [ConsoleWarn "File watchers went offline!" ""]
      ++ enqueueEvents (_watchRequests s) requests ++ [Change None None None]
  ∧ cached s' = clearAll (FileIndex.entries (_index s)) (cached s)
  ∧ (∀ path e, _index s !! path = Some e → cached s' !! eid e = None)
  ∧ (∀ watchedRoot err s1,
       applyCallback (UnwatchEntryCb (root_entry watchedRoot) (UnwatchAllCb watchedRoot))
         err s1
       = (set_trace
            (trace s1
             ++ [ConsoleWarn "Watching disabled for" (fullPath (root_entry watchedRoot))])
            (set_cached
               (clearCachedBelow (fullPath (root_entry watchedRoot)) (_index s1)
                  (cached s1)) s1),
          Ok tt)).
Proof.
  cbv zeta. unfold exec.
  set (s0 := set_trace (trace s ++ [ConsoleWarn "File watchers went offline!" EmptyString]) s).
  destruct (forEach_unwatchAllStep (_watchedRoots s) s0)
    as (s1 & H1 & _ & Hi & Hc & Hd & Ha & Hn).
  destruct (forEach_unwatchAllStep_queue (_watchedRoots s) s0)
    as (s1' & H1' & Hq & Hp & Ht).
  rewrite H1 in H1'. injection H1' as <-.
  assert (Hout : _unwatchAll s
    = (set_trace (trace s1 ++ [Change None None None])
         (set_cached (clearAll (FileIndex.entries (_index s1)) (cached s1)) s1), Ok tt)).
  { unfold _unwatchAll. unfold emit at 1. unfold bind at 1. unfold modify at 1.
    unfold bind at 1. unfold gets at 1. unfold bind at 1.
    change (_watchedRoots (set_trace (trace s ++ [ConsoleWarn "File watchers went offline!" ""]) s))
      with (_watchedRoots s).
    fold s0. unfold unwatchAllStep in H1. rewrite H1.
    by rewrite (handleExternalChange_wholesale None None s1 eq_refl). }
  rewrite Hout. cbn [fst].
  cbn [_watchedRoots activeRoots _watchRequests _index cached pending trace
       set_trace set_cached].
  change (_index s0) with (_index s) in Hi. change (cached s0) with (cached s) in Hc.
  change (_watchedRoots s0) with (_watchedRoots s) in Hd.
  change (activeRoots s0) with (activeRoots s) in Ha.
  change (_watchRequests s0) with (_watchRequests s) in Hn, Hq, Hp, Ht.
  change (pending s0) with (pending s) in Hp.
  change (_impl s0) with (_impl s) in Hq, Hp, Ht.
  change (nextId s0) with (nextId s) in Hq, Hp, Ht.
  change (trace s0) with (trace s ++ [ConsoleWarn "File watchers went offline!" ""]) in Ht.
  split; [reflexivity|]. split; [rewrite Hd; apply deleteRoots_all|].
  split.
  { intros path root Hin. rewrite Ha.
    rewrite elem_of_deactivated. intros [_ Hnot]. apply Hnot.
    apply list_elem_of_fmap. by exists (path, root). }
  split; [exact Hn|]. split; [exact Hi|]. split.
  { intros path e He. rewrite <- Hi in He. unfold cachedStat. cbn [cached set_trace set_cached].
    by rewrite (clearAll_entries _ _ _ _ He). }
  split; [apply last_snoc|]. split; [exact Hq|]. split; [exact Hp|]. split.
  { rewrite Ht. by rewrite <- !app_assoc. }
  split; [by rewrite Hi, Hc|]. split.
  { intros path e He. rewrite <- Hi in He. by rewrite (clearAll_entries _ _ _ _ He). }
  intros watchedRoot err s2. apply applyCallback_unwatchAll.
Qed.

Lemma unwatchAll_unregisters_every_root_witness :
  _watchedRoots (exec _unwatchAll projWatched) = []
  ∧ _index (exec _unwatchAll projWatched) !! "/proj/" = Some projEntry
  ∧ map fn (_watchRequests (exec _unwatchAll projWatched)) = [ImplFn false projEntry]
  ∧ trace (exec _unwatchAll projWatched)
    = trace projWatched
      ++ [ConsoleWarn "File watchers went offline!" ""; Enqueued 3; Started 3;
          UnwatchPath "/proj/"; Change None None None].
Proof.
  destruct (unwatchAll_unregisters_every_root projWatched)
    as (_ & H1 & _ & _ & H2 & _ & _ & H3 & _ & H4 & _).
  split; [exact H1|]. split; [rewrite H2; vm_compute; reflexivity|].
  split; [rewrite H3; vm_compute; reflexivity|]. rewrite H4. vm_compute. reflexivity.
Defined.

End Lifecycle.

(** ** The watch-request queue over whole runs *)

Section Serial.

#[global] Instance sameQueue_preorder : PreOrder sameQueue.
Proof.
  split.
  - intros s. by repeat split.
  - intros s1 s2 s3 (H1 & H2 & H3 & H4 & H5 & H6) (G1 & G2 & G3 & G4 & G5 & G6).
    unfold sameQueue. repeat split; congruence.
Qed.

#[global] Instance invariantStep_preorder : PreOrder invariantStep.
Proof.
  split.
  - intros s H. exact H.
  - intros s1 s2 s3 H1 H2 H. apply H2, H1, H.
Qed.

Lemma preserves_weaken {A} (R R' : FileSystem → FileSystem → Prop) (m : M A) :
  (∀ s s', R s s' → R' s s') → preserves R m → preserves R' m.
Proof. intros H Hm s. apply H, Hm. Qed.

Lemma sameQueue_inOrder s s' : sameQueue s s' → inOrder s → inOrder s'.
Proof.
  intros (H1 & H2 & H3 & H4 & H5 & H6) [Ha Hb]. unfold inOrder.
  rewrite H1, H4, H5, H6. done.
Qed.

Lemma sameQueue_invariantStep s s' : sameQueue s s' → invariantStep s s'.
Proof.
  intros Hq [Ho Hs]. split; [by eapply sameQueue_inOrder|].
  destruct Hq as (H1 & H2 & H3 & H4 & H5 & H6). rewrite H1, H2, H3. exact Hs.
Qed.

Lemma sameQueue_calledBack request s s' :
  sameQueue s s' → calledBack request s → calledBack request s'.
Proof.
  intros Hq (Ho & Hh & Hc). split; [by eapply sameQueue_inOrder|].
  destruct Hq as (H1 & H2 & H3 & H4 & H5 & H6). rewrite H1, H2. done.
Qed.

(** Steps that only add an event which is not one of the queue, or touch a
    field the queue does not depend on. *)
Ltac same_queue :=
  unfold sameQueue, requestConts, enqueuedIds, startedIds, shiftedIds;
  cbn [_watchRequests pending counters trace set_index set_watchedRoots
       set_watchRequests set_externalChanges set_activeChangeCount set_activeRoots
       set_cached set_counters set_directoryCounters set_nextId set_pending set_trace];
  rewrite ?omap_app, ?List.filter_app; simpl; rewrite ?app_nil_r;
  repeat split; reflexivity.

Lemma callClient_quiet callback err : preserves sameQueue (callClient callback err).
Proof.
  unfold callClient, emit. repeat monad_step; same_queue.
Qed.

Lemma visitAll_quiet visitor :
  (∀ x, preserves sameQueue (visitor x)) → preserves sameQueue (visitAll visitor).
Proof. intros H. unfold visitAll. repeat monad_step. apply H. Qed.

Lemma applyCallback_quiet callback err : preserves sameQueue (applyCallback callback err).
Proof.
  induction callback; simpl.
  - unfold emit, setActive. repeat monad_step; try same_queue; apply callClient_quiet.
  - apply (@preserves_bind sameQueue _); [|intros _; exact IHcallback].
    apply visitAll_quiet. intros x. unfold _clearCachedData. repeat monad_step; same_queue.
  - unfold emit. repeat monad_step; try same_queue; try apply callClient_quiet.
    apply visitAll_quiet. intros x. repeat monad_step; same_queue.
  - unfold emit. repeat monad_step; same_queue.
  - unfold predecrementDirectory, setStat, getCached, _fireChangeEvent, emit.
    repeat monad_step; same_queue.
Qed.

Lemma enqueuedIds_app l1 l2 : enqueuedIds (l1 ++ l2) = enqueuedIds l1 ++ enqueuedIds l2.
Proof. apply omap_app. Qed.
Lemma startedIds_app l1 l2 : startedIds (l1 ++ l2) = startedIds l1 ++ startedIds l2.
Proof. apply omap_app. Qed.
Lemma shiftedIds_app l1 l2 : shiftedIds (l1 ++ l2) = shiftedIds l1 ++ shiftedIds l2.
Proof. apply omap_app. Qed.

Lemma fnEvent_ids request :
  enqueuedIds [fnEvent request] = [] ∧ startedIds [fnEvent request] = []
  ∧ shiftedIds [fnEvent request] = [].
Proof.
  unfold fnEvent, implCommand. destruct (fn request) as [[] ?|? ? ?]; done.
Qed.

Lemma fnContinuation_held request cells :
  heldAs request [fnContinuation request] cells.
Proof.
  unfold fnContinuation. destruct (fn request); [by left|right; left; eauto].
Qed.

Lemma isRequestCont_fnContinuation request : isRequestCont (fnContinuation request) = true.
Proof. unfold fnContinuation. by destruct (fn request). Qed.

(** The state after [request.fn] was called for the head of the queue. *)
Lemma started_invariant request rest s :
  _watchRequests s = request :: rest →
  requestConts s = [] →
  enqueuedIds (trace s) = shiftedIds (trace s) ++ map rid (request :: rest) →
  startedIds (trace s) = shiftedIds (trace s) →
  queueInvariant (started request s).
Proof.
  intros Hq Hc He Hs. unfold queueInvariant, inOrder, started, requestConts in *.
  cbn [_watchRequests pending counters trace set_pending set_trace].
  destruct (fnEvent_ids request) as (F1 & F2 & F3).
  rewrite Hq. rewrite enqueuedIds_app, startedIds_app, shiftedIds_app.
  change [Started (rid request); fnEvent request]
    with ([Started (rid request)] ++ [fnEvent request]).
  rewrite enqueuedIds_app, startedIds_app, shiftedIds_app, F1, F2, F3.
  simpl. rewrite !app_nil_r, He, Hs. split; [done|].
  rewrite List.filter_app, Hc. simpl. rewrite isRequestCont_fnContinuation.
  apply fnContinuation_held.
Qed.

Lemma enqueueWatchRequest_keeps fn cb :
  preserves invariantStep (_enqueueWatchRequest fn cb).
Proof.
  intros s [[He Hs] Hh]. rewrite enqueueWatchRequest_outcome. cbn [fst].
  destruct (_watchRequests s) as [|r0 rest] eqn:Hq.
  - simpl in He, Hs. rewrite app_nil_r in He, Hs.
    apply started_invariant with (rest := []).
    + unfold enqueued. cbn. rewrite Hq. reflexivity.
    + exact Hh.
    + unfold enqueued. cbn [trace set_trace]. rewrite enqueuedIds_app, shiftedIds_app.
      simpl. rewrite app_nil_r. rewrite He. reflexivity.
    + unfold enqueued. cbn [trace set_trace]. rewrite startedIds_app, shiftedIds_app.
      simpl. rewrite !app_nil_r. exact Hs.
  - unfold queueInvariant, inOrder, enqueued, requestConts in *.
    cbn [_watchRequests pending counters trace set_pending set_trace set_watchRequests set_nextId].
    rewrite Hq. rewrite enqueuedIds_app, startedIds_app, shiftedIds_app.
    simpl. rewrite !app_nil_r. rewrite He, Hs. simpl.
    split; [|exact Hh]. split; [|reflexivity].
    rewrite map_app. simpl. rewrite <- app_assoc. reflexivity.
Qed.

Lemma quiet_invariantStep {A} (m : M A) : preserves sameQueue m → preserves invariantStep m.
Proof. apply preserves_weaken. apply sameQueue_invariantStep. Qed.

Lemma watchOrUnwatchEntry_keeps entry watchedRoot callback shouldWatch :
  preserves invariantStep (_watchOrUnwatchEntry entry watchedRoot callback shouldWatch).
Proof.
  unfold _watchOrUnwatchEntry. repeat monad_step;
    try apply enqueueWatchRequest_keeps.
  apply quiet_invariantStep, applyCallback_quiet.
Qed.

Lemma requestCb_restores request err s :
  calledBack request s → queueInvariant (exec (requestCb request err) s).
Proof.
  intros Hc. unfold exec, requestCb, tryFinally.
  pose proof (applyCallback_quiet (cb request) err s) as Hq.
  destruct (applyCallback (cb request) err s) as [s1 r]. cbn [fst] in Hq.
  pose proof (sameQueue_calledBack _ _ _ Hq Hc) as ([He Hs] & Hh & Hk).
  rewrite shift_dequeue_outcome. cbn [fst].
  destruct (_watchRequests s1) as [|r0 rest] eqn:Hqueue; [discriminate|].
  injection Hh as ->. cbv zeta. simpl in He, Hs.
  destruct rest as [|next rest].
  - unfold queueInvariant, inOrder, requestConts in *.
    cbn [_watchRequests pending counters trace set_pending set_trace set_watchRequests].
    rewrite enqueuedIds_app, startedIds_app, shiftedIds_app. simpl.
    rewrite !app_nil_r. rewrite He, Hs. done.
  - apply started_invariant with (rest := rest).
    + reflexivity.
    + exact Hk.
    + cbn [trace set_trace]. rewrite enqueuedIds_app, shiftedIds_app. simpl.
      rewrite app_nil_r, He, <- app_assoc. reflexivity.
    + cbn [trace set_trace]. rewrite startedIds_app, shiftedIds_app. simpl.
      rewrite app_nil_r, Hs. reflexivity.
Qed.

Lemma forEach_countdown shouldWatch cell request (l : list Entry) s :
  let s' := exec (forEach l (λ entry,
              emit (implCommand shouldWatch (fullPath entry)) ;;
              suspend (CountdownCb cell request))) s in
  _watchRequests s' = _watchRequests s
  ∧ counters s' = counters s
  ∧ enqueuedIds (trace s') = enqueuedIds (trace s)
  ∧ startedIds (trace s') = startedIds (trace s)
  ∧ shiftedIds (trace s') = shiftedIds (trace s)
  ∧ requestConts s'
    = requestConts s ++ replicate (List.length l) (CountdownCb cell request).
Proof.
  revert s. induction l as [|x l IH]; intros s; cbv zeta.
  - simpl. rewrite app_nil_r. done.
  - assert (Hstep : ∀ f : Entry → M unit,
      f = (λ entry, emit (implCommand shouldWatch (fullPath entry)) ;;
                    suspend (CountdownCb cell request)) →
      exec (forEach (x :: l) f) s
      = exec (forEach l f)
          (set_pending (pending s ++ [CountdownCb cell request])
             (set_trace (trace s ++ [implCommand shouldWatch (fullPath x)]) s))).
    { intros f ->. reflexivity. }
    rewrite (Hstep _ eq_refl). clear Hstep.
    match goal with |- context [exec (forEach l ?f) ?st] =>
      destruct (IH st) as (H1 & H2 & H3 & H4 & H5 & H6) end.
    rewrite H1, H2, H3, H4, H5, H6.
    unfold requestConts. cbn [_watchRequests pending counters trace set_pending set_trace].
    rewrite enqueuedIds_app, startedIds_app, shiftedIds_app, List.filter_app.
    unfold implCommand. destruct shouldWatch; simpl; rewrite !app_nil_r, <- app_assoc; done.
Qed.

Lemma newCounter_outcome n s :
  newCounter n s
  = (set_counters (<[nextId s := Z.of_nat n]> (counters s)) (set_nextId (S (nextId s)) s),
     Ok (nextId s)).
Proof. reflexivity. Qed.

Lemma visitCb_restores shouldWatch watchedRoot request err visited s :
  calledBack request s →
  queueInvariant (exec (visitCb shouldWatch watchedRoot request err visited) s).
Proof.
  intros Hc. unfold visitCb. cbv zeta.
  destruct (truthyErr err); [by apply requestCb_restores|].
  set (entries := List.filter _ visited).
  destruct (Nat.eqb_spec (List.length entries) 0) as [|Hn]; [by apply requestCb_restores|].
  unfold exec. unfold bind at 1. rewrite newCounter_outcome.
  match goal with |- context [forEach entries ?f ?st] =>
    pose proof (forEach_countdown shouldWatch (nextId s) request entries st) as H end.
  cbv zeta in H. unfold exec in H.
  destruct H as (H1 & H2 & H3 & H4 & H5 & H6).
  destruct Hc as ([He Hs] & Hh & Hk).
  unfold queueInvariant, inOrder. rewrite H1, H2, H3, H4, H5, H6.
  unfold requestConts in *.
  cbn [_watchRequests pending counters trace set_pending set_trace set_counters set_nextId].
  split; [done|]. rewrite Hk. simpl.
  destruct (_watchRequests s) as [|r0 rest]; [discriminate|]. injection Hh as ->.
  right. right. exists (nextId s). split; [|split].
  - destruct entries; [contradiction|discriminate].
  - apply Forall_replicate. reflexivity.
  - rewrite length_replicate. apply lookup_insert_eq.
Qed.

Lemma predecrement_outcome cell n s :
  counters s !! cell = Some n →
  predecrement cell s = (set_counters (<[cell := (n - 1)%Z]> (counters s)) s, Ok (n - 1)%Z).
Proof. intros H. unfold predecrement. monad_unfold. rewrite H. reflexivity. Qed.

Lemma countdownCb_restores cell request s :
  inOrder s →
  head (_watchRequests s) = Some request →
  Forall (λ k, k = CountdownCb cell request) (requestConts s) →
  counters s !! cell = Some (Z.of_nat (S (List.length (requestConts s)))) →
  queueInvariant (exec (countdownCb cell request) s).
Proof.
  intros Ho Hh Hf Hc. unfold countdownCb.
  unfold exec. unfold bind at 1. rewrite (predecrement_outcome _ _ _ Hc).
  replace (Z.of_nat (S (List.length (requestConts s))) - 1)%Z
    with (Z.of_nat (List.length (requestConts s))) by lia.
  destruct (Z.eqb_spec (Z.of_nat (List.length (requestConts s))) 0) as [Hz|Hz].
  - apply requestCb_restores. split; [exact Ho|]. split; [exact Hh|].
    unfold requestConts in *. cbn [pending set_counters].
    destruct (List.filter isRequestCont (pending s)); [reflexivity|discriminate].
  - unfold ret. cbn [fst]. unfold queueInvariant, inOrder, requestConts in *.
    cbn [_watchRequests pending counters trace set_counters].
    split; [exact Ho|].
    destruct (_watchRequests s) as [|r0 rest]; [discriminate|]. injection Hh as ->.
    right. right. exists cell. split; [|split].
    + intros E. rewrite E in Hz. contradiction.
    + exact Hf.
    + apply lookup_insert_eq.
Qed.

(** One step of a proof that a computation keeps the invariant of the
    queue: through the monad, then by what is known of the parts. *)
Ltac queue_step :=
  first
    [ monad_step
    | apply enqueueWatchRequest_keeps
    | apply watchOrUnwatchEntry_keeps
    | apply quiet_invariantStep, applyCallback_quiet
    | apply quiet_invariantStep, callClient_quiet
    | apply sameQueue_invariantStep; same_queue ].

Lemma contentsCb_keeps directory oldContents stat contents :
  preserves invariantStep (contentsCb directory oldContents stat contents).
Proof.
  unfold contentsCb, setContents, setStat, getCached, _findWatchedRootForPath,
    _fireChangeEvent, emit, visitAll, _clearCachedData, newDirectoryCounter, fresh,
    _watchEntry, _unwatchEntry.
  repeat queue_step.
Qed.

Lemma getEntryForPath_quiet constructor path :
  preserves sameQueue (_getEntryForPath constructor path).
Proof.
  unfold _getEntryForPath, fresh. repeat monad_step; same_queue.
Qed.

Lemma handleExternalChange_quiet path stat :
  preserves sameQueue (_handleExternalChange path stat).
Proof.
  unfold _handleExternalChange, _handleDirectoryChange, visitAll, _clearCachedData,
    setStat, _fireChangeEvent, emit, getCached, suspend.
  repeat monad_step; same_queue.
Qed.

Lemma triggerExternalChangesNow_quiet : preserves sameQueue _triggerExternalChangesNow.
Proof.
  unfold _triggerExternalChangesNow. repeat monad_step; try same_queue.
  apply handleExternalChange_quiet.
Qed.

Lemma watch_keeps entry filter callback : preserves invariantStep (watch entry filter callback).
Proof.
  unfold watch, fresh, _findWatchedRootForPath, isActive, _watchEntry.
  repeat queue_step.
Qed.

Lemma unwatch_keeps entry callback : preserves invariantStep (unwatch entry callback).
Proof.
  unfold unwatch, setActive, _unwatchEntry. repeat queue_step.
Qed.

Lemma unwatchAll_keeps : preserves invariantStep _unwatchAll.
Proof.
  unfold _unwatchAll, emit, setActive, _unwatchEntry. repeat queue_step.
  apply quiet_invariantStep, handleExternalChange_quiet.
Qed.

Lemma app_cons_singleton {A} (l1 l2 : list A) k x :
  l1 ++ k :: l2 = [x] → l1 = [] ∧ k = x ∧ l2 = [].
Proof.
  destruct l1 as [|y l1]; simpl; intros H.
  - injection H as -> ->. done.
  - injection H as _ H. by destruct l1.
Qed.

Lemma callBack_keeps i reply : preserves invariantStep (callBack i reply).
Proof.
  intros s Hinv. unfold callBack. unfold bind at 1. unfold gets at 1.
  destruct (pending s !! i) as [k|] eqn:Hi; [|exact Hinv].
  unfold bind at 1. unfold modify at 1.
  pose proof (take_drop_middle _ _ _ Hi) as Hsplit.
  set (s1 := set_pending (delete i (pending s)) s).
  assert (Hconts : requestConts s
                   = List.filter isRequestCont (take i (pending s))
                     ++ (if isRequestCont k then [k] else [])
                     ++ List.filter isRequestCont (drop (S i) (pending s))).
  { unfold requestConts. rewrite <- Hsplit at 1. rewrite List.filter_app. simpl.
    destruct (isRequestCont k); reflexivity. }
  assert (Hconts1 : requestConts s1
                    = List.filter isRequestCont (take i (pending s))
                      ++ List.filter isRequestCont (drop (S i) (pending s))).
  { unfold requestConts, s1. cbn [pending set_pending].
    rewrite delete_take_drop, List.filter_app. reflexivity. }
  assert (Hrest : _watchRequests s1 = _watchRequests s ∧ counters s1 = counters s
                  ∧ trace s1 = trace s) by done.
  destruct Hrest as (Hq1 & Hc1 & Ht1).
  destruct Hinv as [Ho Hh].
  assert (Ho1 : inOrder s1) by (unfold inOrder; rewrite Hq1, Ht1; exact Ho).
  destruct (isRequestCont k) eqn:Hk.
  - (* a continuation of a watch request: it is the head's *)
    destruct (_watchRequests s) as [|r0 rest] eqn:Hqueue.
    { rewrite Hh in Hconts. by destruct (List.filter isRequestCont (take i (pending s))). }
    assert (Hhead : head (_watchRequests s1) = Some r0) by (rewrite Hq1; reflexivity).
    destruct Hh as [Hh|[(w & root & Hh)|(cell & Hne & Hall & Hcell)]].
    + rewrite Hh in Hconts. symmetry in Hconts.
      apply app_cons_singleton in Hconts as (H1 & -> & H2).
      rewrite H1, H2 in Hconts1. simpl.
      apply requestCb_restores. done.
    + rewrite Hh in Hconts. symmetry in Hconts.
      apply app_cons_singleton in Hconts as (H1 & -> & H2).
      rewrite H1, H2 in Hconts1. simpl.
      apply visitCb_restores. done.
    + rewrite Hconts in Hall, Hcell.
      apply Forall_app in Hall as [Hall1 Hall2].
      apply Forall_cons in Hall2 as [-> Hall2]. simpl.
      apply countdownCb_restores; try done.
      * rewrite Hconts1. by apply Forall_app.
      * rewrite Hc1, Hcell, Hconts1. do 2 f_equal.
        rewrite !length_app. simpl. lia.
  - (* the continuation of a directory listing *)
    assert (Hinv1 : queueInvariant s1).
    { split; [exact Ho1|]. rewrite Hq1, Hc1, Hconts1.
      rewrite Hconts in Hh. exact Hh. }
    destruct k; try discriminate Hk. simpl.
    by apply contentsCb_keeps.
Qed.

Lemma perform_keeps a : preserves invariantStep (perform a).
Proof.
  destruct a; simpl.
  - apply quiet_invariantStep. unfold getFileForPath. repeat monad_step.
    apply getEntryForPath_quiet.
  - apply quiet_invariantStep. unfold getDirectoryForPath. repeat monad_step.
    apply getEntryForPath_quiet.
  - apply watch_keeps.
  - apply unwatch_keeps.
  - apply quiet_invariantStep. unfold close, emit. repeat monad_step; same_queue.
  - apply quiet_invariantStep. unfold _beginChange. repeat monad_step; same_queue.
  - apply quiet_invariantStep. unfold _endChange, emit. repeat monad_step; try same_queue.
    all: apply triggerExternalChangesNow_quiet.
  - apply quiet_invariantStep. unfold _enqueueExternalChange.
    repeat monad_step; try same_queue. apply triggerExternalChangesNow_quiet.
  - apply unwatchAll_keeps.
  - apply callBack_keeps.
Qed.

Lemma run_keeps actions s : queueInvariant s → queueInvariant (run actions s).
Proof.
  revert s. induction actions as [|a actions IH]; intros s H; [exact H|].
  simpl. apply IH. by apply perform_keeps.
Qed.

Lemma init_invariant impl : queueInvariant (init impl).
Proof. by repeat split. Qed.

Lemma reachable_invariant s : reachable s → queueInvariant s.
Proof. intros (impl & actions & ->). apply run_keeps, init_invariant. Qed.

Lemma heldAs_contRequest request ks cells k :
  heldAs request ks cells → k ∈ ks → contRequest k = Some request.
Proof.
  intros [->|[(w & root & ->)|(cell & _ & Hall & _)]] Hk.
  - apply list_elem_of_singleton in Hk as ->. reflexivity.
  - apply list_elem_of_singleton in Hk as ->. reflexivity.
  - rewrite Forall_forall in Hall. rewrite (Hall _ Hk). reflexivity.
Qed.

Lemma heldAs_nonempty request ks cells : heldAs request ks cells → ∃ k, k ∈ ks.
Proof.
  intros [->|[(w & root & ->)|(cell & Hne & _ & _)]].
  - eexists. apply list_elem_of_here.
  - eexists. apply list_elem_of_here.
  - destruct ks as [|k ks]; [contradiction|]. exists k. apply list_elem_of_here.
Qed.

Lemma invariant_serial s : queueInvariant s → serial s.
Proof.
  intros [Ho Hh]. split; [|split; [|exact Ho]].
  - intros k request Hk Hr.
    assert (Hin : k ∈ requestConts s).
    { unfold requestConts. apply list_elem_of_In, filter_In. split.
      - by apply list_elem_of_In.
      - unfold isRequestCont. by rewrite Hr. }
    destruct (_watchRequests s) as [|r0 rest].
    + rewrite Hh in Hin. by apply elem_of_nil in Hin.
    + rewrite (heldAs_contRequest _ _ _ _ Hh Hin) in Hr. injection Hr as ->. reflexivity.
  - intros request Hhead.
    destruct (_watchRequests s) as [|r0 rest]; [discriminate|]. injection Hhead as ->.
    destruct (heldAs_nonempty _ _ _ Hh) as [k Hk]. exists k. split.
    + unfold requestConts in Hk. apply list_elem_of_In, filter_In in Hk as [Hk _].
      by apply list_elem_of_In.
    + by eapply heldAs_contRequest.
Qed.

(** C8. In every state that clients and collaborators can bring about, the
    continuations held by collaborators belong to the head of the queue,
    the head of a non-empty queue is in flight, and requests have been
    started and shifted in the order they were pushed.  Pushing a request
    starts it only if the queue was empty.  The continuation given to a
    request function applies the callback of the request, then shifts the
    queue and starts the next request, also when the callback throws; the
    exception is passed on after that. *)
Theorem watch_requests_serial :
  (∀ s, reachable s → serial s)
  ∧ (∀ fn cb s,
       let request := {| rid := nextId s; fn := fn; cb := cb |} in
       _enqueueWatchRequest fn cb s =
         (match _watchRequests s with
          | [] => started request (enqueued request s)
          | _ :: _ => enqueued request s
          end, Ok tt))
  ∧ (∀ request first rest err s,
       _watchRequests s = first :: rest →
       let applied := applyCallback (cb request) err s in
       let shifted := set_trace (trace applied.1 ++ [Shifted (rid first)])
                        (set_watchRequests rest applied.1) in
       requestCb request err s =
         (match rest with
          | next :: _ => started next shifted
          | [] => shifted
          end, applied.2)).
Proof.
  split; [|split].
  - intros s Hs. apply invariant_serial, reachable_invariant, Hs.
  - apply enqueueWatchRequest_outcome.
  - intros request first rest err s Hq. cbv zeta.
    unfold requestCb, tryFinally.
    pose proof (applyCallback_quiet (cb request) err s) as (Hsame & _).
    destruct (applyCallback (cb request) err s) as [s1 r]. cbn [fst snd] in *.
    rewrite shift_dequeue_outcome, Hsame, Hq. cbv zeta.
    destruct rest; reflexivity.
Qed.

(** A run in which the callback of the first request throws: the second
    request is started all the same. *)
Lemma watch_requests_serial_witness :
  serial (run throwingRun (init recursiveImpl))
  ∧ trace (run throwingRun (init recursiveImpl))
    = [Enqueued 1; Started 1; WatchPath "/a/"; Enqueued 3;
       Called 1 None; Shifted 1; Started 3; WatchPath "/b/"]
  ∧ map rid (_watchRequests (run throwingRun (init recursiveImpl))) = [3].
Proof.
  split; [|split; vm_compute; reflexivity].
  apply watch_requests_serial. exists recursiveImpl, throwingRun. reflexivity.
Defined.

End Serial.

(** ** Watching without recursive watch *)

Section NonRecursive.

Lemma callBack_middle (k : Continuation) reply s ks rest :
  pending s = ks ++ k :: rest →
  callBack (List.length ks) reply s = resume k reply (set_pending (ks ++ rest) s).
Proof.
  intros Hp. unfold callBack. unfold bind at 1. unfold gets at 1. rewrite Hp.
  rewrite list_lookup_middle by reflexivity.
  unfold bind, modify. rewrite delete_middle. reflexivity.
Qed.

Lemma bind_ret_tt (m : M unit) s : (m ;; ret tt) s = m s.
Proof. unfold bind, ret. by destruct (m s) as [s' [[]|e]]. Qed.

Lemma forEach_watchPaths cell request (l : list Entry) s :
  forEach l (λ entry,
      emit (implCommand true (fullPath entry)) ;; suspend (CountdownCb cell request)) s
  = (set_pending (pending s ++ replicate (List.length l) (CountdownCb cell request))
       (set_trace (trace s ++ watchPaths l) s), Ok tt).
Proof.
  revert s. induction l as [|x l IH]; intros s.
  - simpl. unfold ret. rewrite !app_nil_r. by destruct s.
  - assert (Hstep : ∀ f : Entry → M unit,
      f = (λ entry, emit (implCommand true (fullPath entry)) ;;
                    suspend (CountdownCb cell request)) →
      forEach (x :: l) f s
      = forEach l f
          (set_pending (pending s ++ [CountdownCb cell request])
             (set_trace (trace s ++ [WatchPath (fullPath x)]) s))).
    { intros f ->. reflexivity. }
    rewrite (Hstep _ eq_refl), IH. clear Hstep IH.
    cbn [pending trace set_pending set_trace]. simpl.
    rewrite <- !app_assoc. reflexivity.
Qed.

(** The backend answers the calls of [impl.watchPath] or
    [impl.unwatchPath] of a request: all but the last answer only count
    down, and no answer is looked at. *)
Lemma answerAll_countdown replies : ∀ s ks cell request m,
  pending s = ks ++ replicate m (CountdownCb cell request) →
  counters s !! cell = Some (Z.of_nat m) →
  (List.length replies < m →
     ∃ cells,
       answerAll (List.length ks) replies s
       = (set_counters cells
            (set_pending
               (ks ++ replicate (m - List.length replies) (CountdownCb cell request)) s),
          Ok tt))
  ∧ (List.length replies = m → m ≠ 0 →
     ∃ cells,
       answerAll (List.length ks) replies s
       = requestCb request None (set_counters cells (set_pending ks s))).
Proof.
  induction replies as [|reply replies IH]; intros s ks cell request m Hp Hc.
  - split.
    + intros _. exists (counters s). simpl. unfold ret. rewrite Nat.sub_0_r, <- Hp.
      by destruct s.
    + intros <- H. by destruct H.
  - destruct m as [|m]; [split; simpl; intros; lia|].
    assert (Hstep : callBack (List.length ks) reply s
      = if (Z.of_nat m =? 0)%Z
        then requestCb request None
               (set_counters (<[cell := Z.of_nat m]> (counters s))
                  (set_pending (ks ++ replicate m (CountdownCb cell request)) s))
        else (set_counters (<[cell := Z.of_nat m]> (counters s))
                (set_pending (ks ++ replicate m (CountdownCb cell request)) s), Ok tt)).
    { rewrite (callBack_middle (CountdownCb cell request) reply s ks
                 (replicate m (CountdownCb cell request))) by exact Hp.
      unfold resume, countdownCb. unfold bind at 1.
      rewrite (predecrement_outcome cell (Z.of_nat (S m))) by exact Hc.
      replace (Z.of_nat (S m) - 1)%Z with (Z.of_nat m) by lia.
      cbn [counters set_pending]. by destruct (Z.of_nat m =? 0)%Z. }
    assert (Hcons : answerAll (List.length ks) (reply :: replies) s
      = match callBack (List.length ks) reply s with
        | (s', Ok _) => answerAll (List.length ks) replies s'
        | (s', Throw e) => (s', Throw e)
        end) by reflexivity.
    rewrite Hcons, Hstep. clear Hcons Hstep.
    destruct m as [|m].
    + (* the last answer *)
      split; [simpl; intros; lia|]. intros Hlen _.
      destruct replies; [|discriminate Hlen].
      exists (<[cell := 0%Z]> (counters s)). simpl.
      rewrite app_nil_r. unfold answerAll. simpl. unfold ret.
      by destruct (requestCb request None _) as [s' [[]|e]].
    + change (Z.of_nat (S m) =? 0)%Z with false. cbv iota.
      set (s1 := set_counters _ _).
      destruct (IH s1 ks cell request (S m)) as [IH1 IH2].
      { reflexivity. }
      { unfold s1. cbn [counters set_counters]. apply lookup_insert_eq. }
      split.
      * intros Hlen. destruct IH1 as [cells H]; [simpl in Hlen; lia|].
        exists cells. rewrite H. reflexivity.
      * intros Hlen _. destruct IH2 as [cells H]; [simpl in Hlen; lia|done|].
        exists cells. rewrite H. reflexivity.
Qed.

Lemma watch_nonRecursive s entry filter (c : ClientCallback) :
  recursiveWatch (_impl s) = false →
  _watchRequests s = [] →
  noActiveParent s (fullPath entry) →
  watch entry filter (Some c) s
  = (started (visitRequest s entry filter c)
       (enqueued (visitRequest s entry filter c)
          (set_watchedRoots
             (setRoot (fullPath entry) (newRoot s entry filter) (_watchedRoots s))
             (set_nextId (S (nextId s)) s))), Ok tt).
Proof.
  intros Hrec Hq Hpar.
  rewrite watch_outcome. cbv zeta. rewrite (noActiveParent_decide _ _ Hpar).
  rewrite enqueueWatchRequest_outcome. cbv zeta.
  cbn [_watchRequests set_watchedRoots set_nextId _impl nextId].
  rewrite Hq. unfold rootRequestFn. rewrite Hrec. reflexivity.
Qed.

Lemma watchVisited_outcome s entry filter (c : ClientCallback) err visited :
  recursiveWatch (_impl s) = false →
  _watchRequests s = [] →
  noActiveParent s (fullPath entry) →
  watchVisited s entry filter c err visited s
  = visitCb true (newRoot s entry filter) (visitRequest s entry filter c) err visited
      (set_pending (pending s)
         (started (visitRequest s entry filter c)
            (enqueued (visitRequest s entry filter c)
               (set_watchedRoots
                  (setRoot (fullPath entry) (newRoot s entry filter) (_watchedRoots s))
                  (set_nextId (S (nextId s)) s))))).
Proof.
  intros Hrec Hq Hpar. unfold watchVisited, bind.
  rewrite (watch_nonRecursive _ _ _ _ Hrec Hq Hpar).
  erewrite callBack_at; [|reflexivity|reflexivity]. reflexivity.
Qed.

Lemma watchVisited_pending s entry filter (c : ClientCallback) err visited :
  recursiveWatch (_impl s) = false →
  _watchRequests s = [] →
  noActiveParent s (fullPath entry) →
  truthyErr err = false →
  entriesToWatchOrUnwatch (newRoot s entry filter) visited ≠ [] →
  watchVisited s entry filter c err visited s
  = (watchPending s entry filter c
       (entriesToWatchOrUnwatch (newRoot s entry filter) visited), Ok tt).
Proof.
  intros Hrec Hq Hpar Herr Htodo.
  rewrite (watchVisited_outcome _ _ _ _ _ _ Hrec Hq Hpar).
  unfold visitCb. rewrite Herr. cbv zeta.
  fold (entriesToWatchOrUnwatch (newRoot s entry filter) visited).
  destruct (entriesToWatchOrUnwatch (newRoot s entry filter) visited) as [|x todo] eqn:E;
    [done|].
  change (List.length (x :: todo) =? 0)%nat with false. cbv iota.
  unfold bind at 1. rewrite newCounter_outcome. rewrite forEach_watchPaths.
  unfold watchPending, started, enqueued, fnEvent, visitRequest.
  cbn [pending trace counters nextId _watchRequests set_pending set_trace set_counters
       set_nextId set_watchRequests set_watchedRoots fn rid].
  rewrite Hq. rewrite <- !app_assoc. reflexivity.
Qed.

(** What completing the request does once the traversal or the last answer
    has come in. *)
Lemma requestCb_watch s entry filter (c : ClientCallback) err s1 :
  _watchRequests s1 = [visitRequest s entry filter c] →
  exec (requestCb (visitRequest s entry filter c) err) s1
  = set_trace
      (trace s1
         ++ (if truthyErr err
             then [ConsoleWarn "Failed to watch root: " (fullPath entry);
                   Called (cbTag c) err]
             else [Called (cbTag c) None])
         ++ [Shifted (S (nextId s))])
      (set_watchRequests []
         (if truthyErr err
          then set_watchedRoots (deleteRoot (fullPath entry) (_watchedRoots s1)) s1
          else set_activeRoots ({[nextId s]} ∪ activeRoots s1) s1)).
Proof.
  intros Hq. unfold exec, requestCb, tryFinally. cbn [cb visitRequest].
  rewrite applyCallback_watchCb.
  destruct (truthyErr err); rewrite callClient_outcome, shift_dequeue_outcome;
    cbn [_watchRequests set_trace set_watchedRoots set_activeRoots]; rewrite Hq;
    destruct (cbThrows c _); cbn [fst rid visitRequest];
    cbn [trace set_trace set_watchedRoots set_activeRoots set_watchRequests newRoot rootId];
    rewrite <- ?app_assoc; reflexivity.
Qed.

(** X18. Under a backend without recursive watch, [watch] registers the
    root and has the root entry traversed.  If the traversal fails, the
    watch fails with its error and the root is unregistered; if it
    presents nothing to watch, the watch succeeds at once; in both cases
    the backend is not asked to watch anything.  Otherwise the backend is
    asked to watch, in the order of the traversal, every presented entry
    that the filter accepts and that is a directory or the root entry, and
    the root stays inactive with its request in the queue. *)
Theorem watch_traversal_outcome (s : FileSystem) (entry : Entry) (filter : Filter)
    (c : ClientCallback) (err : option string) (visited : list Entry) :
  recursiveWatch (_impl s) = false →
  _watchRequests s = [] →
  noActiveParent s (fullPath entry) →
  let root := newRoot s entry filter in
  let id := S (nextId s) in
  let todo := entriesToWatchOrUnwatch root visited in
  let run := watchVisited s entry filter c err visited in
  (truthyErr err = true →
     lookupRoot (fullPath entry) (_watchedRoots (exec run s)) = None
     ∧ activeRoots (exec run s) = activeRoots s
     ∧ newEvents run s
       = [Enqueued id; Started id; Visit entry;
          ConsoleWarn "Failed to watch root: " (fullPath entry);
          Called (cbTag c) err; Shifted id])
  ∧ (truthyErr err = false → todo = [] →
     lookupRoot (fullPath entry) (_watchedRoots (exec run s)) = Some root
     ∧ activeRoots (exec run s) = {[rootId root]} ∪ activeRoots s
     ∧ newEvents run s
       = [Enqueued id; Started id; Visit entry; Called (cbTag c) None; Shifted id])
  ∧ (truthyErr err = false → todo ≠ [] →
     lookupRoot (fullPath entry) (_watchedRoots (exec run s)) = Some root
     ∧ activeRoots (exec run s) = activeRoots s
     ∧ newEvents run s = [Enqueued id; Started id; Visit entry] ++ watchPaths todo
     ∧ _watchRequests (exec run s) = [visitRequest s entry filter c]).
Proof.
  intros Hrec Hq Hpar. cbv zeta.
  assert (Hdone : ∀ err',
    (truthyErr err = true ∧ err' = err
     ∨ truthyErr err = false ∧ err' = None
       ∧ entriesToWatchOrUnwatch (newRoot s entry filter) visited = []) →
    exec (watchVisited s entry filter c err visited) s
    = exec (requestCb (visitRequest s entry filter c) err')
        (set_pending (pending s)
           (started (visitRequest s entry filter c)
              (enqueued (visitRequest s entry filter c)
                 (set_watchedRoots
                    (setRoot (fullPath entry) (newRoot s entry filter) (_watchedRoots s))
                    (set_nextId (S (nextId s)) s)))))).
  { intros err' H. unfold exec at 1.
    rewrite (watchVisited_outcome _ _ _ _ _ _ Hrec Hq Hpar). unfold visitCb. cbv zeta.
    fold (entriesToWatchOrUnwatch (newRoot s entry filter) visited).
    destruct H as [[-> ->]|(-> & -> & ->)]; reflexivity. }
  split; [|split].
  - intros Herr. unfold newEvents. rewrite (Hdone err) by (by left).
    rewrite (requestCb_watch s entry filter c err)
      by (unfold started, enqueued; cbn; by rewrite Hq).
    rewrite Herr. unfold started, enqueued, fnEvent, visitRequest.
    cbn [_watchedRoots activeRoots trace set_trace set_pending set_watchRequests
         set_watchedRoots set_nextId set_activeRoots fn rid].
    split; [apply lookupRoot_deleteRoot|]. split; [reflexivity|].
    rewrite <- !app_assoc. apply drop_app_length.
  - intros Herr Htodo. unfold newEvents. rewrite (Hdone None) by (by right).
    rewrite (requestCb_watch s entry filter c None)
      by (unfold started, enqueued; cbn; by rewrite Hq).
    unfold started, enqueued, fnEvent, visitRequest.
    cbn [truthyErr _watchedRoots activeRoots trace set_trace set_pending set_watchRequests
         set_watchedRoots set_nextId set_activeRoots fn rid].
    split; [apply lookupRoot_setRoot|]. split; [reflexivity|].
    rewrite <- !app_assoc. apply drop_app_length.
  - intros Herr Htodo. unfold newEvents, exec.
    rewrite (watchVisited_pending _ _ _ _ _ _ Hrec Hq Hpar Herr Htodo).
    unfold watchPending. cbn [fst _watchedRoots activeRoots trace _watchRequests set_trace
      set_pending set_watchRequests set_watchedRoots set_nextId set_counters rid visitRequest].
    split; [apply lookupRoot_setRoot|]. split; [reflexivity|].
    split; [apply drop_app_length|reflexivity].
Qed.

Lemma watch_traversal_outcome_witness :
  let s := exec (getDirectoryForPath "/proj") (init nonRecursiveImpl) in
  let sub := newEntry 7 "/proj/sub/" true in
  let file := newEntry 8 "/proj/a.txt" false in
  newEvents (watchVisited s projEntry acceptAll (quiet 1) None [projEntry; file; sub]) s
  = [Enqueued 2; Started 2; Visit projEntry; WatchPath "/proj/"; WatchPath "/proj/sub/"].
Proof.
  cbv zeta.
  destruct (watch_traversal_outcome
              (exec (getDirectoryForPath "/proj") (init nonRecursiveImpl))
              projEntry acceptAll (quiet 1) None
              [projEntry; newEntry 7 "/proj/sub/" true; newEntry 8 "/proj/a.txt" false])
    as (_ & _ & H); [reflexivity|reflexivity|exact I|].
  destruct (H eq_refl) as (_ & _ & H3 & _); [discriminate|].
  etransitivity; [|exact H3]. vm_compute. reflexivity.
Defined.

(** X19. The request of such a watch completes when the backend has
    answered every call of [impl.watchPath]: until then nothing is fired
    and the root stays inactive; with the last answer the root becomes
    active and the client is called back with [null].  The answers are not
    looked at, so the watch succeeds also when the backend failed to watch
    some or all of the paths. *)
Theorem watch_completes_with_last_answer (s : FileSystem) (entry : Entry)
    (filter : Filter) (c : ClientCallback) (err : option string) (visited : list Entry)
    (replies : list Reply) :
  recursiveWatch (_impl s) = false →
  _watchRequests s = [] →
  noActiveParent s (fullPath entry) →
  truthyErr err = false →
  let root := newRoot s entry filter in
  let id := S (nextId s) in
  let todo := entriesToWatchOrUnwatch root visited in
  let run := watchVisited s entry filter c err visited ;;
             answerAll (List.length (pending s)) replies in
  todo ≠ [] →
  (List.length replies < List.length todo →
     newEvents run s = [Enqueued id; Started id; Visit entry] ++ watchPaths todo
     ∧ activeRoots (exec run s) = activeRoots s
     ∧ _watchRequests (exec run s) = [visitRequest s entry filter c])
  ∧ (List.length replies = List.length todo →
     newEvents run s
     = [Enqueued id; Started id; Visit entry] ++ watchPaths todo
       ++ [Called (cbTag c) None; Shifted id]
     ∧ activeRoots (exec run s) = {[rootId root]} ∪ activeRoots s
     ∧ lookupRoot (fullPath entry) (_watchedRoots (exec run s)) = Some root
     ∧ _watchRequests (exec run s) = []).
Proof.
  intros Hrec Hq Hpar Herr. cbv zeta. intros Htodo.
  set (todo := entriesToWatchOrUnwatch (newRoot s entry filter) visited) in *.
  assert (Hrun : (watchVisited s entry filter c err visited ;;
                  answerAll (List.length (pending s)) replies) s
                 = answerAll (List.length (pending s)) replies
                     (watchPending s entry filter c todo)).
  { unfold bind.
    by rewrite (watchVisited_pending _ _ _ _ _ _ Hrec Hq Hpar Herr Htodo). }
  destruct (answerAll_countdown replies (watchPending s entry filter c todo) (pending s)
              (S (S (nextId s))) (visitRequest s entry filter c) (List.length todo))
    as [Hless Hall].
  { reflexivity. }
  { unfold watchPending. cbn [counters set_pending set_trace set_counters].
    apply lookup_insert_eq. }
  split.
  - intros Hlen. destruct (Hless Hlen) as [cells H].
    unfold newEvents, exec. rewrite Hrun, H. unfold watchPending.
    cbn [fst activeRoots trace _watchRequests set_trace set_pending set_watchRequests
         set_watchedRoots set_nextId set_counters rid visitRequest].
    split; [apply drop_app_length|done].
  - intros Hlen. destruct (Hall Hlen) as [cells H].
    { destruct todo; [done|discriminate]. }
    unfold newEvents. unfold exec at 1 2 3 4. rewrite Hrun, H.
    fold (exec (requestCb (visitRequest s entry filter c) None)
            (set_counters cells (set_pending (pending s) (watchPending s entry filter c todo)))).
    rewrite (requestCb_watch s entry filter c None) by reflexivity.
    unfold watchPending.
    cbn [truthyErr _watchedRoots activeRoots trace _watchRequests set_trace set_pending
         set_watchRequests set_watchedRoots set_nextId set_counters set_activeRoots
         rid visitRequest newRoot rootId].
    split; [rewrite <- !app_assoc; apply drop_app_length|].
    split; [reflexivity|]. split; [apply lookupRoot_setRoot|reflexivity].
Qed.

Lemma watch_completes_with_last_answer_witness :
  let s := exec (getDirectoryForPath "/proj") (init nonRecursiveImpl) in
  let sub := newEntry 7 "/proj/sub/" true in
  let run := watchVisited s projEntry acceptAll (quiet 1) None [projEntry; sub] ;;
             answerAll 0 [failure "NotFound"; failure "NotFound"] in
  newEvents run s
  = [Enqueued 2; Started 2; Visit projEntry; WatchPath "/proj/"; WatchPath "/proj/sub/";
     Called 1 None; Shifted 2]
  ∧ 1 ∈ activeRoots (exec run s).
Proof.
  cbv zeta.
  destruct (watch_completes_with_last_answer
              (exec (getDirectoryForPath "/proj") (init nonRecursiveImpl))
              projEntry acceptAll (quiet 1) None
              [projEntry; newEntry 7 "/proj/sub/" true]
              [failure "NotFound"; failure "NotFound"])
    as [_ H]; [reflexivity|reflexivity|exact I|reflexivity|discriminate|].
  destruct (H eq_refl) as (H1 & H2 & _).
  split; [etransitivity; [exact H1|vm_compute; reflexivity]|].
  change (1 ∈ activeRoots
            (exec (watchVisited (exec (getDirectoryForPath "/proj") (init nonRecursiveImpl))
                     projEntry acceptAll (quiet 1) None
                     [projEntry; newEntry 7 "/proj/sub/" true] ;;
                   answerAll (List.length
                     (pending (exec (getDirectoryForPath "/proj") (init nonRecursiveImpl))))
                     [failure "NotFound"; failure "NotFound"])
                  (exec (getDirectoryForPath "/proj") (init nonRecursiveImpl)))).
  rewrite H2. apply elem_of_union_l, elem_of_singleton. reflexivity.
Defined.

End NonRecursive.

(** ** Changes of directories *)

Section DirectoryChange.

#[global] Instance sameButCaches_preorder : PreOrder sameButCaches.
Proof.
  split.
  - intros s. by repeat split.
  - intros s1 s2 s3 (H1 & H2 & H3 & H4 & H5 & H6 & H7 & H8 & H9)
      (G1 & G2 & G3 & G4 & G5 & G6 & G7 & G8 & G9).
    unfold sameButCaches. repeat split; congruence.
Qed.

Lemma setStat_outcome entry stat s :
  setStat entry stat s = (set_cached (withStat entry stat (cached s)) s, Ok tt).
Proof. reflexivity. Qed.

Lemma setContents_outcome entry contents s :
  setContents entry contents s = (set_cached (withContents entry contents (cached s)) s, Ok tt).
Proof. reflexivity. Qed.

Lemma visitAll_clear prefix s :
  visitAll (λ entry,
      if Path.startsWith (fullPath entry) prefix
      then _clearCachedData entry else ret tt) s
  = (set_cached (clearCachedBelow prefix (_index s) (cached s)) s, Ok tt).
Proof.
  unfold visitAll. unfold bind at 1. unfold gets at 1. apply forEach_clear.
Qed.

Lemma forEach_clearedBelow (removed : list Entry) s :
  forEach removed (λ removed,
      visitAll (λ entry,
        if Path.startsWith (fullPath entry) (fullPath removed)
        then _clearCachedData entry else ret tt)) s
  = (set_cached (clearedBelow removed (_index s) (cached s)) s, Ok tt).
Proof.
  revert s. induction removed as [|r removed IH]; intros s.
  - simpl. unfold ret. by rewrite set_cached_same.
  - simpl. unfold bind. rewrite visitAll_clear, IH. reflexivity.
Qed.

Lemma clearCachedBelow_lookup prefix (index : gmap string Entry) (cache : gmap nat Cached) id :
  (cache !! id = None → clearCachedBelow prefix index cache !! id = None)
  ∧ (∀ path e, index !! path = Some e →
       Path.startsWith (fullPath e) prefix = true → eid e = id →
       clearCachedBelow prefix index cache !! id = None).
Proof.
  unfold clearCachedBelow.
  assert (H : ∀ (l : list Entry) (cache0 : gmap nat Cached),
    (cache0 !! id = None →
     foldl (λ cache child,
        if Path.startsWith (fullPath child) prefix then delete (eid child) cache else cache)
       cache0 l !! id = None)
    ∧ (∀ e, e ∈ l → Path.startsWith (fullPath e) prefix = true → eid e = id →
       foldl (λ cache child,
          if Path.startsWith (fullPath child) prefix then delete (eid child) cache else cache)
         cache0 l !! id = None)).
  { induction l as [|x l IH]; intros cache0.
    - split; [done|]. by intros e ?%elem_of_nil.
    - simpl. split.
      + intros Hn. apply IH. destruct (Path.startsWith _ _); [|exact Hn].
        rewrite lookup_delete_None. by right.
      + intros e [->|Hin]%elem_of_cons Hp He.
        * rewrite Hp. apply IH. rewrite He. apply lookup_delete_eq.
        * by eapply IH. }
  split; [apply H|].
  intros path e He. apply H. apply elem_of_entries. by exists path.
Qed.

Lemma clearedBelow_lookup removed (index : gmap string Entry) (cache : gmap nat Cached) id :
  (cache !! id = None → clearedBelow removed index cache !! id = None)
  ∧ (∀ r path e, r ∈ removed → index !! path = Some e →
       Path.startsWith (fullPath e) (fullPath r) = true → eid e = id →
       clearedBelow removed index cache !! id = None).
Proof.
  unfold clearedBelow. revert cache. induction removed as [|x removed IH]; intros cache.
  - split; [done|]. by intros r path e ?%elem_of_nil.
  - simpl. destruct (clearCachedBelow_lookup (fullPath x) index cache id) as [H1 H2]. split.
    + intros Hn. apply IH, H1, Hn.
    + intros r path e [->|Hin]%elem_of_cons He Hp Hid.
      * apply IH. by eapply H2.
      * by eapply IH.
Qed.

(** What the callback of [directory.getContents] does for a directory that
    is not watched. *)
Lemma contentsCb_unwatched directory oldContents stat contents s :
  watchedBy s directory = None →
  contentsCb directory oldContents stat contents s
  = (set_trace (trace s ++ [directoryChanged directory oldContents contents])
       (set_cached
          (withStat directory stat
             (clearedBelow (removedEntries oldContents contents) (_index s)
                (withContents directory contents (cached s)))) s), Ok tt).
Proof.
  intros Hw. unfold contentsCb. unfold bind at 1. rewrite setContents_outcome.
  unfold _findWatchedRootForPath. unfold bind at 1. unfold gets at 1.
  cbn [_watchedRoots set_cached].
  unfold watchedBy, watchingParentRoot in Hw.
  fold (removedEntries oldContents contents). fold (addedEntries oldContents contents).
  match goal with
  | |- match ?w with Some _ => _ | None => _ end _ = _ =>
      replace w with (@None WatchedRoot)
  end.
  unfold bind at 1. rewrite forEach_clearedBelow.
  unfold bind. rewrite setStat_outcome. reflexivity.
Qed.

(** X20. When the listing of a changed directory arrives and the directory
    is under no registered root, or the filter of the root found for it
    rejects it, one change event is fired for the directory with the
    entries added and the entries removed, by identity; the directory gets
    the reported stat; the cached data of every indexed entry below a
    removed entry is cleared; and no watch request is made: the index, the
    registry and the queue stay as they are. *)
Theorem unwatched_directory_change (s : FileSystem) (directory : Entry)
    (oldContents contents : list Entry) (stat : option Stats) :
  watchedBy s directory = None →
  let s' := exec (contentsCb directory oldContents stat contents) s in
  contentsCb directory oldContents stat contents s = (s', Ok tt)
  ∧ newEvents (contentsCb directory oldContents stat contents) s
    = [directoryChanged directory oldContents contents]
  ∧ cachedStat s' directory = stat
  ∧ sameButCaches s s'
  ∧ (∀ removed path e,
       removed ∈ removedEntries oldContents contents →
       _index s !! path = Some e →
       Path.startsWith (fullPath e) (fullPath removed) = true →
       eid e ≠ eid directory →
       cached s' !! eid e = None).
Proof.
  intros Hw. cbv zeta. unfold newEvents, exec.
  rewrite (contentsCb_unwatched _ _ _ _ _ Hw). cbn [fst].
  split; [reflexivity|]. split; [apply drop_app_length|].
  split; [|split; [by repeat split|]].
  - unfold cachedStat, withStat. cbn [cached set_trace set_cached].
    by rewrite lookup_insert_eq.
  - intros removed path e Hr He Hp Hne. cbn [cached set_trace set_cached].
    unfold withStat. rewrite lookup_insert_ne by done.
    by eapply clearedBelow_lookup.
Qed.

Lemma unwatched_directory_change_witness :
  let s := exec (getDirectoryForPath "/d" ;; getFileForPath "/d/old.txt") (init recursiveImpl) in
  let dir := newEntry 0 "/d/" true in
  let old := newEntry 1 "/d/old.txt" false in
  let new := newEntry 9 "/d/new.txt" false in
  newEvents (contentsCb dir [old] None [new]) s = [Change (Some dir) (Some [new]) (Some [old])]
  ∧ _watchRequests (exec (contentsCb dir [old] None [new]) s) = [].
Proof.
  cbv zeta.
  destruct (unwatched_directory_change
              (exec (getDirectoryForPath "/d" ;; getFileForPath "/d/old.txt")
                    (init recursiveImpl))
              (newEntry 0 "/d/" true) [newEntry 1 "/d/old.txt" false] [newEntry 9 "/d/new.txt" false]
              None) as (_ & H1 & _ & H2 & _); [reflexivity|].
  split; [exact H1|]. destruct H2 as (_ & _ & _ & -> & _). reflexivity.
Defined.

Lemma directoryCountdown_step cell directory stat added removed err s m :
  directoryCounters s !! cell = Some (Z.of_nat (S m)) →
  applyCallback (DirectoryCountdownCb cell directory stat added removed) err s
  = (if (m =? 0)%nat
     then set_trace (trace s ++ [Change (Some directory) (Some added) (Some removed)])
            (set_cached (withStat directory stat (cached s))
               (set_directoryCounters (<[cell := Z.of_nat m]> (directoryCounters s)) s))
     else set_directoryCounters (<[cell := Z.of_nat m]> (directoryCounters s)) s, Ok tt).
Proof.
  intros Hc. simpl. unfold predecrementDirectory. monad_unfold. rewrite Hc.
  change (default 0%Z (Some (Z.of_nat (S m)))) with (Z.of_nat (S m)).
  replace (Z.of_nat (S m) - 1)%Z with (Z.of_nat m) by lia.
  destruct m as [|m]; [reflexivity|].
  replace (Z.of_nat (S m) =? 0)%Z with false by (symmetry; apply Z.eqb_neq; lia).
  reflexivity.
Qed.

(** A loop of [_handleDirectoryChange] in which every call of
    [_watchEntry] or [_unwatchEntry] comes back at once: the counter goes
    down by one for each entry, and the change event is fired when it
    reaches zero. *)
Lemma forEach_directoryCountdown (f : Entry → M unit) cell directory stat added removed
    (l : list Entry) : ∀ s m,
  (∀ e s0, e ∈ l → _impl s0 = _impl s →
     ∃ s1, f e s0 = applyCallback (DirectoryCountdownCb cell directory stat added removed)
                      None s1
           ∧ sameButCaches s0 s1 ∧ trace s1 = trace s0
           ∧ directoryCounters s1 = directoryCounters s0) →
  directoryCounters s !! cell = Some (Z.of_nat m) →
  (List.length l ≤ m)%nat →
  ∃ s', forEach l f s = (s', Ok tt)
        ∧ sameButCaches s s'
        ∧ directoryCounters s' !! cell = Some (Z.of_nat (m - List.length l))
        ∧ trace s' = trace s
            ++ (if (m =? List.length l)%nat && negb (List.length l =? 0)%nat
                then [Change (Some directory) (Some added) (Some removed)] else [])
        ∧ (m = List.length l → l ≠ [] → cachedStat s' directory = stat).
Proof.
  induction l as [|x l IH]; intros s m Hf Hc Hlen.
  - exists s. split; [reflexivity|]. split; [reflexivity|].
    rewrite Nat.sub_0_r. split; [exact Hc|]. rewrite andb_false_r, app_nil_r. done.
  - destruct m as [|m]; [simpl in Hlen; lia|].
    destruct (Hf x s) as (s1 & Hx & Hsame & Htr & Hdc); [apply list_elem_of_here|reflexivity|].
    rewrite <- Hdc in Hc.
    pose proof (directoryCountdown_step cell directory stat added removed None s1 m Hc) as Hstep.
    simpl forEach. unfold bind at 1. rewrite Hx, Hstep.
    destruct (Nat.eqb_spec m 0) as [->|Hm].
    + (* the counter reaches zero: this was the last entry *)
      destruct l; [|simpl in Hlen; lia]. simpl forEach. unfold ret.
      eexists. split; [reflexivity|].
      split; [|split; [|split]].
      * destruct Hsame as (H1 & H2 & H3 & H4 & H5 & H6 & H7 & H8 & H9). by repeat split.
      * cbn [directoryCounters set_trace set_cached set_directoryCounters].
        apply lookup_insert_eq.
      * cbn [trace set_trace]. by rewrite Htr.
      * intros _ _. unfold cachedStat, withStat. cbn [cached set_trace set_cached].
        by rewrite lookup_insert_eq.
    + set (s2 := set_directoryCounters _ s1).
      destruct (IH s2 m) as (s' & H1 & H2 & H3 & H4 & H5).
      * intros e s0 He Himpl. apply Hf; [by apply list_elem_of_further|].
        rewrite Himpl. unfold s2. cbn [_impl set_directoryCounters]. by destruct Hsame.
      * unfold s2. cbn [directoryCounters set_directoryCounters]. apply lookup_insert_eq.
      * simpl in Hlen. lia.
      * exists s'. split; [exact H1|]. split; [|split; [|split]].
        -- etransitivity; [exact Hsame|]. etransitivity; [|exact H2]. by repeat split.
        -- rewrite H3. reflexivity.
        -- rewrite H4. unfold s2. cbn [trace set_directoryCounters]. rewrite Htr.
           simpl List.length. f_equal. cbn [Nat.eqb negb]. rewrite andb_true_r.
           change (S m =? S (List.length l))%nat with (m =? List.length l)%nat.
           destruct (Nat.eqb_spec m (List.length l)) as [E|E]; [|reflexivity].
           destruct l; [simpl in E; contradiction|reflexivity].
        -- intros E _. simpl in E. injection E as E.
           apply H5; [exact E|]. intros ->. simpl in E. contradiction.
Qed.

Lemma watchEntry_child entry watchedRoot callback s :
  recursiveWatch (_impl s) = true →
  sameEntry entry (root_entry watchedRoot) = false →
  _watchEntry entry watchedRoot callback s = applyCallback callback None s
  ∧ _unwatchEntry entry watchedRoot callback s
    = applyCallback callback None
        (set_cached (clearCachedBelow (fullPath entry) (_index s) (cached s)) s).
Proof.
  intros Hrec Hne. unfold _watchEntry, _unwatchEntry, _watchOrUnwatchEntry. split.
  - unfold bind, gets. rewrite Hrec, Hne. reflexivity.
  - unfold bind at 1. unfold gets at 1. rewrite Hrec, Hne. cbn [negb applyCallback].
    unfold bind at 1. by rewrite visitAll_clear.
Qed.

(** X21. When the listing of a changed directory arrives, the directory is
    under a watched root whose filter accepts it, and the backend watches
    recursively, then watching the added and unwatching the removed
    entries, none of them the root entry itself, needs no request to the
    backend: every call comes back at once, and when the last has come
    back exactly one change event is fired for the directory, which gets
    the reported stat.  The index, the registry and the queue stay as
    they are. *)
Theorem watched_directory_change_recursive (s : FileSystem) (directory : Entry)
    (oldContents contents : list Entry) (stat : option Stats) (root : WatchedRoot) :
  recursiveWatch (_impl s) = true →
  watchedBy s directory = Some root →
  (∀ e, e ∈ addedEntries oldContents contents ++ removedEntries oldContents contents →
        sameEntry e (root_entry root) = false) →
  let s' := exec (contentsCb directory oldContents stat contents) s in
  contentsCb directory oldContents stat contents s = (s', Ok tt)
  ∧ newEvents (contentsCb directory oldContents stat contents) s
    = [directoryChanged directory oldContents contents]
  ∧ cachedStat s' directory = stat
  ∧ sameButCaches s s'.
Proof.
  intros Hrec Hw Hchild. cbv zeta.
  assert (Hout : ∃ s', contentsCb directory oldContents stat contents s = (s', Ok tt)
                       ∧ trace s' = trace s ++ [directoryChanged directory oldContents contents]
                       ∧ cachedStat s' directory = stat
                       ∧ sameButCaches s s').
  { unfold contentsCb, directoryChanged. unfold bind at 1. rewrite setContents_outcome.
    unfold _findWatchedRootForPath. unfold bind at 1. unfold gets at 1.
    cbn [_watchedRoots set_cached].
    unfold watchedBy, watchingParentRoot in Hw.
    fold (removedEntries oldContents contents). fold (addedEntries oldContents contents).
    match goal with
    | |- ∃ s', match ?w with Some _ => _ | None => _ end _ = _ ∧ _ =>
        replace w with (Some root)
    end.
    set (s1 := set_cached (withContents directory contents (cached s)) s).
    set (added := addedEntries oldContents contents) in *.
    set (removed := removedEntries oldContents contents) in *.
    destruct (Nat.eqb_spec (List.length added + List.length removed) 0) as [Hz|Hnz].
    - unfold bind. rewrite setStat_outcome. eexists. split; [reflexivity|].
      assert (added = [] ∧ removed = []) as [-> ->]
        by (destruct added, removed; simpl in Hz; try lia; done).
      split; [reflexivity|]. split; [|by repeat split].
      unfold cachedStat, withStat. cbn [cached set_trace set_cached].
      by rewrite lookup_insert_eq.
    - unfold bind at 1. unfold newDirectoryCounter. unfold bind at 1. unfold fresh.
      unfold bind at 1. unfold gets at 1. unfold bind at 1. unfold modify at 1.
      unfold ret at 1. unfold bind at 1. unfold modify at 1. unfold ret at 1.
      cbn [nextId directoryCounters set_nextId set_cached s1].
      set (cell := nextId s).
      set (s2 := set_directoryCounters _ _).
      set (cb := DirectoryCountdownCb cell directory stat added removed).
      destruct (forEach_directoryCountdown (λ entry, _watchEntry entry root cb)
                  cell directory stat added removed added s2
                  (List.length added + List.length removed))
        as (s3 & H1 & H2 & H3 & H4 & _).
      { intros e s0 He Himpl. exists s0.
        destruct (watchEntry_child e root cb s0) as [-> _];
          [by rewrite Himpl|apply Hchild, elem_of_app; by left|done]. }
      { unfold s2. cbn [directoryCounters set_directoryCounters].
        by rewrite lookup_insert_eq. }
      { lia. }
      destruct (forEach_directoryCountdown (λ entry, _unwatchEntry entry root cb)
                  cell directory stat added removed removed s3 (List.length removed))
        as (s4 & G1 & G2 & G3 & G4 & G5).
      { intros e s0 He Himpl. eexists.
        destruct (watchEntry_child e root cb s0) as [_ ->].
        - rewrite Himpl. destruct H2 as [-> _]. exact Hrec.
        - apply Hchild, elem_of_app. by right.
        - split; [reflexivity|]. by repeat split. }
      { rewrite H3. do 2 f_equal. lia. }
      { lia. }
      exists s4. unfold bind. rewrite H1, G1. split; [reflexivity|].
      split; [|split].
      + rewrite G4, H4. unfold s2. cbn [trace set_directoryCounters set_nextId set_cached].
        rewrite <- app_assoc. f_equal. rewrite Nat.eqb_refl. cbn [andb].
        destruct removed as [|r removed'].
        * simpl List.length. rewrite Nat.add_0_r, Nat.eqb_refl. cbn [andb Nat.eqb negb].
          destruct added; [simpl in Hnz; lia|reflexivity].
        * replace (List.length added + List.length (r :: removed')
                   =? List.length added)%nat with false
            by (symmetry; apply Nat.eqb_neq; simpl; lia).
          reflexivity.
      + destruct removed as [|r removed'].
        * simpl in G1. injection G1 as <-.
          (* the event was fired by the last added entry *)
          destruct (forEach_directoryCountdown (λ entry, _watchEntry entry root cb)
                      cell directory stat added [] added s2 (List.length added))
            as (s3' & H1' & _ & _ & _ & H5').
          { intros e s0 He Himpl. exists s0.
            destruct (watchEntry_child e root cb s0) as [-> _];
              [by rewrite Himpl|apply Hchild, elem_of_app; by left|done]. }
          { unfold s2. cbn [directoryCounters set_directoryCounters].
            rewrite lookup_insert_eq. do 2 f_equal. simpl. lia. }
          { lia. }
          rewrite H1 in H1'. injection H1' as <-.
          apply H5'; [reflexivity|]. intros E. rewrite E in Hnz. simpl in Hnz. lia.
        * apply G5; [reflexivity|discriminate].
      + etransitivity; [|exact G2]. etransitivity; [|exact H2]. by repeat split. }
  destruct Hout as (s' & Hrun & Htr & Hst & Hsame).
  unfold newEvents, exec. rewrite Hrun. cbn [fst].
  split; [reflexivity|]. split; [rewrite Htr; apply drop_app_length|]. by split.
Qed.

Lemma watched_directory_change_recursive_witness :
  let new := newEntry 5 "/proj/new/" true in
  let old := newEntry 6 "/proj/old/" true in
  newEvents (contentsCb projEntry [old] None [new]) projWatched
  = [Change (Some projEntry) (Some [new]) (Some [old])]
  ∧ _watchRequests (exec (contentsCb projEntry [old] None [new]) projWatched) = [].
Proof.
  cbv zeta.
  destruct (watched_directory_change_recursive projWatched projEntry
              [newEntry 6 "/proj/old/" true] [newEntry 5 "/proj/new/" true] None
              {| rootId := 1; root_entry := projEntry; root_filter := acceptAll |})
    as (_ & H1 & _ & H2); [reflexivity|reflexivity| |].
  - intros e He. change (e ∈ [newEntry 5 "/proj/new/" true; newEntry 6 "/proj/old/" true]) in He.
    apply elem_of_cons in He as [->|He]; [reflexivity|].
    apply list_elem_of_singleton in He as ->. reflexivity.
  - split; [exact H1|]. destruct H2 as (_ & _ & _ & -> & _). reflexivity.
Defined.

Lemma handleExternalChange_directory p q directory stat s :
  Path._normalizePath (normalizeUNCPaths (_impl s)) p false = Ok q →
  _index s !! q = Some directory →
  isFile directory = false →
  _handleExternalChange (Some p) stat s
  = (set_pending (pending s ++ [ContentsCb directory (cachedContents s directory) stat])
       (set_trace (trace s ++ [GetContents directory])
          (set_cached (delete (eid directory) (cached s)) s)), Ok tt).
Proof.
  intros Hq Hi Hf. unfold _handleExternalChange.
  assert (falsyPath (Some p) = false) as ->.
  { pose proof (normalizePath_nonempty _ _ _ _ Hq). by destruct p. }
  unfold bind at 1. unfold gets at 1. unfold bind at 1. unfold liftResult at 1.
  simpl default. rewrite Hq.
  unfold bind at 1. unfold gets at 1. unfold FileIndex.getEntry. rewrite Hi, Hf.
  reflexivity.
Qed.

Lemma addedEntries_nil contents : addedEntries [] contents = contents.
Proof.
  unfold addedEntries. induction contents as [|x l IH]; [reflexivity|].
  change (x :: List.filter (λ entry, negb (existsb (sameEntry entry) [])) l = x :: l).
  by rewrite IH.
Qed.

(** X22. A change reported for an indexed directory clears the cached data
    of the directory and asks it for its listing; nothing is fired until
    the listing arrives.  For a directory that is not watched the change
    event then reports the difference between the new listing and the
    listing that was cached when the change was reported; without a cached
    listing every listed entry is reported as added. *)
Theorem directory_change_reports_difference (p q : string) (directory : Entry)
    (stat : option Stats) (contents : list Entry) (s : FileSystem) :
  Path._normalizePath (normalizeUNCPaths (_impl s)) p false = Ok q →
  _index s !! q = Some directory →
  isFile directory = false →
  watchedBy s directory = None →
  let reported := exec (_handleExternalChange (Some p) stat) s in
  newEvents (_handleExternalChange (Some p) stat) s = [GetContents directory]
  ∧ cached reported !! eid directory = None
  ∧ newEvents (changeListed s p stat contents) s
    = [GetContents directory;
       directoryChanged directory (cachedContents s directory) contents]
  ∧ (cached s !! eid directory = None →
     newEvents (changeListed s p stat contents) s
     = [GetContents directory; Change (Some directory) (Some contents) (Some [])])
  ∧ cachedStat (exec (changeListed s p stat contents) s) directory = stat.
Proof.
  intros Hq Hi Hf Hw. cbv zeta.
  pose proof (handleExternalChange_directory _ _ _ stat _ Hq Hi Hf) as Hrep.
  assert (Hrun : changeListed s p stat contents s
    = contentsCb directory (cachedContents s directory) stat contents
        (set_pending (pending s)
           (set_trace (trace s ++ [GetContents directory])
              (set_cached (delete (eid directory) (cached s)) s)))).
  { unfold changeListed, bind. rewrite Hrep.
    erewrite callBack_at; [|reflexivity|reflexivity]. reflexivity. }
  assert (Hev : newEvents (changeListed s p stat contents) s
    = [GetContents directory;
       directoryChanged directory (cachedContents s directory) contents]).
  { unfold newEvents, exec. rewrite Hrun.
    rewrite contentsCb_unwatched by exact Hw.
    cbn [fst trace set_trace set_pending set_cached].
    rewrite <- app_assoc. apply drop_app_length. }
  split; [|split; [|split; [exact Hev|split]]].
  - unfold newEvents, exec. rewrite Hrep. cbn [fst trace set_trace set_pending].
    apply drop_app_length.
  - unfold exec. rewrite Hrep. cbn [fst cached set_trace set_pending set_cached].
    apply lookup_delete_eq.
  - intros Hnone. rewrite Hev. unfold directoryChanged, cachedContents. rewrite Hnone.
    simpl default. by rewrite addedEntries_nil.
  - unfold exec. rewrite Hrun. rewrite contentsCb_unwatched by exact Hw.
    unfold cachedStat, withStat. cbn [fst cached set_trace set_pending set_cached].
    by rewrite lookup_insert_eq.
Qed.

Lemma directory_change_reports_difference_witness :
  let s := exec (getDirectoryForPath "/d") (init recursiveImpl) in
  let dir := newEntry 0 "/d/" true in
  let a := newEntry 9 "/d/a.txt" false in
  newEvents (changeListed s "/d/" None [a]) s
  = [GetContents dir; Change (Some dir) (Some [a]) (Some [])].
Proof.
  cbv zeta.
  destruct (directory_change_reports_difference "/d/" "/d/" (newEntry 0 "/d/" true) None
              [newEntry 9 "/d/a.txt" false]
              (exec (getDirectoryForPath "/d") (init recursiveImpl)))
    as (_ & _ & _ & H & _); [vm_compute; reflexivity|reflexivity|reflexivity|reflexivity|].
  apply H. reflexivity.
Defined.

End DirectoryChange.

(** ** resolve *)

Section Resolve.

Lemma resolve_outcome path s :
  resolve path s
  = match Path._normalizePath (normalizeUNCPaths (_impl s)) path false with
    | Throw e => (s, Throw e)
    | Ok q =>
        (s, Ok match resolveLookup q (_index s) with
               | Some item => ItemStat item
               | None => ImplStat path
               end)
    end.
Proof.
  unfold resolve, resolveLookup, FileIndex.getEntry. monad_unfold.
  destruct (Path._normalizePath _ path false) as [q|e]; [|reflexivity].
  destruct (_index s !! q) as [item|]; [reflexivity|].
  simpl. by destruct (_index s !! Path._appendTrailingSlash q).
Qed.

Lemma normalizePath_directory u path q :
  Path._normalizePath u path false = Ok q →
  u && Path.searchDuplicatedSlash0 path = false ∨ q ≠ "/" →
  Path._normalizePath u path true = Ok (Path._appendTrailingSlash q).
Proof.
  intros Hq Hunc. pose proof (normalizePath_absolute _ _ _ _ Hq) as Habs.
  rewrite (normalizePath_unfold _ _ _ Habs) in Hq.
  rewrite (normalizePath_unfold _ _ _ Habs).
  destruct (Path.indexOf _ "..").
  - destruct (Path.removeDotDot _ 1 _) as [out|e0]; [|discriminate Hq].
    injection Hq as Hq. destruct (finishPath_directory _ _ _ _ Hq) as [H1 _].
    by rewrite H1.
  - injection Hq as Hq. destruct (finishPath_directory _ _ _ _ Hq) as [H1 _].
    by rewrite H1.
Qed.

Lemma normalizePath_uncRoot u path :
  Path._normalizePath u path false = Ok "/" →
  u && Path.searchDuplicatedSlash0 path = true →
  Path._normalizePath u path true = Ok "//".
Proof.
  intros Hq Hunc. pose proof (normalizePath_absolute _ _ _ _ Hq) as Habs.
  rewrite (normalizePath_unfold _ _ _ Habs) in Hq.
  rewrite (normalizePath_unfold _ _ _ Habs).
  destruct (Path.indexOf _ "..").
  - destruct (Path.removeDotDot _ 1 _) as [out|e0]; [|discriminate Hq].
    injection Hq as Hq. destruct (finishPath_directory _ _ _ _ Hq) as [_ H2].
    by rewrite H2.
  - injection Hq as Hq. destruct (finishPath_directory _ _ _ _ Hq) as [_ H2].
    by rewrite H2.
Qed.

(** What [resolve] does after a handle was obtained or interned under the
    directory form ["//"] of a UNC path that resolves to the root: it looks
    under ["/"] only. *)
Lemma resolve_uncRoot path (s1 : FileSystem) :
  Path._normalizePath (normalizeUNCPaths (_impl s1)) path false = Ok "/" →
  resolve path s1
  = (s1, Ok match _index s1 !! "/" with
            | Some item => ItemStat item
            | None => ImplStat path
            end).
Proof.
  intros Hq. rewrite resolve_outcome, Hq. unfold resolveLookup.
  change (Path._appendTrailingSlash "/") with "/".
  by destruct (_index s1 !! "/").
Qed.

(** X23. [resolve] throws, before it calls anything, exactly the error of
    normalizing the path as a file, and it never changes the file system.
    It asks the handle found under the file normal form of the path for its
    stat, or else the handle found under that normal form with a final
    slash, and only if the index has neither does it ask the backend, with
    the path as it was given.  So after [getFileForPath] returned a handle
    for the path, [resolve] asks that handle; after [getDirectoryForPath]
    returned one, [resolve] asks an indexed handle, the directory handle
    unless a file handle is indexed under the file normal form.  The one
    exception is a UNC path that resolves to the root, with the file normal
    form ["/"] and the directory normal form ["//"]: [resolve] does not look
    under ["//"], and asks the handle under ["/"] if there is one and the
    backend otherwise. *)
Theorem resolve_prefers_indexed_handles (path : string) (s : FileSystem) :
  (resolve path s).1 = s
  ∧ (∀ e, Path._normalizePath (normalizeUNCPaths (_impl s)) path false = Throw e ↔
          (resolve path s).2 = Throw e)
  ∧ (∀ q, Path._normalizePath (normalizeUNCPaths (_impl s)) path false = Ok q →
       (∀ item, _index s !! q = Some item → resolve path s = (s, Ok (ItemStat item)))
       ∧ (∀ item, _index s !! q = None →
                  _index s !! Path._appendTrailingSlash q = Some item →
                  resolve path s = (s, Ok (ItemStat item)))
       ∧ (_index s !! q = None → _index s !! Path._appendTrailingSlash q = None →
          resolve path s = (s, Ok (ImplStat path)))
       ∧ (∀ e s1, getFileForPath path s = (s1, Ok e) →
                  resolve path s1 = (s1, Ok (ItemStat e)))
       ∧ (∀ e s1, getDirectoryForPath path s = (s1, Ok e) →
            (normalizeUNCPaths (_impl s) && Path.searchDuplicatedSlash0 path = false
             ∨ q ≠ "/" →
               ∃ item, resolve path s1 = (s1, Ok (ItemStat item))
                       ∧ (_index s !! q = None → item = e))
            ∧ (normalizeUNCPaths (_impl s) && Path.searchDuplicatedSlash0 path = true →
               q = "/" →
                 _index s1 !! "//" = Some e
                 ∧ resolve path s1
                   = (s1, Ok match _index s !! "/" with
                             | Some item => ItemStat item
                             | None => ImplStat path
                             end)))).
Proof.
  rewrite resolve_outcome.
  destruct (Path._normalizePath (normalizeUNCPaths (_impl s)) path false) as [q|e] eqn:Hq.
  - split; [reflexivity|]. split; [intros e; split; discriminate|].
    intros q' [= <-]. unfold resolveLookup.
    split; [by intros item ->|]. split; [by intros item -> ->|].
    split; [by intros -> ->|]. split.
    + intros e s1 Hget.
      destruct (getEntryForPath_returns File path q s Hq) as (e' & s1' & Hget' & Himpl & Hidx & _).
      unfold getFileForPath in Hget. rewrite Hget' in Hget. injection Hget as <- <-.
      rewrite resolve_outcome, Himpl, Hq. unfold resolveLookup. by rewrite Hidx.
    + intros e s1 Hget. split.
      * intros Hunc.
        pose proof (normalizePath_directory _ _ _ Hq Hunc) as Hd.
        destruct (getEntryForPath_returns Directory path _ s Hd)
          as (e' & s1' & Hget' & Himpl & Hidx & _).
        unfold getDirectoryForPath in Hget. rewrite Hget' in Hget. injection Hget as <- <-.
        rewrite resolve_outcome, Himpl, Hq. unfold resolveLookup.
        destruct (_index s1' !! q) as [item|] eqn:Hfile.
        -- exists item. split; [reflexivity|]. intros Hnone.
           destruct (decide (Path._appendTrailingSlash q = q)) as [E|E]; [congruence|].
           exfalso.
           destruct (_index s !! Path._appendTrailingSlash q) as [e0|] eqn:Hq0.
           ++ rewrite (getEntryForPath_found Directory _ _ _ _ Hd Hq0) in Hget'.
              injection Hget' as <- _. congruence.
           ++ rewrite (getEntryForPath_new Directory _ _ _ Hd Hq0) in Hget'.
              injection Hget' as <- _. simpl in Hfile. unfold FileIndex.addEntry in Hfile.
              simpl in Hfile. rewrite lookup_insert_ne in Hfile by done. congruence.
        -- exists e'. rewrite Hidx. done.
      * intros Hunc ->.
        pose proof (normalizePath_uncRoot _ _ Hq Hunc) as Hd.
        destruct (getEntryForPath_returns Directory path _ s Hd)
          as (e' & s1' & Hget' & Himpl & Hidx & _).
        unfold getDirectoryForPath in Hget. rewrite Hget' in Hget. injection Hget as <- <-.
        split; [exact Hidx|].
        rewrite resolve_uncRoot by (by rewrite Himpl).
        assert (Hsame : _index s1' !! "/" = _index s !! "/").
        { destruct (_index s !! "//") as [e0|] eqn:Hq0.
          - rewrite (getEntryForPath_found Directory _ _ _ _ Hd Hq0) in Hget'.
            by injection Hget' as <- _.
          - rewrite (getEntryForPath_new Directory _ _ _ Hd Hq0) in Hget'.
            injection Hget' as <- _. simpl. unfold FileIndex.addEntry. simpl.
            by rewrite lookup_insert_ne. }
        by rewrite Hsame.
  - split; [reflexivity|]. split; [|discriminate].
    intros e'. split; [by intros [= ->]|]. simpl. by intros [= ->].
Qed.

Lemma resolve_prefers_indexed_handles_witness :
  let s := exec (getDirectoryForPath "/a/b") (init recursiveImpl) in
  let u := exec (getDirectoryForPath "//a/..") (init uncImpl) in
  resolve "/a//b" s = (s, Ok (ItemStat (newEntry 0 "/a/b/" true)))
  ∧ resolve "/a/c" s = (s, Ok (ImplStat "/a/c"))
  ∧ _index u !! "//" = Some (newEntry 0 "//" true)
  ∧ resolve "//a/.." u = (u, Ok (ImplStat "//a/..")).
Proof.
  cbv zeta.
  destruct (resolve_prefers_indexed_handles "/a//b"
              (exec (getDirectoryForPath "/a/b") (init recursiveImpl))) as (_ & _ & H).
  destruct (H "/a/b") as (_ & H1 & _); [vm_compute; reflexivity|].
  destruct (resolve_prefers_indexed_handles "/a/c"
              (exec (getDirectoryForPath "/a/b") (init recursiveImpl))) as (_ & _ & G).
  destruct (G "/a/c") as (_ & _ & G1 & _); [vm_compute; reflexivity|].
  destruct (resolve_prefers_indexed_handles "//a/.." (init uncImpl)) as (_ & _ & U).
  destruct (U "/") as (_ & _ & _ & _ & U1); [vm_compute; reflexivity|].
  destruct (U1 (newEntry 0 "//" true) (exec (getDirectoryForPath "//a/..") (init uncImpl)))
    as [_ U2]; [vm_compute; reflexivity|].
  destruct U2 as [U3 U4]; [reflexivity|reflexivity|].
  split; [apply H1; reflexivity|]. split; [apply G1; reflexivity|].
  split; [exact U3|exact U4].
Defined.

(** [getFileForPath] or [getDirectoryForPath] in any state: the handle
    indexed under the normal form, or a new one interned there. *)
Lemma getEntryForPath_interns constructor path key s :
  Path._normalizePath (normalizeUNCPaths (_impl s)) path
    (constructsDirectory constructor) = Ok key →
  let item := default (newEntry (nextId s) key (constructsDirectory constructor))
                (_index s !! key) in
  ∃ s0, _getEntryForPath constructor path s = (s0, Ok item)
        ∧ _impl s0 = _impl s
        ∧ _index s0 = <[key := item]> (_index s)
        ∧ cached s0 = cached s.
Proof.
  intros Hn. cbv zeta. destruct (_index s !! key) as [e|] eqn:Hk; simpl.
  - exists s. rewrite (getEntryForPath_found _ _ _ _ _ Hn Hk).
    by rewrite insert_id.
  - eexists. rewrite (getEntryForPath_new _ _ _ _ Hn Hk). done.
Qed.

(** X24. When [resolve] has asked the backend, because the index has no
    handle for the path, the backend answers later, in whatever state the
    file system then is.  If it answers with an error, the callback gets
    that error and nothing changes.  If it answers with a stat, the
    callback gets the handle that [getFileForPath] or [getDirectoryForPath],
    as the stat says, gives at that moment: the one indexed under the
    normal form of the path for that kind, or a new one interned there; the
    stat is cached on it exactly if the handle says that it is watched, and
    nothing is thrown.  A later [resolve] of the path finds an indexed
    handle and does not ask the backend again: that handle, unless the
    stat is one of a directory and a file handle was interned under the
    file normal form in between.  The one exception is a UNC path that
    resolves to the root with the stat of a directory: the handle is
    interned under ["//"], where [resolve] does not look. *)
Theorem resolve_interns_backend_answer (path : string) (isWatched : Entry → bool)
    (err : option string) (stat : Stats) (s s' : FileSystem) :
  resolve path s = (s, Ok (ImplStat path)) →
  _impl s' = _impl s →
  ∃ q, Path._normalizePath (normalizeUNCPaths (_impl s)) path false = Ok q
    ∧ (truthyErr err = true →
         implStatCb path isWatched err stat s' = (s', Ok (ResolveError err)))
    ∧ (truthyErr err = false →
       ∃ key,
         Path._normalizePath (normalizeUNCPaths (_impl s)) path (negb (isFile_stat stat))
         = Ok key
         ∧ let item := default (newEntry (nextId s') key (negb (isFile_stat stat)))
                         (_index s' !! key) in
           let s1 := exec (implStatCb path isWatched err stat) s' in
           implStatCb path isWatched err stat s' = (s1, Ok (ResolvedAs item (Some stat)))
           ∧ _index s1 = <[key := item]> (_index s')
           ∧ (isWatched item = true → cachedStat s1 item = Some stat)
           ∧ (isWatched item = false → cached s1 = cached s')
           ∧ (isFile_stat stat = true
              ∨ normalizeUNCPaths (_impl s) && Path.searchDuplicatedSlash0 path = false
              ∨ q ≠ "/" →
                ∃ found, resolve path s1 = (s1, Ok (ItemStat found))
                         ∧ (isFile_stat stat = true ∨ _index s' !! q = None →
                            found = item))
           ∧ (isFile_stat stat = false →
              normalizeUNCPaths (_impl s) && Path.searchDuplicatedSlash0 path = true →
              q = "/" →
                key = "//"
                ∧ resolve path s1
                  = (s1, Ok match _index s' !! "/" with
                            | Some i => ItemStat i
                            | None => ImplStat path
                            end))).
Proof.
  intros Hres Himpl'. rewrite resolve_outcome in Hres.
  destruct (Path._normalizePath (normalizeUNCPaths (_impl s)) path false) as [q|e] eqn:Hq;
    [|discriminate Hres].
  clear Hres. exists q. split; [reflexivity|]. split.
  { intros Herr. unfold implStatCb. by rewrite Herr. }
  intros Herr.
  assert (Hkey : ∃ key,
    Path._normalizePath (normalizeUNCPaths (_impl s)) path (negb (isFile_stat stat)) = Ok key
    ∧ (isFile_stat stat = true → key = q)
    ∧ (isFile_stat stat = false →
       normalizeUNCPaths (_impl s) && Path.searchDuplicatedSlash0 path = false ∨ q ≠ "/" →
       key = Path._appendTrailingSlash q)
    ∧ (isFile_stat stat = false →
       normalizeUNCPaths (_impl s) && Path.searchDuplicatedSlash0 path = true → q = "/" →
       key = "//")).
  { destruct (isFile_stat stat) eqn:Hf; simpl.
    - exists q. repeat split; [exact Hq|discriminate|discriminate].
    - destruct (normalizeUNCPaths (_impl s) && Path.searchDuplicatedSlash0 path) eqn:Hu.
      + destruct (decide (q = "/")) as [->|Hne].
        * exists "//". split; [by apply normalizePath_uncRoot|].
          split; [discriminate|]. split; [|done].
          intros _ [H|H]; [discriminate H|done].
        * exists (Path._appendTrailingSlash q).
          split; [apply normalizePath_directory; [exact Hq|by right]|].
          split; [discriminate|]. split; [done|]. intros _ _ ->. done.
      + exists (Path._appendTrailingSlash q).
        split; [apply normalizePath_directory; [exact Hq|left; by rewrite Hu]|].
        split; [discriminate|]. split; [done|]. intros _ H. discriminate H. }
  destruct Hkey as (key & Hn & Hfile & Hdir & Hroot). exists key. split; [exact Hn|].
  cbv zeta.
  set (item := default (newEntry (nextId s') key (negb (isFile_stat stat)))
                 (_index s' !! key)).
  assert (Hget : ∃ s0,
    (if isFile_stat stat then getFileForPath path else getDirectoryForPath path) s'
    = (s0, Ok item)
    ∧ _impl s0 = _impl s' ∧ _index s0 = <[key := item]> (_index s')
    ∧ cached s0 = cached s').
  { rewrite <- Himpl' in Hn. destruct (isFile_stat stat).
    - apply (getEntryForPath_interns File path key s' Hn).
    - apply (getEntryForPath_interns Directory path key s' Hn). }
  destruct Hget as (s0 & Hget & Himpl0 & Hidx0 & Hc0).
  assert (Hout : implStatCb path isWatched err stat s'
    = (if isWatched item then set_cached (withStat item (Some stat) (cached s0)) s0 else s0,
       Ok (ResolvedAs item (Some stat)))).
  { unfold implStatCb. rewrite Herr. rewrite (bind_Ok _ _ _ _ _ Hget).
    destruct (isWatched item); reflexivity. }
  assert (Hagain : ∀ s1 : FileSystem, _impl s1 = _impl s →
            _index s1 = <[key := item]> (_index s') →
            (isFile_stat stat = true
             ∨ normalizeUNCPaths (_impl s) && Path.searchDuplicatedSlash0 path = false
             ∨ q ≠ "/" →
               ∃ found, resolve path s1 = (s1, Ok (ItemStat found))
                        ∧ (isFile_stat stat = true ∨ _index s' !! q = None →
                           found = item))
            ∧ (isFile_stat stat = false →
               normalizeUNCPaths (_impl s) && Path.searchDuplicatedSlash0 path = true →
               q = "/" →
                 key = "//"
                 ∧ resolve path s1
                   = (s1, Ok match _index s' !! "/" with
                             | Some i => ItemStat i
                             | None => ImplStat path
                             end))).
  { intros s1 Himpl1 Hidx1. split.
    - intros Hkind. rewrite resolve_outcome, Himpl1, Hq, Hidx1. unfold resolveLookup.
      destruct (isFile_stat stat) eqn:Hf.
      + rewrite (Hfile eq_refl), lookup_insert_eq. exists item. done.
      + assert (Hk : key = Path._appendTrailingSlash q).
        { apply Hdir; [reflexivity|]. destruct Hkind as [H|H]; [discriminate H|exact H]. }
        rewrite Hk. destruct (decide (Path._appendTrailingSlash q = q)) as [E|E].
        * rewrite E, lookup_insert_eq. exists item. done.
        * rewrite lookup_insert_ne by done.
          destruct (_index s' !! q) as [f|] eqn:Hfq.
          -- exists f. split; [reflexivity|]. intros [H|H]; discriminate H.
          -- rewrite lookup_insert_eq. exists item. done.
    - intros Hf Hu ->. split; [by apply Hroot|].
      rewrite resolve_uncRoot by (by rewrite Himpl1).
      rewrite Hidx1, (Hroot Hf Hu eq_refl), lookup_insert_ne by done. reflexivity. }
  unfold exec. rewrite Hout. cbn [fst]. split; [reflexivity|].
  destruct (isWatched item) eqn:Hwatched.
  - split; [exact Hidx0|]. split; [|split; [discriminate|]].
    + intros _. unfold cachedStat, withStat. cbn [cached set_cached].
      by rewrite lookup_insert_eq.
    + apply Hagain; [by rewrite <- Himpl', <- Himpl0|exact Hidx0].
  - split; [exact Hidx0|]. split; [discriminate|].
    split; [intros _; exact Hc0|].
    apply Hagain; [by rewrite <- Himpl', <- Himpl0|exact Hidx0].
Qed.

Lemma resolve_interns_backend_answer_witness :
  let s := init recursiveImpl in
  let s' := exec (getFileForPath "/x") s in
  let dir := newEntry 1 "/a/b/" true in
  let stat := {| isFile_stat := false; mtime := 3 |} in
  let s1 := exec (implStatCb "/a/b" (λ _, false) None stat) s' in
  let u := exec (implStatCb "//a/.." (λ _, false) None stat) (init uncImpl) in
  implStatCb "/a/b" (λ _, false) None stat s' = (s1, Ok (ResolvedAs dir (Some stat)))
  ∧ resolve "/a/b" s1 = (s1, Ok (ItemStat dir))
  ∧ resolve "//a/.." u = (u, Ok (ImplStat "//a/..")).
Proof.
  cbv zeta.
  destruct (resolve_interns_backend_answer "/a/b" (λ _, false) None
              {| isFile_stat := false; mtime := 3 |} (init recursiveImpl)
              (exec (getFileForPath "/x") (init recursiveImpl)))
    as (q & Hq & _ & H); [vm_compute; reflexivity|reflexivity|].
  assert (q = "/a/b") as -> by (vm_compute in Hq; by injection Hq).
  destruct (H eq_refl) as (key & Hkey & H1 & _ & _ & _ & H2 & _).
  assert (key = "/a/b/") as -> by (vm_compute in Hkey; by injection Hkey).
  destruct H2 as (found & H2 & H3); [right; by left|].
  rewrite (H3 (or_intror eq_refl)) in H2.
  destruct (resolve_interns_backend_answer "//a/.." (λ _, false) None
              {| isFile_stat := false; mtime := 3 |} (init uncImpl) (init uncImpl))
    as (q & Gq & _ & G); [vm_compute; reflexivity|reflexivity|].
  assert (q = "/") as -> by (vm_compute in Gq; by injection Gq).
  destruct (G eq_refl) as (key & _ & _ & _ & _ & _ & _ & G1).
  destruct (G1 eq_refl eq_refl eq_refl) as [_ G2].
  split; [exact H1|]. split; [exact H2|exact G2].
Defined.

End Resolve.

(** ** The index filter *)

Section IndexFilter.

Lemma indexFilter_outcome path name s :
  _indexFilter path name s
  = (s, Ok match watchingParentRoot s path with
           | Some root => root_filter root name path
           | None => true
           end).
Proof.
  unfold _indexFilter, _findWatchedRootForPath, watchingParentRoot. monad_unfold.
  by destruct (snd <$> find _ (_watchedRoots s)).
Qed.

Lemma watchingParentRoot_first s path before p root after :
  _watchedRoots s = before ++ (p, root) :: after →
  Path.startsWith path p = true →
  (∀ kv, kv ∈ before → Path.startsWith path kv.1 = false) →
  watchingParentRoot s path = Some root.
Proof.
  unfold watchingParentRoot. intros -> Hp. generalize dependent before.
  induction before as [|kv before IH]; intros Hbefore; simpl.
  - by rewrite Hp.
  - rewrite (Hbefore kv) by apply list_elem_of_here.
    apply IH. intros kv' Hin. apply Hbefore. by apply list_elem_of_further.
Qed.

(** X25. [_indexFilter] only reads the registry.  It accepts every path
    that has no registered root path as a prefix; otherwise the answer is
    that of the filter of the first registered root, in the order of
    registration, whose path is a prefix of the path, applied to the name
    and the path, whether that root is active or not.  After
    [_unwatchAll] it accepts every path. *)
Theorem indexFilter_first_registered_root (path name : string) (s : FileSystem) :
  (_indexFilter path name s).1 = s
  ∧ ((∀ p root, (p, root) ∈ _watchedRoots s → Path.startsWith path p = false) →
     _indexFilter path name s = (s, Ok true))
  ∧ (∀ before p root after,
       _watchedRoots s = before ++ (p, root) :: after →
       Path.startsWith path p = true →
       (∀ kv, kv ∈ before → Path.startsWith path kv.1 = false) →
       _indexFilter path name s = (s, Ok (root_filter root name path)))
  ∧ _indexFilter path name (exec _unwatchAll s) = (exec _unwatchAll s, Ok true).
Proof.
  split; [by rewrite indexFilter_outcome|]. split; [|split].
  - intros Hnone. rewrite indexFilter_outcome.
    destruct (watchingParentRoot s path) as [root|] eqn:Hw; [|reflexivity].
    apply watchingParentRoot_Some in Hw as (p & Hin & Hp).
    rewrite (Hnone p root Hin) in Hp. discriminate Hp.
  - intros before p root after Hroots Hp Hbefore. rewrite indexFilter_outcome.
    by rewrite (watchingParentRoot_first _ _ _ _ _ _ Hroots Hp Hbefore).
  - rewrite indexFilter_outcome. unfold exec.
    destruct (unwatchAll_outcome s) as (s1 & -> & _ & Hr & _). cbn [fst].
    unfold watchingParentRoot. cbn [_watchedRoots set_trace set_cached]. by rewrite Hr.
Qed.

Lemma indexFilter_first_registered_root_witness :
  _indexFilter "/proj/node_modules/x.js" "x.js" projWatched = (projWatched, Ok true)
  ∧ _indexFilter "/elsewhere/y.js" "y.js" projWatched = (projWatched, Ok true).
Proof.
  destruct (indexFilter_first_registered_root "/proj/node_modules/x.js" "x.js" projWatched)
    as (_ & _ & H & _).
  destruct (indexFilter_first_registered_root "/elsewhere/y.js" "y.js" projWatched)
    as (_ & G & _).
  split.
  - apply (H [] "/proj/" {| rootId := 1; root_entry := projEntry; root_filter := acceptAll |} []);
      [by destruct projWatched_roots as [-> _]|reflexivity|by intros kv ?%elem_of_nil].
  - apply G. intros p root Hin. destruct projWatched_roots as [Hr _]. rewrite Hr in Hin.
    apply list_elem_of_singleton in Hin. injection Hin as -> _. reflexivity.
Defined.

End IndexFilter.

(** ** Handles across [close] *)

Section Forgetting.

(** X26. [close] forgets the handles: a path for which a handle was
    obtained before [close] gets a new object after it, with the same
    full path and a different identity. *)
Theorem close_forgets_handles (constructor : EntryConstructor) (p q : string)
    (s : FileSystem) :
  reachable s →
  Path._normalizePath (normalizeUNCPaths (_impl s)) p
    (constructsDirectory constructor) = Ok q →
  ∃ before after s1 s2,
    _getEntryForPath constructor p s = (s1, Ok before)
    ∧ _getEntryForPath constructor p (exec close s1) = (s2, Ok after)
    ∧ fullPath before = q
    ∧ after = newEntry (nextId s1) q (constructsDirectory constructor)
    ∧ sameEntry before after = false.
Proof.
  intros Hr Hq. apply reachable_intern in Hr.
  destruct (getEntryForPath_returns constructor p q s Hq)
    as (before & s1 & Hget & Himpl & Hidx & _).
  assert (Hinv : internInvariant s1).
  { pose proof (getEntryForPath_invariant constructor p s Hr) as H.
    unfold exec in H. by rewrite Hget in H. }
  destruct Hinv as (Hwf & Hid & _).
  assert (Hclosed : _index (exec close s1) !! q = None) by apply lookup_empty.
  assert (Hq' : Path._normalizePath (normalizeUNCPaths (_impl (exec close s1))) p
                  (constructsDirectory constructor) = Ok q) by (by rewrite <- Himpl in Hq).
  eexists before, _, s1, _. split; [exact Hget|].
  split; [exact (getEntryForPath_new constructor p q _ Hq' Hclosed)|].
  split; [by apply Hwf|]. split; [reflexivity|].
  unfold sameEntry. apply Nat.eqb_neq. apply Hid in Hidx.
  change (eid (newEntry (nextId (exec close s1)) q (constructsDirectory constructor)))
    with (nextId s1).
  lia.
Qed.

Lemma close_forgets_handles_witness :
  ∃ before after s1 s2,
    getFileForPath "/a/b.txt" (init recursiveImpl) = (s1, Ok before)
    ∧ getFileForPath "/a/b.txt" (exec close s1) = (s2, Ok after)
    ∧ fullPath before = fullPath after
    ∧ sameEntry before after = false.
Proof.
  destruct (close_forgets_handles File "/a/b.txt" "/a/b.txt" (init recursiveImpl))
    as (before & after & s1 & s2 & H1 & H2 & H3 & H4 & H5).
  - by exists recursiveImpl, [].
  - vm_compute. reflexivity.
  - exists before, after, s1, s2. split; [exact H1|]. split; [exact H2|].
    split; [|exact H5]. rewrite H3, H4. reflexivity.
Defined.

End Forgetting.

(** ** Watching and unwatching again *)

Section RoundTrip.

Lemma deleteRoot_setRoot path root roots :
  lookupRoot path roots = None → deleteRoot path (setRoot path root roots) = roots.
Proof.
  unfold lookupRoot, deleteRoot. induction roots as [|[p r] roots IH]; simpl.
  - intros _. by rewrite String.eqb_refl.
  - destruct (String.eqb p path) eqn:E; [discriminate|]. intros H. simpl. rewrite E. simpl.
    by rewrite IH.
Qed.

(** X27. Under a backend with recursive watch, watching a root that was
    not registered and then unwatching it leaves the registry as it was
    before, the queue empty and the root inactive, whatever the backend
    answers to the unwatch; the backend is asked to watch and then to
    unwatch the path, each client is called back once, and the index has
    lost exactly the entries below the root. *)
Theorem watch_then_unwatch_restores_registry (s : FileSystem) (entry : Entry)
    (filter : Filter) (c1 c2 : ClientCallback) (err : option string) :
  recursiveWatch (_impl s) = true →
  _watchRequests s = [] →
  noActiveParent s (fullPath entry) →
  lookupRoot (fullPath entry) (_watchedRoots s) = None →
  FileIndex.wf (_index s) →
  let s' := run (watchThenUnwatch s entry filter c1 c2 err) s in
  _watchedRoots s' = _watchedRoots s
  ∧ activeRoots s' = ({[nextId s]} ∪ activeRoots s) ∖ {[nextId s]}
  ∧ _watchRequests s' = []
  ∧ pending s' = pending s
  ∧ (∀ p e, _index s' !! p = Some e
            ↔ _index s !! p = Some e
              ∧ Path.startsWith (fullPath e) (fullPath entry) = false)
  ∧ drop (List.length (trace s)) (trace s')
    = [Enqueued (S (nextId s)); Started (S (nextId s)); WatchPath (fullPath entry);
       Called (cbTag c1) None; Shifted (S (nextId s));
       Enqueued (S (S (nextId s))); Started (S (S (nextId s)));
       UnwatchPath (fullPath entry)]
      ++ (if truthyErr err
          then [ConsoleWarn "Failed to unwatch root: " (fullPath entry)] else [])
      ++ [Called (cbTag c2) (surfaced err); Shifted (S (S (nextId s)))].
Proof.
  intros Hrec Hq Hpar Hnew Hwf. cbv zeta. unfold run, watchThenUnwatch. simpl foldl.
  unfold perform.
  (* [watch] *)
  assert (H1 : exec (watch entry filter (Some c1)) s
    = started {| rid := S (nextId s); fn := ImplFn true entry;
                 cb := WatchCb (fullPath entry) entry (newRoot s entry filter) (Some c1) |}
        (enqueued {| rid := S (nextId s); fn := ImplFn true entry;
                     cb := WatchCb (fullPath entry) entry (newRoot s entry filter) (Some c1) |}
           (set_watchedRoots
              (setRoot (fullPath entry) (newRoot s entry filter) (_watchedRoots s))
              (set_nextId (S (nextId s)) s)))).
  { unfold exec. rewrite watch_outcome. cbv zeta. rewrite (noActiveParent_decide _ _ Hpar).
    rewrite enqueueWatchRequest_outcome. cbv zeta.
    cbn [_watchRequests set_watchedRoots set_nextId _impl nextId].
    rewrite Hq. unfold rootRequestFn. rewrite Hrec. reflexivity. }
  rewrite H1. clear H1.
  (* the backend has watched the path *)
  match goal with |- context [exec (callBack (List.length (pending s)) success) ?st] =>
    assert (H2 : ∃ s2, exec (callBack (List.length (pending s)) success) st = s2
      ∧ _impl s2 = _impl s
      ∧ _index s2 = _index s
      ∧ _watchedRoots s2
        = setRoot (fullPath entry) (newRoot s entry filter) (_watchedRoots s)
      ∧ _watchRequests s2 = []
      ∧ activeRoots s2 = {[nextId s]} ∪ activeRoots s
      ∧ nextId s2 = S (S (nextId s))
      ∧ pending s2 = pending s
      ∧ trace s2 = trace s ++ [Enqueued (S (nextId s)); Started (S (nextId s));
                               WatchPath (fullPath entry); Called (cbTag c1) None;
                               Shifted (S (nextId s))])
  end.
  { eexists. split; [reflexivity|].
    unfold exec. erewrite callBack_at; [|reflexivity|reflexivity].
    unfold fnContinuation. simpl fn. cbv iota.
    unfold resume, success. simpl reply_err.
    unfold requestCb, tryFinally. simpl cb.
    rewrite applyCallback_watchCb. cbn [truthyErr]. rewrite callClient_outcome.
    rewrite shift_dequeue_outcome. simpl _watchRequests. rewrite Hq.
    destruct (cbThrows c1 None); simpl; rewrite <- !app_assoc;
      repeat split; reflexivity. }
  destruct H2 as (s2 & -> & Himpl & Hidx & Hroots & Hq2 & Hact & Hid & Hpend & Htrace).
  (* [unwatch] *)
  assert (H3 : exec (unwatch entry (Some c2)) s2
    = started {| rid := S (S (nextId s)); fn := ImplFn false entry;
                 cb := unwatchDone entry (Some c2) |}
        (enqueued {| rid := S (S (nextId s)); fn := ImplFn false entry;
                     cb := unwatchDone entry (Some c2) |}
           (set_activeRoots (activeRoots s2 ∖ {[nextId s]}) s2))).
  { unfold exec.
    rewrite (unwatch_outcome entry (Some c2) (newRoot s entry filter) s2)
      by (rewrite Hroots; apply lookupRoot_setRoot).
    cbv zeta. rewrite Himpl, Hrec. unfold sameEntry. cbn [root_entry newRoot].
    rewrite Nat.eqb_refl. cbn [negb]. rewrite enqueueWatchRequest_outcome. cbv zeta.
    cbn [_watchRequests nextId set_activeRoots rootId]. rewrite Hq2, Hid. reflexivity. }
  rewrite H3. clear H3.
  (* the backend has answered *)
  unfold exec. erewrite callBack_at; [|reflexivity|simpl; by rewrite Hpend].
  unfold fnContinuation. simpl fn. cbv iota.
  unfold resume. simpl reply_err.
  unfold requestCb, tryFinally. simpl cb.
  rewrite applyCallback_unwatchDone, callClient_outcome.
  rewrite shift_dequeue_outcome. simpl _watchRequests. rewrite Hq2.
  destruct (cbThrows c2 _); simpl.
  all: rewrite Hroots, Hact, Hidx, Htrace, Hpend, (deleteRoot_setRoot _ _ _ Hnew).
  all: split; [reflexivity|]; split; [reflexivity|]; split; [reflexivity|];
       split; [reflexivity|]; split;
       [intros p e; by apply pruneIndex_lookup|];
       rewrite <- !app_assoc; simpl; rewrite drop_app_length;
       destruct (truthyErr err); reflexivity.
Qed.

Lemma watch_then_unwatch_restores_registry_witness :
  let s := exec (getFileForPath "/proj/a.txt")
             (exec (getDirectoryForPath "/proj") (init recursiveImpl)) in
  let s' := run (watchThenUnwatch s projEntry acceptAll (quiet 1) (quiet 2)
                   (Some "NotFound")) s in
  _watchedRoots s' = []
  ∧ _index s !! "/proj/a.txt" = Some (newEntry 1 "/proj/a.txt" false)
  ∧ _index s' !! "/proj/a.txt" = None
  ∧ drop (List.length (trace s)) (trace s')
    = [Enqueued 3; Started 3; WatchPath "/proj/"; Called 1 None; Shifted 3;
       Enqueued 4; Started 4; UnwatchPath "/proj/";
       ConsoleWarn "Failed to unwatch root: " "/proj/";
       Called 2 (Some "NotFound"); Shifted 4].
Proof.
  cbv zeta.
  set (s := exec (getFileForPath "/proj/a.txt")
              (exec (getDirectoryForPath "/proj") (init recursiveImpl))).
  assert (Hidx : _index s = FileIndex.addEntry (newEntry 1 "/proj/a.txt" false)
                              (FileIndex.addEntry projEntry ∅)) by (vm_compute; reflexivity).
  assert (Hwf : FileIndex.wf (_index s)).
  { rewrite Hidx. intros p e. unfold FileIndex.addEntry.
    rewrite !lookup_insert_Some, lookup_empty.
    intros [[<- <-]|[_ [[<- <-]|[_ H]]]]; [reflexivity|reflexivity|discriminate H]. }
  destruct (watch_then_unwatch_restores_registry s projEntry acceptAll (quiet 1) (quiet 2)
              (Some "NotFound") ltac:(reflexivity) ltac:(reflexivity) I
              ltac:(reflexivity) Hwf)
    as (H1 & _ & _ & _ & H5 & H6).
  assert (Hl : _index s !! "/proj/a.txt" = Some (newEntry 1 "/proj/a.txt" false))
    by (rewrite Hidx; apply lookup_insert_eq).
  split; [exact H1|]. split; [exact Hl|]. split; [|exact H6].
  destruct (_ !! "/proj/a.txt") as [e|] eqn:He in |- *; [|reflexivity].
  apply H5 in He as [He Hs]. rewrite Hl in He. injection He as <-.
  vm_compute in Hs. discriminate.
Defined.

End RoundTrip.
